(** * zod-collection-ui: affordance inference, collection resolution,
      store factory and diff-mode code generation

    A shallow embedding of [src/inference.ts], [src/collection.ts],
    [src/generators.ts], [src/store.ts] and [src/codegen.ts], followed by
    the properties the specification states about them.

    Conventions of the embedding.
    - JavaScript values that the code handles dynamically (affordance
      records, metadata blobs, collection affordances, generated config
      objects) are values of [Value]; an object is an insertion-ordered
      association list, property reads of absent keys give [VUndef], and
      the spread [{...a, ...b}] is [spread a b].  Keys that look like
      array indices, which JavaScript enumerates before the others, are
      not treated apart.
    - Numbers are integers ([VNum], over [Z]) or NaN ([VNaN]); fractions
      and the infinities are outside the model.  Where the source reads a
      property at a static type ([order: number], [defaultPageSize:
      number]) and computes with it, the model reads a number and the
      properties about the result assume the property holds one.
    - The members of an enum are strings, as [z.enum([...])] gives them
      and as the result type [string[]] of [getEnumValues] says; an enum
      with members that are not strings is outside the model.
    - Strings are [string]; the regular expressions of the source only
      mention ASCII characters, and a character outside ASCII never
      matches any of them.
    - A JavaScript [TypeError] (reading a property of [undefined]) is the
      [Throw] result of the [Result] monad. *)

From Stdlib Require Import List String Ascii ZArith Bool Arith Lia.
From Stdlib Require Import DecimalString DecimalNat.
From Stdlib Require Import Permutation Sorted.
Import ListNotations.
Open Scope string_scope.
Open Scope list_scope.

Set Implicit Arguments.
Set Warnings "-register-all".

(* ====================================================================== *)
(** ** JavaScript values and objects *)
(* ====================================================================== *)

Inductive Value : Type :=
| VUndef
| VNull
| VBool (b : bool)
| VNum (n : Z)
| VStr (s : string)
| VArr (items : list Value)
| VObj (props : list (string * Value))
| VNaN.

(** An object with values of type [A], in property insertion order. *)
Definition JsObject (A : Type) : Type := list (string * A).

(** A dynamically typed object. *)
Definition Obj : Type := JsObject Value.

(** [o[k]] as an optional own property. *)
Fixpoint lookup {A : Type} (k : string) (o : JsObject A) : option A :=
  match o with
  | [] => None
  | (k', v) :: rest => if String.eqb k k' then Some v else lookup k rest
  end.

(** [k in o]. *)
Definition has_key {A : Type} (k : string) (o : JsObject A) : bool :=
  match lookup k o with Some _ => true | None => false end.

(** [o[k] = v]: an existing property keeps its position, a new one is
    appended. *)
Fixpoint assign {A : Type} (k : string) (v : A) (o : JsObject A) : JsObject A :=
  match o with
  | [] => [(k, v)]
  | (k', v') :: rest =>
      if String.eqb k k' then (k', v) :: rest else (k', v') :: assign k v rest
  end.

(** [{...a, ...b}], also [Object.assign(a, b)]. *)
Definition spread {A : Type} (a b : JsObject A) : JsObject A :=
  fold_left (fun acc kv => assign (fst kv) (snd kv) acc) b a.

(** [Object.keys(o)]. *)
Definition keys {A : Type} (o : JsObject A) : list string := map fst o.

(** [o.k] on a dynamic object: [undefined] when the property is absent. *)
Definition get (k : string) (o : Obj) : Value :=
  match lookup k o with Some v => v | None => VUndef end.

(** JavaScript truthiness. *)
Definition truthy (v : Value) : bool :=
  match v with
  | VUndef | VNull => false
  | VBool b => b
  | VNum n => negb (Z.eqb n 0)
  | VStr s => negb (String.eqb s "")
  | VArr _ | VObj _ => true
  | VNaN => false
  end.

(** [v == null]. *)
Definition nullish (v : Value) : bool :=
  match v with VUndef | VNull => true | _ => false end.

(** [v ?? d]. *)
Definition nullish_or (v d : Value) : Value := if nullish v then d else v.

(** [typeof v]. *)
Definition typeof (v : Value) : string :=
  match v with
  | VUndef => "undefined"
  | VNull | VArr _ | VObj _ => "object"
  | VBool _ => "boolean"
  | VNum _ | VNaN => "number"
  | VStr _ => "string"
  end.

(** [v === true], [v === false], [v === 's']. *)
Definition is_true (v : Value) : bool :=
  match v with VBool true => true | _ => false end.

Definition is_false (v : Value) : bool :=
  match v with VBool false => true | _ => false end.

Definition is_str (s : string) (v : Value) : bool :=
  match v with VStr t => String.eqb t s | _ => false end.

(** [String(i)] for an array index. *)
Definition index_string (i : nat) : string :=
  NilEmpty.string_of_uint (Nat.to_uint i).

(** The own enumerable properties of a value, as the spread syntax and
    [Object.assign] see them: the properties of an object, the indices of
    an array, nothing for a primitive. *)
Definition own_props (v : Value) : Obj :=
  match v with
  | VObj o => o
  | VArr l => combine (map index_string (seq 0 (List.length l))) l
  | _ => []
  end.

(** [v ?? d] for a property of static type [number | undefined], as a
    number the code computes with: the number [v] holds, [d] when [v] is
    [undefined] or [null].  A value of another type, which [??] would
    pass on as it is, also reads as [d]: the properties stated about the
    results assume that the property holds a number or nothing. *)
Definition number_or (d : Z) (v : Value) : Z :=
  match v with VNum n => n | _ => d end.

(* ====================================================================== *)
(** ** Exceptions *)
(* ====================================================================== *)

Inductive Result (A : Type) : Type :=
| Ok (a : A)
| Throw.

Arguments Ok {A} a.
Arguments Throw {A}.

Definition bind {A B : Type} (m : Result A) (f : A -> Result B) : Result B :=
  match m with
  | Ok a => f a
  | Throw => Throw
  end.

Notation "x <- m ;; k" := (bind m (fun x => k))
  (at level 61, m at next level, right associativity).

(** A [for ... of] loop whose body may throw, threading an accumulator. *)
Fixpoint for_each {A S : Type} (body : S -> A -> Result S) (xs : list A) (s : S)
  : Result S :=
  match xs with
  | [] => Ok s
  | x :: rest => s' <- body s x ;; for_each body rest s'
  end.

(* ====================================================================== *)
(** ** Characters, strings and the regular expressions of the source *)
(* ====================================================================== *)

Definition is_lower (c : ascii) : bool :=
  let n := nat_of_ascii c in (97 <=? n)%nat && (n <=? 122)%nat.

Definition is_upper (c : ascii) : bool :=
  let n := nat_of_ascii c in (65 <=? n)%nat && (n <=? 90)%nat.

Definition is_digit (c : ascii) : bool :=
  let n := nat_of_ascii c in (48 <=? n)%nat && (n <=? 57)%nat.

(** [\w] *)
Definition is_word (c : ascii) : bool :=
  is_lower c || is_upper c || is_digit c || Ascii.eqb c "_"%char.

(** ASCII white space, as [trim] removes it. *)
Definition is_space (c : ascii) : bool :=
  let n := nat_of_ascii c in ((9 <=? n)%nat && (n <=? 13)%nat) || (n =? 32)%nat.

Definition to_upper (c : ascii) : ascii :=
  if is_lower c then ascii_of_nat (nat_of_ascii c - 32) else c.

Definition to_lower (c : ascii) : ascii :=
  if is_upper c then ascii_of_nat (nat_of_ascii c + 32) else c.

Fixpoint map_string (f : ascii -> ascii) (s : string) : string :=
  match s with
  | EmptyString => EmptyString
  | String c rest => String (f c) (map_string f rest)
  end.

(** Case folding for the [i] flag. *)
Definition lower (s : string) : string := map_string to_lower s.

(** [key] ends with [w]. *)
Fixpoint ends_with (w key : string) : bool :=
  String.eqb w key ||
  match key with
  | EmptyString => false
  | String _ rest => ends_with w rest
  end.

(** The star-free patterns the name heuristics use: literals,
    alternatives [a|b], concatenation and the optional [p?]. *)
Inductive Pattern : Type :=
| Lit (s : string)
| Alt (ps : list Pattern)
| Seq (p q : Pattern)
| Opt (p : Pattern).

(** The finite language of a pattern. *)
Fixpoint words (p : Pattern) : list string :=
  match p with
  | Lit s => [s]
  | Alt ps =>
      (fix alts (l : list Pattern) : list string :=
         match l with
         | [] => []
         | q :: rest => words q ++ alts rest
         end) ps
  | Seq p q =>
      flat_map (fun u => map (fun v => String.append u v) (words q)) (words p)
  | Opt p => "" :: words p
  end.

(** [/^p$/i.test(key)] *)
Definition test_anchored_ci (p : Pattern) (key : string) : bool :=
  existsb (fun w => String.eqb (lower key) (lower w)) (words p).

(** [/p$/.test(key)] *)
Definition test_suffix (p : Pattern) (key : string) : bool :=
  existsb (fun w => ends_with w key) (words p).

(** [x_?y] *)
Definition opt_us (x y : string) : Pattern :=
  Seq (Lit x) (Seq (Opt (Lit "_")) (Lit y)).

(** [humanizeFieldName]: camelCase or snake_case key to a label. *)

(** [.replace(/([a-z])([A-Z])/g, '$1 $2')] *)
Fixpoint split_camel (s : string) : string :=
  match s with
  | EmptyString => EmptyString
  | String a rest =>
      match rest with
      | String b _ =>
          if is_lower a && is_upper b
          then String a (String " " (split_camel rest))
          else String a (split_camel rest)
      | EmptyString => String a EmptyString
      end
  end.

(** [.replace(/[_-]+/g, ' ')]; [in_run] tells that the previous character
    already belonged to the run being replaced. *)
Fixpoint collapse_separators (in_run : bool) (s : string) : string :=
  match s with
  | EmptyString => EmptyString
  | String c rest =>
      if Ascii.eqb c "_"%char || Ascii.eqb c "-"%char
      then (if in_run then collapse_separators true rest
            else String " " (collapse_separators true rest))
      else String c (collapse_separators false rest)
  end.

(** [.replace(/\b\w/g, c => c.toUpperCase())]; [prev_word] tells that the
    previous character was a word character. *)
Fixpoint capitalize_words (prev_word : bool) (s : string) : string :=
  match s with
  | EmptyString => EmptyString
  | String c rest =>
      String (if is_word c && negb prev_word then to_upper c else c)
             (capitalize_words (is_word c) rest)
  end.

Fixpoint trim_start (s : string) : string :=
  match s with
  | EmptyString => EmptyString
  | String c rest => if is_space c then trim_start rest else s
  end.

Fixpoint string_rev (acc s : string) : string :=
  match s with
  | EmptyString => acc
  | String c rest => string_rev (String c acc) rest
  end.

(** [.trim()], of ASCII white space. *)
Definition trim (s : string) : string :=
  string_rev "" (trim_start (string_rev "" (trim_start s))).

Definition humanizeFieldName (key : string) : string :=
  trim (capitalize_words false (collapse_separators false (split_camel key))).

(** [v.charAt(0).toUpperCase() + v.slice(1)], on a string of ASCII
    characters. *)
Definition capitalize_first (v : string) : string :=
  match v with
  | EmptyString => EmptyString
  | String c rest => String (to_upper c) rest
  end.

(* ====================================================================== *)
(** ** inference.ts: schema introspection *)
(* ====================================================================== *)

(** A validation check of the checks array: its [kind] and its numeric
    operand [value] (the operand of a [min] or [max] check; the code reads
    it for no other kind).  A check object without a [kind] behaves as one
    whose kind no test asks for. *)
Record ZodCheck : Type := mkCheck {
  kind : string;
  value : Z
}.

(** A schema node, as the code reaches into it.  Where a node is
    expected the code may be handed [undefined] or [null]
    ([NullishNode]), on which reading any property raises a TypeError.
    Any other node ([mkSchema]) is read through the definition
    [_zod?.def] (absent on a node the code cannot read), the instance
    properties [minValue] and [maxValue] (present when they are numbers)
    and the result of [.meta()].  A definition carries its type tag, the
    wrapped node of a wrapper, the checks array, the string format, the
    members of an enum ([entries], or the older [values]) and whether a
    [defaultValue] key is present. *)
Inductive ZodSchema : Type :=
| NullishNode
| mkSchema (zod_def : option ZodDef) (minValue maxValue : option Z) (meta : option Obj)
with ZodDef : Type :=
| mkDef (type : option string) (innerType : option ZodSchema)
        (checks : option (list ZodCheck)) (format : option string)
        (entries : option (JsObject string)) (values : option (list string))
        (hasDefaultValue : bool).

(** The properties of a node.  The functions below test for a nullish
    node where the source first reads a property of it; under the
    [try]/[catch] of [getZodMeta] the failed read gives no metadata. *)
Definition zod_def (schema : ZodSchema) : option ZodDef :=
  match schema with mkSchema d _ _ _ => d | NullishNode => None end.

Definition minValue (schema : ZodSchema) : option Z :=
  match schema with mkSchema _ m _ _ => m | NullishNode => None end.

Definition maxValue (schema : ZodSchema) : option Z :=
  match schema with mkSchema _ _ m _ => m | NullishNode => None end.

Definition meta (schema : ZodSchema) : option Obj :=
  match schema with mkSchema _ _ _ m => m | NullishNode => None end.

Definition type (def : ZodDef) : option string :=
  match def with mkDef t _ _ _ _ _ _ => t end.

Definition innerType (def : ZodDef) : option ZodSchema :=
  match def with mkDef _ i _ _ _ _ _ => i end.

Definition checks (def : ZodDef) : option (list ZodCheck) :=
  match def with mkDef _ _ c _ _ _ _ => c end.

Definition format (def : ZodDef) : option string :=
  match def with mkDef _ _ _ f _ _ _ => f end.

Definition entries (def : ZodDef) : option (JsObject string) :=
  match def with mkDef _ _ _ _ e _ _ => e end.

Definition values (def : ZodDef) : option (list string) :=
  match def with mkDef _ _ _ _ _ v _ => v end.

Definition hasDefaultValue (def : ZodDef) : bool :=
  match def with mkDef _ _ _ _ _ _ h => h end.

(** [def.type === 'optional' || def.type === 'nullable' ||
    def.type === 'default'] *)
Definition is_wrapper_type (t : option string) : bool :=
  match t with
  | Some s => String.eqb s "optional" || String.eqb s "nullable" || String.eqb s "default"
  | None => false
  end.

(** [t === s] for an optional string property. *)
Definition opt_is (s : string) (t : option string) : bool :=
  match t with Some u => String.eqb u s | None => false end.

(** Get the underlying type name, unwrapping optionals, nullables and
    defaults.  [schema._zod] raises on a nullish node; a wrapper without
    an inner node makes the recursive call read [_zod] of [undefined]. *)
Fixpoint getZodBaseType (schema : ZodSchema) : Result string :=
  match schema with
  | NullishNode => Throw
  | mkSchema None _ _ _ => Ok "unknown"
  | mkSchema (Some def) _ _ _ =>
      if is_wrapper_type (type def) then
        match innerType def with
        | Some inner => getZodBaseType inner
        | None => Throw
        end
      else
        Ok (match type def with Some t => t | None => "unknown" end)
  end.

(** Get the inner schema, unwrapping optionals, nullables and defaults. *)
Fixpoint unwrapZodSchema (schema : ZodSchema) : Result ZodSchema :=
  match schema with
  | NullishNode => Throw
  | mkSchema None _ _ _ => Ok schema
  | mkSchema (Some def) _ _ _ =>
      if is_wrapper_type (type def) then
        match innerType def with
        | Some inner => unwrapZodSchema inner
        | None => Throw
        end
      else Ok schema
  end.

(** Check if a schema has a specific check or validation. *)
Definition hasZodCheck (schema : ZodSchema) (k : string) : Result bool :=
  unwrapped <- unwrapZodSchema schema ;;
  match zod_def unwrapped with
  | None => Ok false
  | Some def =>
      match checks def with
      | Some cs => Ok (existsb (fun c => String.eqb (kind c) k) cs)
      | None => Ok (opt_is k (format def) || opt_is k (type def))
      end
  end.

(** [Object.values(o)] *)
Definition object_values {A : Type} (o : JsObject A) : list A := map snd o.

(** Get enum values from an enum schema; [None] is the source's [null].
    The members are strings, as the result type [string[] | null] says:
    an enum built from an object with other values ([z.enum({Low: 1})]),
    on which the generators raise at [v.charAt], is outside the model. *)
Definition getEnumValues (schema : ZodSchema) : Result (option (list string)) :=
  unwrapped <- unwrapZodSchema schema ;;
  match zod_def unwrapped with
  | None => Ok None
  | Some def =>
      if opt_is "enum" (type def) then
        match entries def with
        | Some es => Ok (Some (object_values es))
        | None => Ok (values def)
        end
      else Ok None
  end.

(** Read the metadata of a node; a throwing [.meta()] is caught and reads
    as no metadata. *)
Definition getZodMeta (schema : ZodSchema) : option Obj := meta schema.

Definition MAX_SAFE_INTEGER : Z := 9007199254740991.

(** The [{ min?, max? }] result of [getNumericBounds]. *)
Record Bounds : Type := mkBounds {
  min : option Z;
  max : option Z
}.

(** One iteration of the loop over the checks array. *)
Definition bounds_step (result : Bounds) (check : ZodCheck) : Bounds :=
  let result :=
    if String.eqb (kind check) "min" && match min result with None => true | Some _ => false end
    then mkBounds (Some (value check)) (max result) else result in
  if String.eqb (kind check) "max" && match max result with None => true | Some _ => false end
  then mkBounds (min result) (Some (value check)) else result.

(** The bounds read from the instance properties alone. *)
Definition instance_bounds (unwrapped : ZodSchema) : Bounds :=
  mkBounds
    match minValue unwrapped with
    | Some m => if Z.eqb m (- MAX_SAFE_INTEGER) then None else Some m
    | None => None
    end
    match maxValue unwrapped with
    | Some m => if Z.eqb m MAX_SAFE_INTEGER then None else Some m
    | None => None
    end.

(** Get the numeric min and max of a node. *)
Definition getNumericBounds (schema : ZodSchema) : Result Bounds :=
  unwrapped <- unwrapZodSchema schema ;;
  let result := instance_bounds unwrapped in
  match zod_def unwrapped with
  | Some def =>
      match checks def with
      | Some cs => Ok (fold_left bounds_step cs result)
      | None => Ok result
      end
  | None => Ok result
  end.

(* ====================================================================== *)
(** ** inference.ts: type-based defaults *)
(* ====================================================================== *)

Definition STRING_FIELD_DEFAULTS : Obj :=
  [ ("sortable", VStr "both"); ("filterable", VStr "search");
    ("searchable", VBool true); ("groupable", VBool false);
    ("editable", VBool true); ("visible", VBool true) ].

Definition NUMBER_FIELD_DEFAULTS : Obj :=
  [ ("sortable", VStr "both"); ("filterable", VStr "range");
    ("searchable", VBool false); ("groupable", VBool false);
    ("editable", VBool true); ("visible", VBool true);
    ("aggregatable", VArr [VStr "sum"; VStr "avg"; VStr "min"; VStr "max"]) ].

Definition BOOLEAN_FIELD_DEFAULTS : Obj :=
  [ ("sortable", VStr "both"); ("filterable", VStr "boolean");
    ("searchable", VBool false); ("groupable", VBool true);
    ("editable", VBool true); ("visible", VBool true) ].

Definition ENUM_FIELD_DEFAULTS : Obj :=
  [ ("sortable", VStr "both"); ("filterable", VStr "select");
    ("searchable", VBool false); ("groupable", VBool true);
    ("editable", VBool true); ("visible", VBool true) ].

Definition DATE_FIELD_DEFAULTS : Obj :=
  [ ("sortable", VStr "both"); ("filterable", VStr "range");
    ("searchable", VBool false); ("groupable", VBool false);
    ("editable", VBool true); ("visible", VBool true) ].

Definition ARRAY_FIELD_DEFAULTS : Obj :=
  [ ("sortable", VBool false); ("filterable", VStr "contains");
    ("searchable", VBool false); ("groupable", VBool false);
    ("editable", VBool true); ("visible", VBool true) ].

Definition OBJECT_FIELD_DEFAULTS : Obj :=
  [ ("sortable", VBool false); ("filterable", VBool false);
    ("searchable", VBool false); ("groupable", VBool false);
    ("editable", VBool true); ("visible", VBool true);
    ("detailOnly", VBool true) ].

Definition UNKNOWN_FIELD_DEFAULTS : Obj :=
  [ ("sortable", VBool false); ("filterable", VBool false);
    ("searchable", VBool false); ("groupable", VBool false);
    ("editable", VBool false); ("visible", VBool true) ].

(** [switch (zodType)]: the first list containing the tag decides. *)
Definition one_of (tags : list string) (t : string) : bool :=
  existsb (String.eqb t) tags.

(** Map a base type to its default affordances. *)
Definition getTypeDefaults (zodType : string) : Obj :=
  if one_of ["string"] zodType then STRING_FIELD_DEFAULTS
  else if one_of ["number"; "int"; "float"; "bigint"] zodType then NUMBER_FIELD_DEFAULTS
  else if one_of ["boolean"] zodType then BOOLEAN_FIELD_DEFAULTS
  else if one_of ["enum"; "nativeEnum"] zodType then ENUM_FIELD_DEFAULTS
  else if one_of ["date"] zodType then DATE_FIELD_DEFAULTS
  else if one_of ["array"; "set"; "tuple"] zodType then ARRAY_FIELD_DEFAULTS
  else if one_of ["object"; "record"; "map"] zodType then OBJECT_FIELD_DEFAULTS
  else UNKNOWN_FIELD_DEFAULTS.

(* ====================================================================== *)
(** ** inference.ts: validation-based refinements *)
(* ====================================================================== *)

(** The body of the loop over the checks of a string node. *)
Definition refine_check (refined : Obj) (check : ZodCheck) : Obj :=
  let k := kind check in
  let refined :=
    if String.eqb k "email"
    then assign "filterable" (VStr "search") (assign "editWidget" (VStr "email") refined)
    else refined in
  let refined :=
    if String.eqb k "url" || String.eqb k "uri"
    then assign "filterable" (VStr "exact")
           (assign "searchable" (VBool false) (assign "editWidget" (VStr "url") refined))
    else refined in
  if String.eqb k "uuid" || String.eqb k "ulid" || String.eqb k "cuid"
  then assign "searchable" (VBool false)
         (assign "filterable" (VStr "exact") (assign "editable" (VBool false) refined))
  else refined.

(** The refinements of a node whose definition is [def]. *)
Definition refine_def (def : ZodDef) (defaults : Obj) : Obj :=
  let refined := defaults in
  let refined :=
    if opt_is "string" (type def) then
      let refined :=
        match checks def with
        | Some cs => fold_left refine_check cs refined
        | None => refined
        end in
      let refined :=
        if opt_is "email" (format def)
        then assign "editWidget" (VStr "email") refined else refined in
      let refined :=
        if opt_is "uri" (format def) || opt_is "url" (format def)
        then assign "searchable" (VBool false) (assign "editWidget" (VStr "url") refined)
        else refined in
      if opt_is "uuid" (format def)
      then assign "searchable" (VBool false)
             (assign "filterable" (VStr "exact") (assign "editable" (VBool false) refined))
      else refined
    else refined in
  if opt_is "boolean" (type def) && hasDefaultValue def
  then assign "editWidget" (VStr "switch") refined
  else refined.

(** Refine defaults based on validations and checks. *)
Definition refineByValidations (schema : ZodSchema) (defaults : Obj) : Result Obj :=
  unwrapped <- unwrapZodSchema schema ;;
  match zod_def unwrapped with
  | None => Ok defaults
  | Some def => Ok (refine_def def defaults)
  end.

(* ====================================================================== *)
(** ** inference.ts: name-based heuristics *)
(* ====================================================================== *)

Definition ID_PATTERNS : Pattern :=
  Alt [Lit "id"; Lit "_id"; Lit "uuid"; Lit "uid"; Lit "key"; Lit "pk"].

Definition ID_SUFFIX_PATTERNS : Pattern :=
  Alt [Lit "_id"; Lit "Id"; Lit "ID"; Lit "_key"; Lit "Key"].

Definition CREATED_PATTERNS : Pattern :=
  Alt [opt_us "created" "at"; opt_us "creation" "date"; opt_us "date" "created";
       Lit "ctime"].

Definition UPDATED_PATTERNS : Pattern :=
  Alt [opt_us "updated" "at"; opt_us "modified" "at"; opt_us "last" "modified";
       Lit "mtime"; opt_us "changed" "at"].

Definition DELETED_PATTERNS : Pattern :=
  Alt [opt_us "deleted" "at"; opt_us "removed" "at"].

Definition SECRET_PATTERNS : Pattern :=
  Alt [Lit "password"; Lit "secret"; Lit "token"; opt_us "api" "key";
       opt_us "access" "key"; opt_us "private" "key"; Lit "hash"; Lit "salt"].

Definition EMAIL_PATTERNS : Pattern :=
  Alt [Lit "email"; opt_us "e" "mail"].

Definition NAME_PATTERNS : Pattern :=
  Alt [Lit "name"; Lit "title"; Lit "label"; opt_us "display" "name";
       opt_us "full" "name"; Lit "username"].

Definition DESCRIPTION_PATTERNS : Pattern :=
  Alt [Lit "description"; Lit "summary"; Lit "body"; Lit "content"; Lit "text";
       Lit "bio"; Lit "about"; Lit "notes"].

Definition IMAGE_PATTERNS : Pattern :=
  Seq (Alt [Lit "image"; Lit "photo"; Lit "avatar"; Lit "thumbnail";
            Lit "picture"; Lit "icon"; Lit "logo"])
      (Opt (Seq (Opt (Lit "_")) (Lit "url"))).

Definition STATUS_PATTERNS : Pattern :=
  Alt [Lit "status"; Lit "state"; Lit "phase"; Lit "stage"].

(** [ID_PATTERNS.test(key) || ID_SUFFIX_PATTERNS.test(key)] *)
Definition test_identifier (key : string) : bool :=
  test_anchored_ci ID_PATTERNS key || test_suffix ID_SUFFIX_PATTERNS key.

(** The bodies of the ten conditionals of [refineByFieldName]. *)

Definition identifier_patch (key : string) (refined : Obj) : Obj :=
  let refined := assign "editable" (VBool false) refined in
  let refined :=
    assign "visible"
      (if String.eqb key "id" then VBool false else get "visible" refined) refined in
  let refined := assign "filterable" (VStr "exact") refined in
  assign "searchable" (VBool false) refined.

Definition created_patch (refined : Obj) : Obj :=
  let refined := assign "editable" (VBool false) refined in
  let refined := assign "sortable" (VStr "both") refined in
  assign "filterable" (VStr "range") refined.

Definition updated_patch (refined : Obj) : Obj :=
  let refined := assign "editable" (VBool false) refined in
  let refined := assign "visible" (VBool false) refined in
  assign "sortable" (VStr "both") refined.

Definition deleted_patch (refined : Obj) : Obj :=
  let refined := assign "editable" (VBool false) refined in
  assign "visible" (VBool false) refined.

Definition secret_patch (refined : Obj) : Obj :=
  let refined := assign "readable" (VBool false) refined in
  let refined := assign "searchable" (VBool false) refined in
  let refined := assign "sortable" (VBool false) refined in
  let refined := assign "filterable" (VBool false) refined in
  assign "visible" (VBool false) refined.

Definition email_patch (refined : Obj) : Obj :=
  let refined :=
    assign "editWidget" (nullish_or (get "editWidget" refined) (VStr "email")) refined in
  let refined := assign "filterable" (VStr "search") refined in
  assign "searchable" (VBool true) refined.

Definition name_patch (refined : Obj) : Obj :=
  let refined := assign "searchable" (VBool true) refined in
  let refined := assign "summaryField" (VBool true) refined in
  assign "sortable" (VStr "both") refined.

Definition description_patch (refined : Obj) : Obj :=
  let refined :=
    assign "editWidget" (nullish_or (get "editWidget" refined) (VStr "textarea")) refined in
  let refined :=
    assign "truncate" (nullish_or (get "truncate" refined) (VNum 100)) refined in
  let refined := assign "tooltip" (VBool true) refined in
  assign "sortable" (VBool false) refined.

Definition image_patch (refined : Obj) : Obj :=
  let refined := assign "sortable" (VBool false) refined in
  let refined := assign "filterable" (VBool false) refined in
  assign "searchable" (VBool false) refined.

Definition status_patch (refined : Obj) : Obj :=
  let refined := assign "groupable" (VBool true) refined in
  assign "filterable" (VStr "select") refined.

(** Refine defaults based on field name heuristics. *)
Definition refineByFieldName (key : string) (defaults : Obj) : Obj :=
  let refined := defaults in
  let refined :=
    if test_identifier key then identifier_patch key refined else refined in
  let refined :=
    if test_anchored_ci CREATED_PATTERNS key then created_patch refined else refined in
  let refined :=
    if test_anchored_ci UPDATED_PATTERNS key then updated_patch refined else refined in
  let refined :=
    if test_anchored_ci DELETED_PATTERNS key then deleted_patch refined else refined in
  let refined :=
    if test_anchored_ci SECRET_PATTERNS key then secret_patch refined else refined in
  let refined :=
    if test_anchored_ci EMAIL_PATTERNS key then email_patch refined else refined in
  let refined :=
    if test_anchored_ci NAME_PATTERNS key then name_patch refined else refined in
  let refined :=
    if test_anchored_ci DESCRIPTION_PATTERNS key then description_patch refined else refined in
  let refined :=
    if test_anchored_ci IMAGE_PATTERNS key then image_patch refined else refined in
  if test_anchored_ci STATUS_PATTERNS key then status_patch refined else refined.

(** The heuristics as the specification lists them: an ordered table of
    (pattern, patch) pairs. *)
Inductive Heuristic : Type :=
| HIdentifier | HCreatedAt | HUpdatedAt | HDeletedAt | HSecret
| HEmail | HNameTitle | HDescription | HImage | HStatus.

Definition HEURISTIC_ORDER : list Heuristic :=
  [HIdentifier; HCreatedAt; HUpdatedAt; HDeletedAt; HSecret;
   HEmail; HNameTitle; HDescription; HImage; HStatus].

Definition heuristic_matches (h : Heuristic) (key : string) : bool :=
  match h with
  | HIdentifier => test_identifier key
  | HCreatedAt => test_anchored_ci CREATED_PATTERNS key
  | HUpdatedAt => test_anchored_ci UPDATED_PATTERNS key
  | HDeletedAt => test_anchored_ci DELETED_PATTERNS key
  | HSecret => test_anchored_ci SECRET_PATTERNS key
  | HEmail => test_anchored_ci EMAIL_PATTERNS key
  | HNameTitle => test_anchored_ci NAME_PATTERNS key
  | HDescription => test_anchored_ci DESCRIPTION_PATTERNS key
  | HImage => test_anchored_ci IMAGE_PATTERNS key
  | HStatus => test_anchored_ci STATUS_PATTERNS key
  end.

Definition heuristic_patch (h : Heuristic) (key : string) : Obj -> Obj :=
  match h with
  | HIdentifier => identifier_patch key
  | HCreatedAt => created_patch
  | HUpdatedAt => updated_patch
  | HDeletedAt => deleted_patch
  | HSecret => secret_patch
  | HEmail => email_patch
  | HNameTitle => name_patch
  | HDescription => description_patch
  | HImage => image_patch
  | HStatus => status_patch
  end.

(** The heuristics whose pattern matches [key], in list order. *)
Definition matching_heuristics (key : string) : list Heuristic :=
  filter (fun h => heuristic_matches h key) HEURISTIC_ORDER.

(** Applying patches one after the other. *)
Definition apply_patches (key : string) (hs : list Heuristic) (r : Obj) : Obj :=
  fold_left (fun acc h => heuristic_patch h key acc) hs r.

(** A patch sets the observation [f] to [v] whatever the record it is
    applied to; it keeps [f] when it never changes it. *)
Definition patch_sets {A : Type} (p : Obj -> Obj) (f : Obj -> A) (v : A) : Prop :=
  forall r, f (p r) = v.

Definition patch_keeps {A : Type} (p : Obj -> Obj) (f : Obj -> A) : Prop :=
  forall r, f (p r) = f r.

(* ====================================================================== *)
(** ** inference.ts: inferFieldAffordances *)
(* ====================================================================== *)

Definition affordanceKeys : list string :=
  [ "sortable"; "filterable"; "searchable"; "groupable"; "aggregatable";
    "readable"; "editable"; "inlineEditable"; "requiredOnCreate"; "requiredOnUpdate";
    "immutableAfterCreate"; "visible"; "hidden"; "detailOnly"; "summaryField";
    "columnWidth"; "minWidth"; "maxWidth"; "resizable"; "pinned"; "order";
    "title"; "description"; "displayFormat"; "badge"; "copyable"; "truncate";
    "tooltip"; "editWidget"; "editPlaceholder"; "editHelp" ].

(** Extract affordance-relevant fields from metadata. *)
Definition extractAffordancesFromMeta (m : Obj) : Obj :=
  let result : Obj :=
    fold_left
      (fun result key => if has_key key m then assign key (get key m) result else result)
      affordanceKeys [] in
  let result :=
    if truthy (get "affordances" m) && String.eqb (typeof (get "affordances" m)) "object"
    then spread result (own_props (get "affordances" m))
    else result in
  let result :=
    if truthy (get "title" m) && negb (truthy (get "title" result))
    then assign "title" (get "title" m) result else result in
  if truthy (get "description" m) && negb (truthy (get "description" result))
  then assign "description" (get "description" m) result else result.

(** Layer 4 and the title default, given the record after layer 3. *)
Definition finish_inference (key : string) (schema : ZodSchema) (affordances : Obj) : Obj :=
  let affordances :=
    match getZodMeta schema with
    | Some m => spread affordances (extractAffordancesFromMeta m)
    | None => affordances
    end in
  if negb (truthy (get "title" affordances))
  then assign "title" (VStr (humanizeFieldName key)) affordances
  else affordances.

(** Given a field name and its schema, infer default affordances. *)
Definition inferFieldAffordances (key : string) (schema : ZodSchema) : Result Obj :=
  baseType <- getZodBaseType schema ;;
  let affordances := getTypeDefaults baseType in
  affordances <- refineByValidations schema affordances ;;
  let affordances := refineByFieldName key affordances in
  Ok (finish_inference key schema affordances).

(* ====================================================================== *)
(** ** collection.ts *)
(* ====================================================================== *)

Definition DEFAULT_PAGINATION : Obj :=
  [ ("defaultPageSize", VNum 25);
    ("pageSizeOptions", VArr [VNum 10; VNum 25; VNum 50; VNum 100]);
    ("style", VStr "pages");
    ("serverSide", VBool false) ].

Definition DEFAULT_SEARCH : Obj :=
  [ ("debounce", VNum 300); ("minChars", VNum 1);
    ("highlight", VBool false); ("placeholder", VStr "Search...") ].

Definition DEFAULT_COLLECTION_AFFORDANCES : Obj :=
  [ ("create", VBool true); ("read", VBool true); ("update", VBool true);
    ("delete", VBool true); ("bulkDelete", VBool false); ("bulkEdit", VBool false);
    ("search", VBool true);
    ("pagination",
       VObj [ ("defaultPageSize", VNum 25);
              ("pageSizeOptions", VArr [VNum 10; VNum 25; VNum 50; VNum 100]);
              ("style", VStr "pages");
              ("serverSide", VBool false) ]);
    ("multiSort", VBool true); ("filterPanel", VBool true);
    ("selectable", VStr "multi"); ("columnVisibility", VBool true);
    ("columnOrder", VBool true); ("columnResize", VBool true);
    ("refresh", VBool true); ("defaultView", VStr "table");
    ("views", VArr [VStr "table"]) ].

(** The caller's configuration; every part is optional. *)
Record CollectionConfig : Type := mkConfig {
  cfg_affordances : option Obj;
  cfg_fields : option (JsObject Obj);
  cfg_operations : option (list Obj);
  cfg_idField : option string;
  cfg_labelField : option string
}.

(** The resolved collection: the shape of the source schema, the resolved
    collection-level and per-field affordances, the operations and the
    identity fields. *)
Record CollectionDefinition : Type := mkCollection {
  schema_shape : JsObject ZodSchema;
  affordances : Obj;
  fieldAffordances : JsObject Obj;
  operations : list Obj;
  idField : string;
  labelField : string
}.

(** The normalization of one shorthand property ([pagination] or
    [search]) against its default object. *)
Definition normalize_shorthand (prop : string) (default : Obj) (merged : Obj) : Obj :=
  let v := get prop merged in
  if is_true v then assign prop (VObj default) merged
  else if truthy v && String.eqb (typeof v) "object"
  then assign prop (VObj (spread default (own_props v))) merged
  else merged.

Definition resolveCollectionAffordances (explicit : option Obj) : Obj :=
  let merged :=
    spread DEFAULT_COLLECTION_AFFORDANCES
           (match explicit with Some e => e | None => [] end) in
  let merged := normalize_shorthand "pagination" DEFAULT_PAGINATION merged in
  normalize_shorthand "search" DEFAULT_SEARCH merged.

(** [explicit?.[key] ?? {}] *)
Definition explicit_overrides (explicit : option (JsObject Obj)) (key : string) : Obj :=
  match explicit with
  | Some e => match lookup key e with Some o => o | None => [] end
  | None => []
  end.

(** The body of the loop of [resolveAllFieldAffordances]. *)
Definition resolve_field (explicit : option (JsObject Obj))
    (result : JsObject Obj) (entry : string * ZodSchema) : Result (JsObject Obj) :=
  let (key, fieldSchema) := entry in
  inferred <- inferFieldAffordances key fieldSchema ;;
  let explicitOverrides := explicit_overrides explicit key in
  let merged := spread inferred explicitOverrides in
  let title := nullish_or (get "title" merged) (VStr (humanizeFieldName key)) in
  zodType <- getZodBaseType fieldSchema ;;
  Ok (assign key (assign "zodType" (VStr zodType) (assign "title" title merged)) result).

Definition resolveAllFieldAffordances (shape : JsObject ZodSchema)
    (explicit : option (JsObject Obj)) : Result (JsObject Obj) :=
  for_each (resolve_field explicit) shape [].

(** Detect the ID field from the schema. *)
Definition detectIdField (shape : JsObject ZodSchema) : string :=
  if has_key "id" shape then "id"
  else if has_key "_id" shape then "_id"
  else if has_key "uuid" shape then "uuid"
  else if has_key "key" shape then "key"
  else
    match find (fun key => test_suffix (Alt [Lit "id"; Lit "Id"]) key || ends_with "_id" key)
               (keys shape) with
    | Some key => key
    | None => match keys shape with key :: _ => key | [] => "id" end
    end.

(** Detect the label field from the resolved field affordances. *)
Definition detectLabelField (fas : JsObject Obj) : string :=
  match find (fun e => truthy (get "summaryField" (snd e))) fas with
  | Some e => fst e
  | None =>
      match find (fun name => has_key name fas)
                 ["name"; "title"; "label"; "displayName"; "display_name"; "username"] with
      | Some name => name
      | None =>
          match find (fun e => is_str "string" (get "zodType" (snd e))
                               && negb (is_false (get "editable" (snd e)))) fas with
          | Some e => fst e
          | None => match keys fas with key :: _ => key | [] => "" end
          end
      end
  end.

Definition defineCollection (shape : JsObject ZodSchema) (config : option CollectionConfig)
  : Result CollectionDefinition :=
  let affordances := resolveCollectionAffordances
                       (match config with Some c => cfg_affordances c | None => None end) in
  fieldAffordances <-
    resolveAllFieldAffordances shape
      (match config with Some c => cfg_fields c | None => None end) ;;
  let idField :=
    match config with
    | Some {| cfg_idField := Some f |} => f
    | _ => detectIdField shape
    end in
  let labelField :=
    match config with
    | Some {| cfg_labelField := Some f |} => f
    | _ => detectLabelField fieldAffordances
    end in
  let operations :=
    match config with
    | Some {| cfg_operations := Some ops |} => ops
    | _ => []
    end in
  Ok (mkCollection shape affordances fieldAffordances operations idField labelField).

(** Stable sort by an integer key, as [Array.prototype.sort] with the
    comparator [(a, b) => key(a) - key(b)]. *)
Fixpoint insert_by {A : Type} (key : A -> Z) (x : A) (l : list A) : list A :=
  match l with
  | [] => [x]
  | y :: rest => if Z.ltb (key x) (key y) then x :: l else y :: insert_by key x rest
  end.

Definition sort_by {A : Type} (key : A -> Z) (l : list A) : list A :=
  fold_left (fun acc x => insert_by key x acc) l [].

(** [fa.order ?? 999], as the number the sort comparator subtracts, for
    an [order] that is a number or nothing ([order_is_number]). *)
Definition order_of (fa : Obj) : Z := number_or 999 (get "order" fa).

Definition getVisibleFields (c : CollectionDefinition) : list string :=
  map fst
    (sort_by (fun e => order_of (snd e))
       (filter (fun e => negb (is_false (get "visible" (snd e)))
                         && negb (truthy (get "hidden" (snd e)))
                         && negb (truthy (get "detailOnly" (snd e))))
               (fieldAffordances c))).

Definition getSearchableFields (c : CollectionDefinition) : list string :=
  map fst (filter (fun e => is_true (get "searchable" (snd e))) (fieldAffordances c)).

Definition getFilterableFields (c : CollectionDefinition) : list (string * Obj) :=
  filter (fun e => negb (is_false (get "filterable" (snd e)))) (fieldAffordances c).

Definition getSortableFields (c : CollectionDefinition) : list (string * Obj) :=
  filter (fun e => negb (is_false (get "sortable" (snd e)))
                   && negb (is_str "none" (get "sortable" (snd e))))
         (fieldAffordances c).

Definition getGroupableFields (c : CollectionDefinition) : list (string * Obj) :=
  filter (fun e => is_true (get "groupable" (snd e))) (fieldAffordances c).

(* ====================================================================== *)
(** ** generators.ts: the filter configuration *)
(* ====================================================================== *)

Record SelectOption : Type := mkOption {
  option_label : string;
  option_value : string
}.

Record FilterFieldConfig : Type := mkFilterField {
  filter_name : string;
  filter_label : Value;
  filterType : string;
  filter_options : option (list SelectOption);
  filter_bounds : option Bounds;
  filter_zodType : Value
}.

(** The entry the loop of [toFilterConfig] pushes for a filterable field
    with a schema node.  The option labels are made from string members;
    on a member that is not a string, which the model's enums do not
    hold, [v.charAt] raises. *)
Definition filter_field (c : CollectionDefinition) (key : string) (affordance : Obj)
    (fieldSchema : ZodSchema) : Result FilterFieldConfig :=
  let filterType :=
    match get "filterable" affordance with
    | VStr s => s
    | _ => "search"
    end in
  enumValues <- getEnumValues fieldSchema ;;
  let options :=
    match enumValues with
    | Some vs =>
        if String.eqb filterType "select" || String.eqb filterType "multiSelect"
        then Some (map (fun v => mkOption (capitalize_first v) v) vs)
        else None
    | None => None
    end in
  bounds <-
    (if String.eqb filterType "range"
     then b <- getNumericBounds fieldSchema ;; Ok (Some b)
     else Ok None) ;;
  zodType <-
    match lookup key (fieldAffordances c) with
    | Some fa => Ok (get "zodType" fa)
    | None => Throw
    end ;;
  Ok (mkFilterField key (nullish_or (get "title" affordance) (VStr key))
                    filterType options bounds zodType).

(** The body of the loop of [toFilterConfig]: a field without a schema
    node, or with a nullish one, is skipped. *)
Definition filter_step (c : CollectionDefinition)
    (filters : list FilterFieldConfig) (entry : string * Obj)
  : Result (list FilterFieldConfig) :=
  let (key, affordance) := entry in
  match lookup key (schema_shape c) with
  | None | Some NullishNode => Ok filters
  | Some fieldSchema =>
      f <- filter_field c key affordance fieldSchema ;;
      Ok (filters ++ [f])
  end.

(** Generate filter field configurations for the filter panel. *)
Definition toFilterConfig (c : CollectionDefinition) : Result (list FilterFieldConfig) :=
  for_each (filter_step c) (getFilterableFields c) [].

(* ====================================================================== *)
(** ** store.ts *)
(* ====================================================================== *)

Record SortingState : Type := mkSorting {
  sort_id : Value;
  desc : bool
}.

Record ColumnFilter : Type := mkColumnFilter {
  filter_id : string;
  filter_value : Value
}.

Record PaginationState : Type := mkPagination {
  pageIndex : Z;
  pageSize : Z
}.

Section Store.

(** The type of the items of the collection. *)
Variable T : Type.

(** The full state shape for a collection UI. *)
Record CollectionState : Type := mkState {
  items : list T;
  totalCount : Z;
  loading : bool;
  error : option string;
  sorting : list SortingState;
  columnFilters : list ColumnFilter;
  globalFilter : string;
  pagination : PaginationState;
  rowSelection : JsObject bool;
  columnVisibility : JsObject bool;
  columnOrder : list string;
  grouping : list string
}.

Definition buildInitialVisibility (collection : CollectionDefinition) : JsObject bool :=
  fold_left
    (fun visibility e =>
       if is_false (get "visible" (snd e)) || truthy (get "hidden" (snd e))
       then assign (fst e) false visibility
       else visibility)
    (fieldAffordances collection) [].

Definition buildInitialOrder (collection : CollectionDefinition) : list string :=
  map fst (sort_by (fun e => order_of (snd e)) (fieldAffordances collection)).

(** The initial state [createCollectionStore] derives from a collection.
    The page size is a number, as [PaginationState] types it: the
    [defaultPageSize] of the pagination object when that is one, 25 when
    it is [undefined] or [null]. *)
Definition initialState (collection : CollectionDefinition) : CollectionState :=
  let paginationConfig := get "pagination" (affordances collection) in
  let defaultPageSize :=
    if truthy paginationConfig && String.eqb (typeof paginationConfig) "object"
    then number_or 25 (get "defaultPageSize" (own_props paginationConfig))
    else 25%Z in
  let defaultSort := get "defaultSort" (affordances collection) in
  {| items := [];
     totalCount := 0;
     loading := false;
     error := None;
     sorting :=
       if truthy defaultSort
       then [mkSorting (get "field" (own_props defaultSort))
                       (is_str "desc" (get "direction" (own_props defaultSort)))]
       else [];
     columnFilters := [];
     globalFilter := "";
     pagination := mkPagination 0 defaultPageSize;
     rowSelection := [];
     columnVisibility := buildInitialVisibility collection;
     columnOrder := buildInitialOrder collection;
     grouping := [] |}.

(** [{ ...state, k: v }] for each property of the state. *)
Definition with_items (s : CollectionState) (v : list T) (n : Z) : CollectionState :=
  mkState v n (loading s) (error s) (sorting s) (columnFilters s) (globalFilter s)
          (pagination s) (rowSelection s) (columnVisibility s) (columnOrder s) (grouping s).

Definition with_loading (s : CollectionState) (v : bool) : CollectionState :=
  mkState (items s) (totalCount s) v (error s) (sorting s) (columnFilters s)
          (globalFilter s) (pagination s) (rowSelection s) (columnVisibility s)
          (columnOrder s) (grouping s).

Definition with_error (s : CollectionState) (v : option string) : CollectionState :=
  mkState (items s) (totalCount s) (loading s) v (sorting s) (columnFilters s)
          (globalFilter s) (pagination s) (rowSelection s) (columnVisibility s)
          (columnOrder s) (grouping s).

Definition with_sorting (s : CollectionState) (v : list SortingState) : CollectionState :=
  mkState (items s) (totalCount s) (loading s) (error s) v (columnFilters s)
          (globalFilter s) (pagination s) (rowSelection s) (columnVisibility s)
          (columnOrder s) (grouping s).

Definition with_columnFilters (s : CollectionState) (v : list ColumnFilter)
  : CollectionState :=
  mkState (items s) (totalCount s) (loading s) (error s) (sorting s) v
          (globalFilter s) (pagination s) (rowSelection s) (columnVisibility s)
          (columnOrder s) (grouping s).

Definition with_globalFilter (s : CollectionState) (v : string) : CollectionState :=
  mkState (items s) (totalCount s) (loading s) (error s) (sorting s) (columnFilters s)
          v (pagination s) (rowSelection s) (columnVisibility s)
          (columnOrder s) (grouping s).

Definition with_pagination (s : CollectionState) (v : PaginationState) : CollectionState :=
  mkState (items s) (totalCount s) (loading s) (error s) (sorting s) (columnFilters s)
          (globalFilter s) v (rowSelection s) (columnVisibility s)
          (columnOrder s) (grouping s).

Definition with_rowSelection (s : CollectionState) (v : JsObject bool) : CollectionState :=
  mkState (items s) (totalCount s) (loading s) (error s) (sorting s) (columnFilters s)
          (globalFilter s) (pagination s) v (columnVisibility s)
          (columnOrder s) (grouping s).

Definition with_columnVisibility (s : CollectionState) (v : JsObject bool)
  : CollectionState :=
  mkState (items s) (totalCount s) (loading s) (error s) (sorting s) (columnFilters s)
          (globalFilter s) (pagination s) (rowSelection s) v
          (columnOrder s) (grouping s).

Definition with_columnOrder (s : CollectionState) (v : list string) : CollectionState :=
  mkState (items s) (totalCount s) (loading s) (error s) (sorting s) (columnFilters s)
          (globalFilter s) (pagination s) (rowSelection s) (columnVisibility s)
          v (grouping s).

Definition with_grouping (s : CollectionState) (v : list string) : CollectionState :=
  mkState (items s) (totalCount s) (loading s) (error s) (sorting s) (columnFilters s)
          (globalFilter s) (pagination s) (rowSelection s) (columnVisibility s)
          (columnOrder s) v.

(** The pure action functions, [(state, args) => newState]. *)

Definition setItems (state : CollectionState) (its : list T) (total : option Z)
  : CollectionState :=
  with_items state its
    (match total with Some n => n | None => Z.of_nat (List.length its) end).

Definition setSorting (state : CollectionState) (s : list SortingState) : CollectionState :=
  with_sorting state s.

Definition setColumnFilters (state : CollectionState) (filters : list ColumnFilter)
  : CollectionState :=
  with_pagination (with_columnFilters state filters)
                  (mkPagination 0 (pageSize (pagination state))).

Definition setGlobalFilter (state : CollectionState) (filter : string) : CollectionState :=
  with_pagination (with_globalFilter state filter)
                  (mkPagination 0 (pageSize (pagination state))).

Definition setPagination (state : CollectionState) (p : PaginationState)
  : CollectionState :=
  with_pagination state p.

Definition setRowSelection (state : CollectionState) (selection : JsObject bool)
  : CollectionState :=
  with_rowSelection state selection.

Definition setColumnVisibility (state : CollectionState) (visibility : JsObject bool)
  : CollectionState :=
  with_columnVisibility state visibility.

Definition setColumnOrder (state : CollectionState) (order : list string)
  : CollectionState :=
  with_columnOrder state order.

Definition setGrouping (state : CollectionState) (g : list string) : CollectionState :=
  with_grouping state g.

Definition setLoading (state : CollectionState) (l : bool) : CollectionState :=
  with_loading state l.

Definition setError (state : CollectionState) (e : option string) : CollectionState :=
  with_error state e.

Definition clearSelection (state : CollectionState) : CollectionState :=
  with_rowSelection state [].

Definition selectAll (state : CollectionState) : CollectionState :=
  with_rowSelection state
    (fold_left (fun selection i => assign (index_string i) true selection)
               (seq 0 (List.length (items state))) []).

Definition reset (initial state : CollectionState) : CollectionState :=
  mkState (items state) (totalCount state) (loading state) (error state)
          (sorting initial) [] ""
          (mkPagination 0 (pageSize (pagination state)))
          [] (columnVisibility state) (columnOrder state) [].

(** The setter actions of the store, with their arguments. *)
Inductive Setter : Type :=
| SetItems (its : list T) (total : option Z)
| SetSorting (s : list SortingState)
| SetColumnFilters (filters : list ColumnFilter)
| SetGlobalFilter (filter : string)
| SetPagination (p : PaginationState)
| SetRowSelection (selection : JsObject bool)
| SetColumnVisibility (visibility : JsObject bool)
| SetColumnOrder (order : list string)
| SetGrouping (g : list string)
| SetLoading (l : bool)
| SetError (e : option string).

Definition run_setter (a : Setter) (state : CollectionState) : CollectionState :=
  match a with
  | SetItems its total => setItems state its total
  | SetSorting s => setSorting state s
  | SetColumnFilters filters => setColumnFilters state filters
  | SetGlobalFilter filter => setGlobalFilter state filter
  | SetPagination p => setPagination state p
  | SetRowSelection selection => setRowSelection state selection
  | SetColumnVisibility visibility => setColumnVisibility state visibility
  | SetColumnOrder order => setColumnOrder state order
  | SetGrouping g => setGrouping state g
  | SetLoading l => setLoading state l
  | SetError e => setError state e
  end.

(** The setters that reset the page: the two filter setters. *)
Definition is_filter_setter (a : Setter) : bool :=
  match a with
  | SetColumnFilters _ | SetGlobalFilter _ => true
  | _ => false
  end.

Definition is_pagination_setter (a : Setter) : bool :=
  match a with
  | SetPagination _ => true
  | _ => false
  end.

End Store.

Arguments SetItems {T} its total.
Arguments SetSorting {T} s.
Arguments SetColumnFilters {T} filters.
Arguments SetGlobalFilter {T} filter.
Arguments SetPagination {T} p.
Arguments SetRowSelection {T} selection.
Arguments SetColumnVisibility {T} visibility.
Arguments SetColumnOrder {T} order.
Arguments SetGrouping {T} g.
Arguments SetLoading {T} l.
Arguments SetError {T} e.

(* ====================================================================== *)
(** ** codegen.ts: the generated config object *)
(* ====================================================================== *)

(** Properties to serialize for each field, in display order. *)
Definition FIELD_PROP_ORDER : list string :=
  [ "title"; "description";
    "sortable"; "filterable"; "searchable"; "groupable"; "aggregatable";
    "readable"; "editable"; "inlineEditable";
    "requiredOnCreate"; "requiredOnUpdate"; "immutableAfterCreate";
    "visible"; "hidden"; "detailOnly"; "summaryField";
    "columnWidth"; "minWidth"; "maxWidth"; "resizable"; "pinned"; "order";
    "displayFormat"; "badge"; "copyable"; "truncate"; "tooltip";
    "editWidget"; "editPlaceholder"; "editHelp" ].

(** Properties that are computed (not part of [CollectionConfig.fields]). *)
Definition COMPUTED_PROPS : list string := ["zodType"; "zodDef"].

Definition is_undefined (v : Value) : bool :=
  match v with VUndef => true | _ => false end.

(** [Number.isNaN(v)] *)
Definition is_nan (v : Value) : bool :=
  match v with VNaN => true | _ => false end.

(** Filter undefined values from a shallow object copy. *)
Definition filterUndefined (obj : Obj) : Obj :=
  fold_left (fun result kv => if is_undefined (snd kv) then result
                              else assign (fst kv) (snd kv) result)
            obj [].

Definition buildOperationObject (op : Obj) : Obj :=
  let result : Obj := [] in
  let result := assign "name" (get "name" op) result in
  let result := assign "label" (get "label" op) result in
  let result := assign "scope" (get "scope" op) result in
  fold_left
    (fun result k => if is_undefined (get k op) then result else assign k (get k op) result)
    ["icon"; "variant"; "confirm"; "keyboardShortcut"] result.

Section Codegen.

(** [JSON.stringify], a builtin of the host; the development makes no
    assumption about it. *)
Variable JSON_stringify : Value -> string.

(** Deep-ish value equality for affordance property comparison.
    Primitives compare by [===], under which NaN equals nothing, itself
    included; two objects (or arrays) compare by their JSON rendering,
    which also decides the case where both are the same reference. *)
Definition valueEqual (a b : Value) : bool :=
  match a, b with
  | VUndef, VUndef => true
  | VNull, VNull => true
  | VBool x, VBool y => Bool.eqb x y
  | VNum x, VNum y => Z.eqb x y
  | VStr x, VStr y => String.eqb x y
  | (VArr _ | VObj _), (VArr _ | VObj _) =>
      String.eqb (JSON_stringify a) (JSON_stringify b)
  | _, _ => false
  end.

(** The diff of one field against fresh inference: the loop over
    [FIELD_PROP_ORDER] in diff mode. *)
Definition diff_props (key : string) (fa inferred : Obj) : Obj :=
  let inferredTitle := nullish_or (get "title" inferred) (VStr (humanizeFieldName key)) in
  fold_left
    (fun props prop =>
       let resolved := get prop fa in
       if is_undefined resolved then props
       else
         let baseline :=
           if String.eqb prop "title" then inferredTitle else get prop inferred in
         if valueEqual resolved baseline then props else assign prop resolved props)
    FIELD_PROP_ORDER [].

(** Full mode: every defined property in canonical order, then the
    extra ones. *)
Definition full_props (fa : Obj) : Obj :=
  let props :=
    fold_left
      (fun props prop =>
         if is_undefined (get prop fa) then props else assign prop (get prop fa) props)
      FIELD_PROP_ORDER [] in
  fold_left
    (fun props kv =>
       if negb (is_undefined (snd kv))
          && negb (one_of COMPUTED_PROPS (fst kv))
          && negb (one_of FIELD_PROP_ORDER (fst kv))
       then assign (fst kv) (snd kv) props else props)
    fa props.

(** The body of the loop of [buildFieldsObject]; [None] for the props
    is the [continue] of a field without a schema node or with a nullish
    one. *)
Definition fields_step (collection : CollectionDefinition) (diffOnly : bool)
    (result : JsObject Obj) (entry : string * Obj) : Result (JsObject Obj) :=
  let (key, fa) := entry in
  props <-
    (if diffOnly then
       match lookup key (schema_shape collection) with
       | None | Some NullishNode => Ok None
       | Some fieldSchema =>
           inferred <- inferFieldAffordances key fieldSchema ;;
           Ok (Some (diff_props key fa inferred))
       end
     else Ok (Some (full_props fa))) ;;
  match props with
  | None => Ok result
  | Some [] => Ok result
  | Some props => Ok (assign key props result)
  end.

Definition buildFieldsObject (collection : CollectionDefinition) (diffOnly : bool)
  : Result (JsObject Obj) :=
  for_each (fields_step collection diffOnly) (fieldAffordances collection) [].

Definition buildConfigObject (collection : CollectionDefinition) (diffOnly : bool)
  : Result Obj :=
  let config : Obj := [] in
  let config := assign "idField" (VStr (idField collection)) config in
  let config := assign "labelField" (VStr (labelField collection)) config in
  let affs := filterUndefined (affordances collection) in
  let config :=
    match affs with
    | [] => config
    | _ => assign "affordances" (VObj affs) config
    end in
  fields <- buildFieldsObject collection diffOnly ;;
  let config :=
    match fields with
    | [] => config
    | _ => assign "fields" (VObj (map (fun e => (fst e, VObj (snd e))) fields)) config
    end in
  let config :=
    match operations collection with
    | [] => config
    | ops => assign "operations" (VArr (map (fun op => VObj (buildOperationObject op)) ops))
                    config
    end in
  Ok config.

End Codegen.

(* ====================================================================== *)
(** ** Notions the properties are stated with *)
(* ====================================================================== *)

(** A terminal node: one the unwrapping does not enter. *)
Definition is_terminal (schema : ZodSchema) : bool :=
  match schema with
  | NullishNode => false
  | mkSchema None _ _ _ => true
  | mkSchema (Some def) _ _ _ => negb (is_wrapper_type (type def))
  end.

(** The node is an object and every wrapper on the way down wraps an
    object, as the schema library builds them. *)
Fixpoint well_formed (schema : ZodSchema) : bool :=
  match schema with
  | NullishNode => false
  | mkSchema None _ _ _ => true
  | mkSchema (Some def) _ _ _ =>
      if is_wrapper_type (type def) then
        match innerType def with
        | Some inner => well_formed inner
        | None => false
        end
      else true
  end.

(** [t] is the end of the wrapper chain of [s]: the terminal node reached
    from [s] by going from a wrapper to the node it wraps, and in no
    other way. *)
Inductive chain_end : ZodSchema -> ZodSchema -> Prop :=
| chain_here (s : ZodSchema) :
    is_terminal s = true -> chain_end s s
| chain_step (s inner t : ZodSchema) (def : ZodDef) :
    zod_def s = Some def -> is_wrapper_type (type def) = true ->
    innerType def = Some inner -> chain_end inner t -> chain_end s t.

(** A wrapper that wraps nothing. *)
Definition empty_wrapper (t : string) : ZodSchema :=
  mkSchema (Some (mkDef (Some t) None None None None None false)) None None None.

(** The checks array of a node, empty when there is none. *)
Definition checks_of (schema : ZodSchema) : list ZodCheck :=
  match zod_def schema with
  | Some def => match checks def with Some cs => cs | None => [] end
  | None => []
  end.

Definition is_kind (k : string) (c : ZodCheck) : bool := String.eqb (kind c) k.



(** The type tag recorded for an unrecognised node. *)
Definition recorded_tag (schema : ZodSchema) : string :=
  match zod_def schema with
  | Some def => match type def with Some t => t | None => "unknown" end
  | None => "unknown"
  end.

(** Nodes as the schema library builds them, for the examples. *)
Definition plain_node (t : string) : ZodSchema :=
  mkSchema (Some (mkDef (Some t) None None None None None false)) None None None.

Definition wrapper_node (t : string) (inner : ZodSchema) : ZodSchema :=
  mkSchema (Some (mkDef (Some t) (Some inner) None None None None false)) None None None.

Definition enum_node (members : list string) : ZodSchema :=
  mkSchema (Some (mkDef (Some "enum") None None None
                        (Some (map (fun m => (m, m)) members)) None false))
           None None None.

Definition checked_number_node (mn mx : option Z) (cs : list ZodCheck) : ZodSchema :=
  mkSchema (Some (mkDef (Some "number") None (Some cs) None None None false)) mn mx None.

Definition STATUS_MEMBERS : list string := ["draft"; "active"; "archived"].


(** The test [buildInitialVisibility] applies to a field. *)
Definition hidden_or_not_visible (fa : Obj) : bool :=
  is_false (get "visible" fa) || truthy (get "hidden" fa).

(** A case-folded name the identifier test can accept: one of the exact
    identifier names, or a name ending in a (case-folded) identifier
    suffix. *)
Definition identifier_shaped (w : string) : bool :=
  existsb (fun x => String.eqb w (lower x)) (words ID_PATTERNS)
  || existsb (fun suf => ends_with (lower suf) w) (words ID_SUFFIX_PATTERNS).

(** No word of the pattern is identifier-shaped. *)
Definition never_identifier (p : Pattern) : bool :=
  forallb (fun w => negb (identifier_shaped (lower w))) (words p).

(** What [normalize_shorthand] leaves under the property it normalizes. *)
Definition normalized (default : Obj) (v : Value) : Value :=
  match v with
  | VBool true => VObj default
  | VObj p => VObj (spread default p)
  | VArr l => VObj (spread default (own_props (VArr l)))
  | _ => v
  end.

(** The record [resolveAllFieldAffordances] stores for a field, given the
    inferred record and the base type. *)
Definition resolved_record (explicit : option (JsObject Obj)) (key : string)
    (inferred : Obj) (zodType : string) : Obj :=
  let merged := spread inferred (explicit_overrides explicit key) in
  assign "zodType" (VStr zodType)
    (assign "title" (nullish_or (get "title" merged) (VStr (humanizeFieldName key))) merged).

(** The resolved entry [r] is the one computed for the shape entry [e]. *)
Definition resolves_to (explicit : option (JsObject Obj))
    (e : string * ZodSchema) (r : string * Obj) : Prop :=
  fst r = fst e /\
  exists inferred zodType,
    inferFieldAffordances (fst e) (snd e) = Ok inferred /\
    getZodBaseType (snd e) = Ok zodType /\
    snd r = resolved_record explicit (fst e) inferred zodType.

(** The filter type of a field: [typeof filterable === 'string' ?
    filterable : 'search']. *)
Definition filter_type_of (affordance : Obj) : string :=
  match get "filterable" affordance with
  | VStr s => s
  | _ => "search"
  end.

(** The options of a filter entry, from the enum members of the node. *)
Definition filter_options_of (filterType : string) (enumValues : option (list string))
  : option (list SelectOption) :=
  match enumValues with
  | Some vs =>
      if String.eqb filterType "select" || String.eqb filterType "multiSelect"
      then Some (map (fun v => mkOption (capitalize_first v) v) vs)
      else None
  | None => None
  end.

(** The record resolved for the [status] enum field without overrides. *)
Definition STATUS_RESOLVED : Obj :=
  [ ("sortable", VStr "both"); ("filterable", VStr "select");
    ("searchable", VBool false); ("groupable", VBool true);
    ("editable", VBool true); ("visible", VBool true);
    ("title", VStr "Status"); ("zodType", VStr "enum") ].

(** Own keys are pairwise distinct, as in every JavaScript object. *)
Definition distinct_keys {A : Type} (o : JsObject A) : Prop := NoDup (keys o).

(** No word of [p] is, case folded, a word of [q]. *)
Definition words_disjoint (p q : Pattern) : bool :=
  forallb (fun w => negb (existsb (fun v => String.eqb (lower w) (lower v)) (words q)))
          (words p).

(** The string holds neither [_] nor [-]. *)
Fixpoint no_separator (s : string) : bool :=
  match s with
  | EmptyString => true
  | String c rest =>
      negb (Ascii.eqb c "_"%char || Ascii.eqb c "-"%char) && no_separator rest
  end.

(** The value of [k] is the one of [d], or else [v]. *)
Definition kept_or (k : string) (v : Value) (d r : Obj) : Prop :=
  get k r = get k d \/ get k r = v.

(** The properties the validation layer may write. *)
Definition VALIDATION_WRITES : list string :=
  ["editWidget"; "filterable"; "searchable"; "editable"].

(** The node without its metadata. *)
Definition without_meta (schema : ZodSchema) : ZodSchema :=
  match schema with
  | NullishNode => NullishNode
  | mkSchema d mn mx _ => mkSchema d mn mx None
  end.

(** [meta.affordances && typeof meta.affordances === 'object'] *)
Definition has_nested_affordances (m : Obj) : bool :=
  truthy (get "affordances" m) && String.eqb (typeof (get "affordances" m)) "object".

(** The per-field overrides of a config. *)
Definition config_fields (config : option CollectionConfig) : option (JsObject Obj) :=
  match config with Some cf => cfg_fields cf | None => None end.

(* ====================================================================== *)
(** ** store.ts: the derived selectors *)
(* ====================================================================== *)

(** An index argument of [Array.prototype.slice], made relative to an
    array of length [len]. *)
Definition relative_index (len i : Z) : Z :=
  if Z.ltb i 0 then Z.max (len + i) 0 else Z.min i len.

(** [l.slice(start, stop)] *)
Definition js_slice {A : Type} (l : list A) (start stop : Z) : list A :=
  let len := Z.of_nat (List.length l) in
  let k := relative_index len start in
  let final := relative_index len stop in
  firstn (Z.to_nat (final - k)) (skipn (Z.to_nat k) l).

(** [Math.ceil(a / b)] on integers, for a divisor other than zero. *)
Definition ceil_div (a b : Z) : Z := (- ((- a) / b))%Z.

Section Selectors.

Variable T : Type.

Definition getSelectedCount (state : CollectionState T) : nat :=
  List.length (filter (fun selected : bool => selected) (object_values (rowSelection state))).

Definition getPageCount (state : CollectionState T) : Z :=
  if Z.eqb (pageSize (pagination state)) 0 then 0%Z
  else ceil_div (totalCount state) (pageSize (pagination state)).

Definition isAllSelected (state : CollectionState T) : bool :=
  if Nat.eqb (List.length (items state)) 0 then false
  else Nat.eqb (getSelectedCount state) (List.length (items state)).

Definition hasSelection (state : CollectionState T) : bool :=
  existsb (fun selected : bool => selected) (object_values (rowSelection state)).

Definition getVisibleItems (state : CollectionState T) : list T :=
  let pageIndex := pageIndex (pagination state) in
  let pageSize := pageSize (pagination state) in
  js_slice (items state) (pageIndex * pageSize) ((pageIndex + 1) * pageSize).

End Selectors.

(** The test [getVisibleFields] applies to a field. *)
Definition shown_in_list (fa : Obj) : bool :=
  negb (is_false (get "visible" fa))
  && negb (truthy (get "hidden" fa))
  && negb (truthy (get "detailOnly" fa)).

(** The entries are in non-decreasing order of [key]. *)
Definition ordered_by {A : Type} (key : A -> Z) (l : list A) : Prop :=
  StronglySorted (fun a b => (key a <= key b)%Z) l.

(** The [order] of a field is what its type [order?: number] says: a
    number, or nothing ([undefined] or [null]). *)
Definition order_is_number (fa : Obj) : bool :=
  match get "order" fa with
  | VUndef | VNull | VNum _ => true
  | _ => false
  end.

(** Every field of the collection has a number, or nothing, as [order];
    on such fields the comparator [(a.order ?? 999) - (b.order ?? 999)]
    subtracts the numbers [order_of] reads. *)
Definition numeric_orders (fas : JsObject Obj) : bool :=
  forallb (fun e => order_is_number (snd e)) fas.

(* ====================================================================== *)
(** ** generators.ts: columns and forms *)
(* ====================================================================== *)

(** [switch (x)] on a value: the case labels are strings. *)
Definition value_one_of (tags : list string) (v : Value) : bool :=
  match v with VStr t => one_of tags t | _ => false end.

(** Map a type tag to the sort function name. *)
Definition inferSortFnName (zodType : Value) : string :=
  if value_one_of ["string"] zodType then "text"
  else if value_one_of ["number"; "int"; "float"; "bigint"] zodType then "basic"
  else if value_one_of ["date"] zodType then "datetime"
  else if value_one_of ["boolean"] zodType then "basic"
  else if value_one_of ["enum"] zodType then "text"
  else "basic".

(** Map a filter type to the filter function name. *)
Definition inferFilterFnName (filterType : Value) : string :=
  if String.eqb (typeof filterType) "boolean" then "includesString"
  else if value_one_of ["exact"] filterType then "equalsString"
  else if value_one_of ["search"] filterType then "includesString"
  else if value_one_of ["select"] filterType then "arrIncludes"
  else if value_one_of ["multiSelect"] filterType then "arrIncludesSome"
  else if value_one_of ["range"] filterType then "inNumberRange"
  else if value_one_of ["contains"] filterType then "arrIncludesAll"
  else if value_one_of ["boolean"] filterType then "equals"
  else if value_one_of ["fuzzy"] filterType then "includesString"
  else "includesString".

Record ColumnMeta : Type := mkColumnMeta {
  meta_zodType : Value;
  meta_filterType : Value;
  meta_editable : Value;
  meta_inlineEditable : Value;
  meta_displayFormat : Value;
  meta_badge : Value;
  meta_copyable : Value;
  meta_truncate : Value;
  meta_tooltip : Value;
  meta_enumValues : option (list string);
  meta_numericBounds : option Bounds;
  meta_pinned : Value
}.

Record ColumnConfig : Type := mkColumn {
  column_id : string;
  header : Value;
  accessorKey : option string;
  enableSorting : bool;
  enableColumnFilter : bool;
  enableGlobalFilter : Value;
  enableGrouping : Value;
  enableHiding : bool;
  enableResizing : Value;
  size : Value;
  minSize : Value;
  maxSize : Value;
  sortingFn : option string;
  sortDescFirst : option bool;
  filterFn : option string;
  column_meta : ColumnMeta
}.

(** The selection column and the actions column: display columns with
    every feature off. *)
Definition display_column (id : string) (width : Z) : ColumnConfig :=
  mkColumn id (VStr "") None false false (VBool false) (VBool false) false (VBool false)
           (VNum width) VUndef VUndef None None None
           (mkColumnMeta (VStr "display") (VBool false) (VBool false) (VBool false)
                         VUndef VUndef VUndef VUndef VUndef None None VUndef).

(** The column pushed for a visible field with record [fa] and node
    [fieldSchema]. *)
Definition data_column (key : string) (fa : Obj) (fieldSchema : ZodSchema)
  : Result ColumnConfig :=
  let zodType := get "zodType" fa in
  enumValues <- getEnumValues fieldSchema ;;
  numericBounds <- getNumericBounds fieldSchema ;;
  Ok (mkColumn key (get "title" fa) (Some key)
        (negb (is_false (get "sortable" fa)) && negb (is_str "none" (get "sortable" fa)))
        (negb (is_false (get "filterable" fa)))
        (nullish_or (get "searchable" fa) (VBool false))
        (nullish_or (get "groupable" fa) (VBool false))
        (negb (truthy (get "hidden" fa)))
        (nullish_or (get "resizable" fa) (VBool true))
        (get "columnWidth" fa) (get "minWidth" fa) (get "maxWidth" fa)
        (Some (inferSortFnName zodType))
        (Some (is_str "desc" (get "sortable" fa)))
        (if truthy (get "filterable" fa)
         then Some (inferFilterFnName (get "filterable" fa)) else None)
        (mkColumnMeta zodType
           (nullish_or (get "filterable" fa) (VBool false))
           (nullish_or (get "editable" fa) (VBool false))
           (nullish_or (get "inlineEditable" fa) (VBool false))
           (get "displayFormat" fa) (get "badge" fa) (get "copyable" fa)
           (get "truncate" fa) (get "tooltip" fa)
           enumValues (Some numericBounds) (get "pinned" fa))).

(** The body of the loop of [toColumnDefs] over the visible fields: a
    field without a schema node, or with a nullish one, is skipped;
    reading the record of a field that has none raises. *)
Definition column_step (c : CollectionDefinition) (columns : list ColumnConfig)
    (key : string) : Result (list ColumnConfig) :=
  match lookup key (schema_shape c) with
  | None | Some NullishNode => Ok columns
  | Some fieldSchema =>
      match lookup key (fieldAffordances c) with
      | None => Throw
      | Some fa =>
          column <- data_column key fa fieldSchema ;;
          Ok (columns ++ [column])
      end
  end.

(** [collection.getOperations(scope)] *)
Definition getOperations (c : CollectionDefinition) (scope : string) : list Obj :=
  filter (fun op => is_str scope (get "scope" op)) (operations c).

(** Generate column definitions from a collection. *)
Definition toColumnDefs (c : CollectionDefinition) : Result (list ColumnConfig) :=
  let columns :=
    if truthy (get "selectable" (affordances c)) then [display_column "select" 40] else [] in
  columns <- for_each (column_step c) (getVisibleFields c) columns ;;
  let itemOps := getOperations c "item" in
  match itemOps with
  | [] => Ok columns
  | _ => Ok (columns ++
             [display_column "actions" (60 + (Z.of_nat (List.length itemOps) - 1) * 32)])
  end.

Inductive FormMode : Type := CreateMode | EditMode.

Record FormFieldConfig : Type := mkFormField {
  form_name : string;
  form_label : Value;
  form_type : Value;
  required : Value;
  disabled : bool;
  form_hidden : Value;
  placeholder : Value;
  helpText : Value;
  form_options : option (list SelectOption);
  form_order : Z;
  form_zodType : Value
}.

(** Infer the form widget type from the type tag and the affordances. *)
Definition inferFormWidgetType (zodType : Value) (fa : Obj) : Value :=
  if truthy (get "editWidget" fa) then get "editWidget" fa
  else if value_one_of ["string"] zodType then VStr "text"
  else if value_one_of ["number"; "int"; "float"] zodType then VStr "number"
  else if value_one_of ["boolean"] zodType then VStr "checkbox"
  else if value_one_of ["enum"] zodType then VStr "select"
  else if value_one_of ["date"] zodType then VStr "date"
  else if value_one_of ["array"] zodType then VStr "tags"
  else if value_one_of ["object"] zodType then VStr "json"
  else VStr "text".

(** The conditions under which the loop of [toFormConfig] skips a field. *)
Definition form_skips (mode : FormMode) (fa : Obj) : bool :=
  match mode with
  | EditMode =>
      is_false (get "readable" fa)
      || is_false (get "editable" fa)
      || truthy (get "hidden" fa)
      || truthy (get "immutableAfterCreate" fa)
  | CreateMode =>
      (is_false (get "editable" fa) && negb (truthy (get "requiredOnCreate" fa)))
      || truthy (get "hidden" fa)
  end.

(** The body of the loop of [toFormConfig]; the state is the list of
    fields and the order counter.  The [order] of a form field is a
    number, as [FormFieldConfig] types it: the [order] of the field when
    that is one, the counter when it is [undefined] or [null]
    ([order_is_number]).  The option labels are made from string
    members; on a member that is not a string, which the model's enums
    do not hold, [v.charAt] raises. *)
Definition form_step (c : CollectionDefinition) (mode : FormMode)
    (acc : list FormFieldConfig * Z) (entry : string * ZodSchema)
  : Result (list FormFieldConfig * Z) :=
  let (fields, orderCounter) := acc in
  let (key, fieldSchema) := entry in
  match lookup key (fieldAffordances c) with
  | None => Throw
  | Some fa =>
      if form_skips mode fa then Ok (fields, orderCounter)
      else
        let zodType := get "zodType" fa in
        let isRequired :=
          match mode with
          | CreateMode => nullish_or (get "requiredOnCreate" fa) (VBool false)
          | EditMode => nullish_or (get "requiredOnUpdate" fa) (VBool false)
          end in
        enumValues <- getEnumValues fieldSchema ;;
        let options :=
          match enumValues with
          | Some vs => Some (map (fun v => mkOption (capitalize_first v) v) vs)
          | None => None
          end in
        let order := if nullish (get "order" fa) then orderCounter
                     else number_or 0 (get "order" fa) in
        let orderCounter := if nullish (get "order" fa) then (orderCounter + 1)%Z
                            else orderCounter in
        Ok (fields ++
            [mkFormField key (get "title" fa) (inferFormWidgetType zodType fa)
                         isRequired (is_false (get "editable" fa))
                         (nullish_or (get "hidden" fa) (VBool false))
                         (get "editPlaceholder" fa)
                         (nullish_or (get "editHelp" fa) (get "description" fa))
                         options order zodType],
            orderCounter)
  end.

(** Generate form field configurations for create or edit forms. *)
Definition toFormConfig (c : CollectionDefinition) (mode : FormMode)
  : Result (list FormFieldConfig) :=
  acc <- for_each (form_step c mode) (schema_shape c) ([], 0%Z) ;;
  Ok (sort_by form_order (fst acc)).

(** A field the form of the given mode includes: it has a resolved
    record and the loop does not skip it. *)
Definition in_form (c : CollectionDefinition) (mode : FormMode) (key : string) : bool :=
  match lookup key (fieldAffordances c) with
  | Some fa => negb (form_skips mode fa)
  | None => false
  end.

(** The form field [f] was made from the resolved record of its field,
    which the mode does not skip. *)
Definition form_field_of (c : CollectionDefinition) (mode : FormMode)
    (f : FormFieldConfig) : Prop :=
  exists fa,
    lookup (form_name f) (fieldAffordances c) = Some fa /\
    form_skips mode fa = false /\
    disabled f = is_false (get "editable" fa) /\
    form_label f = get "title" fa.

(** The column [col] shows the visible field [key]. *)
Definition column_of (c : CollectionDefinition) (key : string) (col : ColumnConfig) : Prop :=
  column_id col = key /\
  accessorKey col = Some key /\
  exists fa,
    lookup key (fieldAffordances c) = Some fa /\
    header col = get "title" fa /\
    enableHiding col = negb (truthy (get "hidden" fa)) /\
    enableColumnFilter col = negb (is_false (get "filterable" fa)).

(** The filter entry [f] was made from the filterable field [e]. *)
Definition filter_entry_of (e : string * Obj) (f : FilterFieldConfig) : Prop :=
  filter_name f = fst e /\
  filterType f = filter_type_of (snd e) /\
  is_false (get "filterable" (snd e)) = false.

(** A primitive value: not an array and not an object. *)
Definition is_primitive (v : Value) : bool :=
  match v with VArr _ | VObj _ => false | _ => true end.

(** The baseline diff mode compares the property [p] of a field against. *)
Definition diff_baseline (key : string) (inferred : Obj) (p : string) : Value :=
  if String.eqb p "title"
  then nullish_or (get "title" inferred) (VStr (humanizeFieldName key))
  else get p inferred.

(** The config that feeds generated per-field overrides back in. *)
Definition config_with_fields (fields : JsObject Obj) : option CollectionConfig :=
  Some (mkConfig None (Some fields) None None None).

(** The object diff mode computes for the field [key] of a collection
    whose resolved record is [fa]; empty where the source skips the
    field. *)
Definition field_diff (JSON_stringify : Value -> string) (c : CollectionDefinition)
    (key : string) (fa : Obj) : Obj :=
  match lookup key (schema_shape c) with
  | Some fieldSchema =>
      match inferFieldAffordances key fieldSchema with
      | Ok inferred => diff_props JSON_stringify key fa inferred
      | Throw => []
      end
  | None => []
  end.

(* ====================================================================== *)
(** ** data-provider.ts: the in-memory provider *)
(* ====================================================================== *)

(** [l.findIndex(f)]; [None] is the source's [-1]. *)
Fixpoint findIndex {A : Type} (f : A -> bool) (l : list A) : option nat :=
  match l with
  | [] => None
  | x :: rest => if f x then Some 0 else option_map S (findIndex f rest)
  end.

(** [l[i] = x] for an index inside the array. *)
Fixpoint replace_at {A : Type} (i : nat) (x : A) (l : list A) : list A :=
  match l, i with
  | [], _ => []
  | _ :: rest, 0 => x :: rest
  | y :: rest, S j => y :: replace_at j x rest
  end.

(** [l.splice(i, 1)] *)
Fixpoint splice_one {A : Type} (i : nat) (l : list A) : list A :=
  match l, i with
  | [], _ => []
  | _ :: rest, 0 => rest
  | y :: rest, S j => y :: splice_one j rest
  end.

(** The provider methods are asynchronous; each one awaits the simulated
    delay first and then runs to completion, so a sequence of awaited
    calls is modelled by passing the provider state from one call to the
    next. A rejected promise is [Throw]. *)
Module InMemoryProvider.

(** The closure of [createInMemoryProvider]: the identifier field and the
    mutable store. *)
Record Provider : Type := mkProvider {
  idField : string;
  items : list Obj;
  nextId : Z
}.

Definition with_items (p : Provider) (l : list Obj) : Provider :=
  mkProvider (idField p) l (nextId p).

Section Host.

(** [String(v)] for a value that is not a string, a builtin of the host;
    the development makes no assumption about it. *)
Variable host_String : Value -> string.

(** [String(v)]: a string converts to itself. *)
Definition String_of (v : Value) : string :=
  match v with VStr s => s | _ => host_String v end.

Definition createInMemoryProvider (initialData : list Obj) (opt_idField : option string)
  : Provider :=
  mkProvider (match opt_idField with Some f => f | None => "id" end)
             initialData
             (Z.of_nat (List.length initialData) + 1).

Definition getItemId (p : Provider) (item : Obj) : string :=
  String_of (get (idField p) item).

(** The test [getItemId(i) === id] of the lookups. *)
Definition has_id (p : Provider) (id : string) (item : Obj) : bool :=
  String.eqb (getItemId p item) id.

Definition getOne (p : Provider) (id : string) : Result Obj :=
  match find (has_id p id) (items p) with
  | Some item => Ok (spread [] item)
  | None => Throw
  end.

Definition create (p : Provider) (data : Obj) : Provider * Obj :=
  let given := get (idField p) data in
  let idValue := if nullish given then VStr (String_of (VNum (nextId p))) else given in
  let next := if nullish given then (nextId p + 1)%Z else nextId p in
  let newItem := assign (idField p) idValue (spread [] data) in
  (mkProvider (idField p) (items p ++ [newItem]) next, spread [] newItem).

Definition update (p : Provider) (id : string) (data : Obj) : Result (Provider * Obj) :=
  match findIndex (has_id p id) (items p) with
  | None => Throw
  | Some index =>
      let item := spread (spread [] (nth index (items p) [])) data in
      Ok (with_items p (replace_at index item (items p)), spread [] item)
  end.

(** The body of the loop of [updateMany]. *)
Definition updateMany_step (data : Obj) (st : Provider * list Obj) (id : string)
  : Provider * list Obj :=
  let (p, updated) := st in
  match findIndex (has_id p id) (items p) with
  | None => (p, updated)
  | Some index =>
      let item := spread (spread [] (nth index (items p) [])) data in
      (with_items p (replace_at index item (items p)), updated ++ [spread [] item])
  end.

Definition updateMany (p : Provider) (ids : list string) (data : Obj)
  : Provider * list Obj :=
  fold_left (updateMany_step data) ids (p, []).

Definition delete (p : Provider) (id : string) : Result Provider :=
  match findIndex (has_id p id) (items p) with
  | None => Throw
  | Some index => Ok (with_items p (splice_one index (items p)))
  end.

Definition deleteMany (p : Provider) (ids : list string) : Provider :=
  with_items p (filter (fun i => negb (existsb (String.eqb (getItemId p i)) ids)) (items p)).

End Host.

End InMemoryProvider.

(** No item of the provider has the identifier [id]. *)
Definition unknown_id (host_String : Value -> string) (p : InMemoryProvider.Provider)
    (id : string) : Prop :=
  forall item, In item (InMemoryProvider.items p) ->
               InMemoryProvider.getItemId host_String p item <> id.

(** The identifiers of the items are pairwise different. *)
Definition unique_ids (host_String : Value -> string) (p : InMemoryProvider.Provider)
  : Prop :=
  NoDup (map (InMemoryProvider.getItemId host_String p) (InMemoryProvider.items p)).


(* ====================================================================== *)
(** ** Objects: reading after writing *)
(* ====================================================================== *)

Lemma lookup_assign_same (A : Type) (k : string) (v : A) (o : JsObject A) :
  lookup k (assign k v o) = Some v.
Proof.
  induction o as [|[k' v'] rest IH]; simpl.
  - now rewrite String.eqb_refl.
  - destruct (String.eqb k k') eqn:E; simpl; rewrite E; auto.
Qed.

Lemma lookup_assign_other (A : Type) (k k' : string) (v : A) (o : JsObject A) :
  k <> k' -> lookup k (assign k' v o) = lookup k o.
Proof.
  intros Hne. induction o as [|[k2 v2] rest IH]; simpl.
  - destruct (String.eqb_spec k k'); congruence.
  - destruct (String.eqb_spec k' k2) as [->|Hn2]; simpl.
    + destruct (String.eqb_spec k k2); congruence.
    + destruct (String.eqb_spec k k2); auto.
Qed.

Lemma get_assign_same (k : string) (v : Value) (o : Obj) :
  get k (assign k v o) = v.
Proof. unfold get. now rewrite lookup_assign_same. Qed.

Lemma get_assign_other (k k' : string) (v : Value) (o : Obj) :
  k <> k' -> get k (assign k' v o) = get k o.
Proof. intros H. unfold get. now rewrite lookup_assign_other. Qed.

Lemma lookup_In (A : Type) (k : string) (v : A) (o : JsObject A) :
  lookup k o = Some v -> In (k, v) o.
Proof.
  induction o as [|[k' v'] rest IH]; simpl; [discriminate|].
  destruct (String.eqb_spec k k') as [->|Hne]; intros H.
  - left. congruence.
  - right. auto.
Qed.

Lemma lookup_None_not_key (A : Type) (k : string) (o : JsObject A) :
  lookup k o = None -> ~ In k (keys o).
Proof.
  induction o as [|[k' v'] rest IH]; simpl; [tauto|].
  destruct (String.eqb_spec k k') as [->|Hne]; [discriminate|].
  intros H [Heq|Hin]; [congruence|]. now apply IH.
Qed.

Lemma In_lookup (A : Type) (k : string) (v : A) (o : JsObject A) :
  distinct_keys o -> In (k, v) o -> lookup k o = Some v.
Proof.
  unfold distinct_keys.
  induction o as [|[k' v'] rest IH]; simpl; [tauto|].
  intros Hnd [Heq|Hin].
  - inversion Heq; subst. now rewrite String.eqb_refl.
  - inversion Hnd as [|? ? Hnotin Hnd']; subst.
    destruct (String.eqb_spec k k') as [->|Hne].
    + exfalso. apply Hnotin. change k' with (fst (k', v)). now apply in_map.
    + auto.
Qed.

Lemma spread_nil (A : Type) (a : JsObject A) : spread a [] = a.
Proof. reflexivity. Qed.

(** Reading a property of [{...a, ...b}]. *)
Lemma lookup_spread (A : Type) (k : string) (b a : JsObject A) :
  distinct_keys b ->
  lookup k (spread a b) = match lookup k b with Some v => Some v | None => lookup k a end.
Proof.
  unfold distinct_keys, spread. revert a.
  induction b as [|[k' v'] rest IH]; intros a Hnd; simpl; [reflexivity|].
  inversion Hnd as [|? ? Hnotin Hnd']; subst.
  rewrite IH by assumption.
  destruct (String.eqb_spec k k') as [->|Hne].
  - destruct (lookup k' rest) eqn:E.
    + exfalso. apply Hnotin. apply lookup_In in E.
      change k' with (fst (k', a0)). now apply in_map.
    + apply lookup_assign_same.
  - destruct (lookup k rest); [reflexivity|]. now apply lookup_assign_other.
Qed.

Lemma get_spread (k : string) (a b : Obj) :
  distinct_keys b ->
  get k (spread a b) = match lookup k b with Some v => v | None => get k a end.
Proof.
  intros H. unfold get. rewrite lookup_spread by assumption.
  now destruct (lookup k b).
Qed.

(* ====================================================================== *)
(** ** Unwrapping *)
(* ====================================================================== *)

(** Induction along the wrapper chain of a node. *)
Lemma wrapper_chain_ind (P : ZodSchema -> Prop) :
  P NullishNode ->
  (forall s, is_terminal s = true -> P s) ->
  (forall s def, zod_def s = Some def -> is_wrapper_type (type def) = true ->
                 innerType def = None -> P s) ->
  (forall s def inner, zod_def s = Some def -> is_wrapper_type (type def) = true ->
                       innerType def = Some inner -> P inner -> P s) ->
  forall s, P s.
Proof.
  intros Hnull Hterm Hbad Hwrap.
  fix IH 1.
  intros s. destruct s as [|d mn mx mt]; [exact Hnull|]. destruct d as [def|].
  - destruct def as [ty inner cs fmt es vs dv].
    destruct (is_wrapper_type ty) eqn:Ew.
    + destruct inner as [inner|].
      * eapply Hwrap; [reflexivity | exact Ew | reflexivity | apply IH].
      * eapply Hbad; [reflexivity | exact Ew | reflexivity].
    + apply Hterm. unfold is_terminal. simpl. now rewrite Ew.
  - apply Hterm. reflexivity.
Qed.

Lemma unwrap_terminal_id (s : ZodSchema) :
  is_terminal s = true -> unwrapZodSchema s = Ok s.
Proof.
  unfold is_terminal. destruct s as [|[def|] mn mx mt]; simpl;
    [discriminate| |reflexivity].
  destruct (is_wrapper_type (type def)); [discriminate|reflexivity].
Qed.

Lemma unwrap_reaches_terminal (s t : ZodSchema) :
  unwrapZodSchema s = Ok t -> is_terminal t = true.
Proof.
  induction s as [|s Ht | s def Hd Hw Hi | s def inner Hd Hw Hi IH] using wrapper_chain_ind.
  - discriminate.
  - rewrite unwrap_terminal_id by assumption. intros H. now inversion H; subst.
  - destruct s as [|d mn mx mt]; [discriminate Hd|]. simpl in *. subst d. simpl. rewrite Hw, Hi. discriminate.
  - destruct s as [|d mn mx mt]; [discriminate Hd|]. simpl in *. subst d. simpl. rewrite Hw, Hi. exact IH.
Qed.

Lemma unwrap_total (s : ZodSchema) :
  well_formed s = true -> exists t, unwrapZodSchema s = Ok t.
Proof.
  induction s as [|s Ht | s def Hd Hw Hi | s def inner Hd Hw Hi IH] using wrapper_chain_ind.
  - discriminate.
  - intros _. exists s. now apply unwrap_terminal_id.
  - destruct s as [|d mn mx mt]; [discriminate Hd|]. simpl in *. subst d. rewrite Hw, Hi. discriminate.
  - destruct s as [|d mn mx mt]; [discriminate Hd|]. simpl in *. subst d. rewrite Hw, Hi. exact IH.
Qed.

(** The base type is the tag of the unwrapped node. *)
Lemma base_type_of_unwrapped (s t : ZodSchema) :
  unwrapZodSchema s = Ok t -> getZodBaseType s = Ok (recorded_tag t).
Proof.
  induction s as [|s Ht | s def Hd Hw Hi | s def inner Hd Hw Hi IH] using wrapper_chain_ind.
  - discriminate.
  - rewrite unwrap_terminal_id by assumption. intros H. inversion H; subst t.
    unfold is_terminal in Ht. unfold recorded_tag.
    destruct s as [|[def|] mn mx mt]; simpl in *; [discriminate| |reflexivity].
    destruct (is_wrapper_type (type def)); [discriminate|].
    destruct def as [[ty|] ? ? ? ? ? ?]; reflexivity.
  - destruct s as [|d mn mx mt]; [discriminate Hd|]. simpl in *. subst d. simpl. rewrite Hw, Hi. discriminate.
  - destruct s as [|d mn mx mt]; [discriminate Hd|]. simpl in *. subst d. simpl. rewrite Hw, Hi. exact IH.
Qed.

Lemma base_type_unwraps (s : ZodSchema) (tag : string) :
  getZodBaseType s = Ok tag -> exists t, unwrapZodSchema s = Ok t.
Proof.
  induction s as [|s Ht | s def Hd Hw Hi | s def inner Hd Hw Hi IH] using wrapper_chain_ind.
  - discriminate.
  - intros _. exists s. now apply unwrap_terminal_id.
  - destruct s as [|d mn mx mt]; [discriminate Hd|]. simpl in *. subst d. simpl. rewrite Hw, Hi. discriminate.
  - destruct s as [|d mn mx mt]; [discriminate Hd|]. simpl in *. subst d. simpl. rewrite Hw, Hi. exact IH.
Qed.

Lemma unwrap_step (s inner : ZodSchema) (def : ZodDef) :
  zod_def s = Some def -> is_wrapper_type (type def) = true ->
  innerType def = Some inner -> unwrapZodSchema s = unwrapZodSchema inner.
Proof.
  intros Hd Hw Hi. destruct s as [|d mn mx mt]; [discriminate Hd|].
  simpl in Hd. subst d. simpl. now rewrite Hw, Hi.
Qed.

Lemma unwrap_follows_chain (s t : ZodSchema) :
  unwrapZodSchema s = Ok t -> chain_end s t.
Proof.
  induction s as [|s Ht | s def Hd Hw Hi | s def inner Hd Hw Hi IH] using wrapper_chain_ind.
  - discriminate.
  - rewrite unwrap_terminal_id by assumption. intros H. inversion H; subst t.
    now apply chain_here.
  - destruct s as [|d mn mx mt]; [discriminate Hd|]. simpl in *. subst d. simpl.
    rewrite Hw, Hi. discriminate.
  - rewrite (unwrap_step s Hd Hw Hi). intros H.
    exact (chain_step s Hd Hw Hi (IH H)).
Qed.

Lemma chain_is_unwrapped (s t : ZodSchema) :
  chain_end s t -> unwrapZodSchema s = Ok t.
Proof.
  induction 1 as [s Ht | s inner t def Hd Hw Hi _ IH].
  - now apply unwrap_terminal_id.
  - now rewrite (unwrap_step s Hd Hw Hi).
Qed.

Lemma unwrap_needs_well_formed (s t : ZodSchema) :
  unwrapZodSchema s = Ok t -> well_formed s = true.
Proof.
  induction s as [|s Ht | s def Hd Hw Hi | s def inner Hd Hw Hi IH] using wrapper_chain_ind.
  - discriminate.
  - intros _. unfold is_terminal in Ht.
    destruct s as [|[def|] mn mx mt]; [discriminate|simpl|reflexivity].
    destruct (is_wrapper_type (type def)); [discriminate|reflexivity].
  - destruct s as [|d mn mx mt]; [discriminate Hd|]. simpl in *. subst d. simpl.
    rewrite Hw, Hi. discriminate.
  - destruct s as [|d mn mx mt]; [discriminate Hd|]. simpl in *. subst d. simpl.
    rewrite Hw, Hi. exact IH.
Qed.

(** C9, as amended.  Unwrapping returns exactly the end of the wrapper
    chain of its argument: it returns [t] if and only if [t] is the
    terminal node reached from the argument through the inner nodes of
    its wrappers.  It returns for the nodes that are objects whose
    wrappers each wrap an object, and raises for every other node.
    What it returns is terminal, wrapper-free, and unwrapping it again
    returns it unchanged; a node that is already terminal is returned as
    it is. *)
Theorem unwrap_idempotent (s : ZodSchema) :
  (forall t, unwrapZodSchema s = Ok t <-> chain_end s t) /\
  (well_formed s = true <-> exists t, unwrapZodSchema s = Ok t) /\
  (well_formed s = false <-> unwrapZodSchema s = Throw) /\
  (forall t, unwrapZodSchema s = Ok t ->
             is_terminal t = true /\ unwrapZodSchema t = Ok t) /\
  (is_terminal s = true -> unwrapZodSchema s = Ok s).
Proof.
  assert (well_formed s = true <-> exists t, unwrapZodSchema s = Ok t) as Hwf.
  { split; [apply unwrap_total|]. intros [t Ht]. exact (unwrap_needs_well_formed s Ht). }
  split; [|split; [exact Hwf|split; [|split]]].
  - intros t. split; [apply unwrap_follows_chain | apply chain_is_unwrapped].
  - destruct (unwrapZodSchema s) as [t|] eqn:E.
    + split; [|discriminate]. intros H.
      rewrite (proj2 Hwf (ex_intro _ t eq_refl)) in H. discriminate.
    + split; [reflexivity|]. intros _.
      destruct (well_formed s) eqn:W; [|reflexivity].
      destruct (proj1 Hwf eq_refl) as [t Ht]. discriminate.
  - intros t Ht. pose proof (unwrap_reaches_terminal s Ht) as Hterm.
    split; [exact Hterm | now apply unwrap_terminal_id].
  - apply unwrap_terminal_id.
Qed.

(** C9 as stated fails: not every node unwraps to a terminal node.  On a
    wrapper that wraps nothing, on a wrapper around one, and on a node
    that is [undefined] or [null], the unwrapping raises. *)
Lemma unwrap_raises_on_broken_chain :
  unwrapZodSchema (empty_wrapper "optional") = Throw /\
  unwrapZodSchema (wrapper_node "nullable" (empty_wrapper "optional")) = Throw /\
  unwrapZodSchema NullishNode = Throw /\
  getZodBaseType (empty_wrapper "optional") = Throw.
Proof. repeat split. Qed.

(* ====================================================================== *)
(** ** Numeric bounds *)
(* ====================================================================== *)

Lemma bounds_step_min (b : Bounds) (c : ZodCheck) :
  min (bounds_step b c) =
  match min b with
  | Some m => Some m
  | None => if is_kind "min" c then Some (value c) else None
  end.
Proof.
  unfold bounds_step, is_kind. destruct b as [[m|] [m'|]]; simpl;
    destruct (String.eqb (kind c) "min"); simpl;
    destruct (String.eqb (kind c) "max"); reflexivity.
Qed.

Lemma bounds_step_max (b : Bounds) (c : ZodCheck) :
  max (bounds_step b c) =
  match max b with
  | Some m => Some m
  | None => if is_kind "max" c then Some (value c) else None
  end.
Proof.
  unfold bounds_step, is_kind. destruct b as [[m|] [m'|]]; simpl;
    destruct (String.eqb (kind c) "min"); simpl;
    destruct (String.eqb (kind c) "max"); reflexivity.
Qed.

(** The loop over the checks keeps a bound that is already set and
    otherwise takes the value of the first check of the kind. *)
Lemma fold_bounds_min (cs : list ZodCheck) (b : Bounds) :
  min (fold_left bounds_step cs b) =
  match min b with
  | Some m => Some m
  | None => option_map value (find (is_kind "min") cs)
  end.
Proof.
  revert b. induction cs as [|c rest IH]; intros b; simpl.
  - now destruct (min b).
  - rewrite IH, bounds_step_min.
    destruct (min b); [reflexivity|]. now destruct (is_kind "min" c).
Qed.

Lemma fold_bounds_max (cs : list ZodCheck) (b : Bounds) :
  max (fold_left bounds_step cs b) =
  match max b with
  | Some m => Some m
  | None => option_map value (find (is_kind "max") cs)
  end.
Proof.
  revert b. induction cs as [|c rest IH]; intros b; simpl.
  - now destruct (max b).
  - rewrite IH, bounds_step_max.
    destruct (max b); [reflexivity|]. now destruct (is_kind "max" c).
Qed.

Lemma find_first (A : Type) (p : A -> bool) (pre post : list A) (c : A) :
  p c = true -> (forall c', In c' pre -> p c' = false) ->
  find p (pre ++ c :: post) = Some c.
Proof.
  intros Hc. induction pre as [|x pre IH]; intros Hpre; simpl.
  - now rewrite Hc.
  - rewrite (Hpre x) by now left. apply IH. intros c' Hin. apply Hpre. now right.
Qed.

Lemma find_none (A : Type) (p : A -> bool) (l : list A) :
  (forall c, In c l -> p c = false) -> find p l = None.
Proof.
  induction l as [|x l IH]; intros H; simpl; [reflexivity|].
  rewrite (H x) by now left. apply IH. intros c Hin. apply H. now right.
Qed.

Lemma getNumericBounds_unfold (s u : ZodSchema) :
  unwrapZodSchema s = Ok u ->
  getNumericBounds s = Ok (fold_left bounds_step (checks_of u) (instance_bounds u)).
Proof.
  intros Hu. unfold getNumericBounds, checks_of. rewrite Hu. simpl.
  destruct (zod_def u) as [def|]; [|reflexivity].
  now destruct (checks def).
Qed.

(** C5. [getNumericBounds] returns a [{min?, max?}] record computed on the
    unwrapped node [u].  An instance-level bound, when present (a numeric
    [minValue] or [maxValue] other than the safe-integer sentinel the
    schema library uses for "no bound"), is the result whatever the checks
    say.  When there is no instance-level bound, the first check of the
    kind in the checks array gives the bound, whatever checks follow it;
    with no check of the kind the bound stays undefined. *)
Theorem numeric_bounds_precedence (s u : ZodSchema) :
  unwrapZodSchema s = Ok u ->
  exists b,
    getNumericBounds s = Ok b /\
    (forall m, min (instance_bounds u) = Some m -> min b = Some m) /\
    (forall m, max (instance_bounds u) = Some m -> max b = Some m) /\
    (forall pre c post,
        min (instance_bounds u) = None ->
        checks_of u = pre ++ c :: post -> is_kind "min" c = true ->
        (forall c', In c' pre -> is_kind "min" c' = false) ->
        min b = Some (value c)) /\
    (forall pre c post,
        max (instance_bounds u) = None ->
        checks_of u = pre ++ c :: post -> is_kind "max" c = true ->
        (forall c', In c' pre -> is_kind "max" c' = false) ->
        max b = Some (value c)) /\
    (min (instance_bounds u) = None ->
     (forall c, In c (checks_of u) -> is_kind "min" c = false) -> min b = None) /\
    (max (instance_bounds u) = None ->
     (forall c, In c (checks_of u) -> is_kind "max" c = false) -> max b = None) /\
    (forall m, minValue u = Some m -> m <> (- MAX_SAFE_INTEGER)%Z ->
               min (instance_bounds u) = Some m) /\
    (forall m, maxValue u = Some m -> m <> MAX_SAFE_INTEGER ->
               max (instance_bounds u) = Some m).
Proof.
  intros Hu. exists (fold_left bounds_step (checks_of u) (instance_bounds u)).
  split; [exact (getNumericBounds_unfold s Hu)|].
  rewrite fold_bounds_min, fold_bounds_max.
  repeat split.
  - intros m Hm. now rewrite Hm.
  - intros m Hm. now rewrite Hm.
  - intros pre c post Hi Hcs Hc Hpre. rewrite Hi, Hcs.
    now rewrite (find_first _ pre post c Hc Hpre).
  - intros pre c post Hi Hcs Hc Hpre. rewrite Hi, Hcs.
    now rewrite (find_first _ pre post c Hc Hpre).
  - intros Hi Hno. rewrite Hi. now rewrite find_none.
  - intros Hi Hno. rewrite Hi. now rewrite find_none.
  - intros m Hm Hne. unfold instance_bounds. cbn [min]. rewrite Hm.
    destruct (Z.eqb_spec m (- MAX_SAFE_INTEGER)); [contradiction|reflexivity].
  - intros m Hm Hne. unfold instance_bounds. cbn [max]. rewrite Hm.
    destruct (Z.eqb_spec m MAX_SAFE_INTEGER); [contradiction|reflexivity].
Qed.

(** A number node under an [optional] wrapper, with an instance-level
    minimum of 1 and the checks [min 5; max 10; max 20]: the instance
    minimum wins over the [min] check and the first [max] check wins over
    the second. *)
Lemma numeric_bounds_precedence_witness :
  exists b,
    getNumericBounds
      (wrapper_node "optional"
         (checked_number_node (Some 1%Z) None
            [mkCheck "min" 5; mkCheck "max" 10; mkCheck "max" 20])) = Ok b /\
    min b = Some 1%Z /\ max b = Some 10%Z.
Proof.
  destruct (@numeric_bounds_precedence
              (wrapper_node "optional"
                 (checked_number_node (Some 1%Z) None
                    [mkCheck "min" 5; mkCheck "max" 10; mkCheck "max" 20]))
              (checked_number_node (Some 1%Z) None
                 [mkCheck "min" 5; mkCheck "max" 10; mkCheck "max" 20])
              eq_refl)
    as [b [Hb [Hmin [_ [_ [Hmax _]]]]]].
  exists b. split; [exact Hb|]. split.
  - apply Hmin. reflexivity.
  - apply (Hmax [mkCheck "min" 5] (mkCheck "max" 10) [mkCheck "max" 20]);
      [reflexivity | reflexivity | reflexivity |].
    intros c' [<-|[]]. reflexivity.
Defined.

(* ====================================================================== *)
(** ** The store: initial visibility and the setters *)
(* ====================================================================== *)

Lemma visibility_fold (l : JsObject Obj) (vis : JsObject bool) (k : string) :
  lookup k
    (fold_left
       (fun visibility e =>
          if is_false (get "visible" (snd e)) || truthy (get "hidden" (snd e))
          then assign (fst e) false visibility else visibility) l vis) =
  if existsb (fun e => String.eqb k (fst e) && hidden_or_not_visible (snd e)) l
  then Some false else lookup k vis.
Proof.
  revert vis. induction l as [|[k' fa] rest IH]; intros vis; simpl; [reflexivity|].
  rewrite IH. clear IH. fold (hidden_or_not_visible fa).
  destruct (existsb _ rest); [now rewrite orb_true_r|]. rewrite orb_false_r.
  destruct (hidden_or_not_visible fa).
  - rewrite andb_true_r. destruct (String.eqb_spec k k') as [->|Hne].
    + apply lookup_assign_same.
    + now apply lookup_assign_other.
  - now rewrite andb_false_r.
Qed.

Lemma initial_visibility_lookup (c : CollectionDefinition) (k : string) :
  lookup k (buildInitialVisibility c) =
  if existsb (fun e => String.eqb k (fst e) && hidden_or_not_visible (snd e))
             (fieldAffordances c)
  then Some false else None.
Proof. unfold buildInitialVisibility. now rewrite visibility_fold. Qed.

(** C8. The initial column-visibility map of the store has the entry
    [k: false] exactly when some field [k] of the collection is resolved
    with [visible === false] or with a truthy [hidden]; a key none of whose
    fields is so is absent from the map; and no key maps to [true]. *)
Theorem initial_visibility_only_hidden (c : CollectionDefinition) (k : string) :
  (lookup k (buildInitialVisibility c) = Some false <->
   exists fa, In (k, fa) (fieldAffordances c) /\ hidden_or_not_visible fa = true) /\
  (lookup k (buildInitialVisibility c) = None <->
   forall fa, In (k, fa) (fieldAffordances c) -> hidden_or_not_visible fa = false) /\
  lookup k (buildInitialVisibility c) <> Some true /\
  columnVisibility (initialState unit c) = buildInitialVisibility c.
Proof.
  rewrite initial_visibility_lookup.
  destruct (existsb _ (fieldAffordances c)) eqn:E.
  - apply existsb_exists in E. destruct E as [[k' fa] [Hin Hk]]. simpl in Hk.
    apply andb_true_iff in Hk. destruct Hk as [Hk Hh].
    apply String.eqb_eq in Hk. subst k'.
    split; [|split; [|split]].
    + split; [intros _; now exists fa | reflexivity].
    + split; [discriminate|]. intros H. rewrite (H fa Hin) in Hh. discriminate.
    + discriminate.
    + reflexivity.
  - assert (forall fa, In (k, fa) (fieldAffordances c) ->
                       hidden_or_not_visible fa = false) as Hall.
    { intros fa Hin. destruct (hidden_or_not_visible fa) eqn:Hh; [|reflexivity].
      assert (existsb (fun e => String.eqb k (fst e) && hidden_or_not_visible (snd e))
                      (fieldAffordances c) = true) as Hex.
      { apply existsb_exists. exists (k, fa). split; [exact Hin|]. simpl.
        now rewrite String.eqb_refl, Hh. }
      congruence. }
    split; [|split; [|split]].
    + split; [discriminate|]. intros [fa [Hin Hh]].
      rewrite (Hall fa Hin) in Hh. discriminate.
    + split; [intros _; exact Hall | reflexivity].
    + discriminate.
    + reflexivity.
Qed.

(** C10, as amended.  The two filter setters return a state on page 0
    with the page size of the input state; [setPagination] installs its
    argument; every other setter leaves the pagination sub-record as it
    was.  Of the remaining actions, [clearSelection] and [selectAll] leave
    it alone and [reset] goes back to page 0, keeping the page size. *)
Theorem setters_and_pagination (T : Type) (state : CollectionState T) (a : Setter T) :
  match a with
  | SetColumnFilters _ | SetGlobalFilter _ =>
      pageIndex (pagination (run_setter a state)) = 0%Z /\
      pageSize (pagination (run_setter a state)) = pageSize (pagination state)
  | SetPagination p => pagination (run_setter a state) = p
  | _ => pagination (run_setter a state) = pagination state
  end /\
  pagination (clearSelection state) = pagination state /\
  pagination (selectAll state) = pagination state /\
  (forall initial,
      pagination (reset initial state) = mkPagination 0 (pageSize (pagination state))).
Proof. destruct a; simpl; auto. Qed.

(** C10 as stated fails: [setPagination] is a setter other than the two
    filter setters, and it modifies the pagination sub-record. *)
Lemma setPagination_modifies_pagination :
  is_filter_setter (@SetPagination unit (mkPagination 3 10)) = false /\
  pagination (initialState unit (mkCollection [] [] [] [] "id" "")) = mkPagination 0 25 /\
  pagination (run_setter (SetPagination (mkPagination 3 10))
                         (initialState unit (mkCollection [] [] [] [] "id" "")))
  = mkPagination 3 10 /\
  mkPagination 3 10 <> mkPagination 0 25.
Proof. repeat split. discriminate. Qed.

(* ====================================================================== *)
(** ** Name heuristics: union of the patches, the later one winning *)
(* ====================================================================== *)

Lemma fold_left_filter (A B : Type) (f : B -> A -> B) (p : A -> bool)
      (l : list A) (b : B) :
  fold_left f (filter p l) b = fold_left (fun acc x => if p x then f acc x else acc) l b.
Proof.
  revert b. induction l as [|x l IH]; intros b; simpl; [reflexivity|].
  destruct (p x); simpl; apply IH.
Qed.

(** The chain of conditionals of [refineByFieldName] applies the patches
    of the matching heuristics, in the order of the table. *)
Lemma refineByFieldName_table (key : string) (defaults : Obj) :
  refineByFieldName key defaults = apply_patches key (matching_heuristics key) defaults.
Proof.
  unfold apply_patches, matching_heuristics. rewrite fold_left_filter. reflexivity.
Qed.

(** Layer 4 without metadata only fills in the title. *)
Lemma finish_inference_no_meta (key : string) (schema : ZodSchema) (a : Obj) (k : string) :
  meta schema = None -> k <> "title" ->
  get k (finish_inference key schema a) = get k a.
Proof.
  intros Hm Hk. unfold finish_inference, getZodMeta. rewrite Hm.
  destruct (negb (truthy (get "title" a))); [|reflexivity].
  now apply get_assign_other.
Qed.

Lemma inferFieldAffordances_layers (key : string) (schema : ZodSchema) (r : Obj) :
  inferFieldAffordances key schema = Ok r ->
  exists tag refined,
    getZodBaseType schema = Ok tag /\
    refineByValidations schema (getTypeDefaults tag) = Ok refined /\
    r = finish_inference key schema (refineByFieldName key refined).
Proof.
  unfold inferFieldAffordances.
  destruct (getZodBaseType schema) as [tag|] eqn:Et; simpl; [|discriminate].
  destruct (refineByValidations schema (getTypeDefaults tag)) as [refined|] eqn:Er;
    simpl; [|discriminate].
  intros H. inversion H; subst. exists tag, refined. repeat split; assumption.
Qed.

(** C1. A field name matched by exactly two heuristics [h1] (listed
    earlier) and [h2] (listed later) receives both patches, the later one
    applied on top of the earlier one: whatever [h2] sets has the value
    [h2] gives it; whatever [h2] leaves alone and [h1] sets has the value
    [h1] gives it; whatever neither touches keeps its value.  The name
    [apiKey] matches the identifier suffix and the secret pattern, and so
    resolves with [filterable: false]. *)
Theorem heuristics_union_later_wins :
  (forall key defaults h1 h2,
      matching_heuristics key = [h1; h2] ->
      refineByFieldName key defaults
      = heuristic_patch h2 key (heuristic_patch h1 key defaults) /\
      (forall (A : Type) (f : Obj -> A) (v : A),
          patch_sets (heuristic_patch h2 key) f v ->
          f (refineByFieldName key defaults) = v) /\
      (forall (A : Type) (f : Obj -> A) (v : A),
          patch_keeps (heuristic_patch h2 key) f ->
          patch_sets (heuristic_patch h1 key) f v ->
          f (refineByFieldName key defaults) = v) /\
      (forall (A : Type) (f : Obj -> A),
          patch_keeps (heuristic_patch h2 key) f ->
          patch_keeps (heuristic_patch h1 key) f ->
          f (refineByFieldName key defaults) = f defaults)) /\
  matching_heuristics "apiKey" = [HIdentifier; HSecret] /\
  patch_sets (heuristic_patch HIdentifier "apiKey") (get "filterable") (VStr "exact") /\
  patch_sets (heuristic_patch HSecret "apiKey") (get "filterable") (VBool false) /\
  (forall defaults, get "filterable" (refineByFieldName "apiKey" defaults) = VBool false) /\
  (forall schema r,
      meta schema = None ->
      inferFieldAffordances "apiKey" schema = Ok r ->
      get "filterable" r = VBool false).
Proof.
  assert (patch_sets (heuristic_patch HSecret "apiKey") (get "filterable") (VBool false))
    as Hsecret.
  { intros r. simpl. unfold secret_patch.
    rewrite get_assign_other by discriminate. apply get_assign_same. }
  assert (forall defaults, get "filterable" (refineByFieldName "apiKey" defaults) = VBool false)
    as Hapi.
  { intros defaults. rewrite refineByFieldName_table.
    change (matching_heuristics "apiKey") with [HIdentifier; HSecret].
    apply Hsecret. }
  split; [|repeat split].
  - intros key defaults h1 h2 Hm.
    rewrite refineByFieldName_table, Hm. simpl.
    split; [reflexivity|]. split; [|split].
    + intros A f v H2. apply H2.
    + intros A f v H2 H1. rewrite H2. apply H1.
    + intros A f H2 H1. now rewrite H2, H1.
  - intros r. simpl. unfold identifier_patch.
    rewrite get_assign_other by discriminate. apply get_assign_same.
  - exact Hsecret.
  - exact Hapi.
  - intros schema r Hmeta Hr.
    destruct (inferFieldAffordances_layers _ _ Hr) as [tag [refined [_ [_ ->]]]].
    rewrite finish_inference_no_meta by (assumption || discriminate).
    apply Hapi.
Qed.

(** The instance of the general part at [apiKey] over the string defaults. *)
Lemma heuristics_union_later_wins_witness :
  refineByFieldName "apiKey" STRING_FIELD_DEFAULTS
  = heuristic_patch HSecret "apiKey"
      (heuristic_patch HIdentifier "apiKey" STRING_FIELD_DEFAULTS).
Proof.
  exact (proj1 (proj1 heuristics_union_later_wins "apiKey" STRING_FIELD_DEFAULTS
                      HIdentifier HSecret eq_refl)).
Defined.

(* ====================================================================== *)
(** ** Identifier-like names *)
(* ====================================================================== *)

Ltac get_simpl :=
  repeat (rewrite get_assign_same || rewrite get_assign_other by discriminate).

Lemma ends_with_refl (w : string) : ends_with w w = true.
Proof. destruct w; cbn [ends_with]; now rewrite String.eqb_refl. Qed.

Lemma ends_with_lower (w key : string) :
  ends_with w key = true -> ends_with (lower w) (lower key) = true.
Proof.
  induction key as [|c key IH]; cbn [ends_with].
  - rewrite orb_false_r. intros H. apply String.eqb_eq in H. subst w. reflexivity.
  - intros H. apply orb_true_iff in H. destruct H as [H|H].
    + apply String.eqb_eq in H. subst w. apply ends_with_refl.
    + change (lower (String c key)) with (String (to_lower c) (lower key)).
      cbn [ends_with]. apply orb_true_iff. right. now apply IH.
Qed.

Lemma test_identifier_shaped (key : string) :
  test_identifier key = true -> identifier_shaped (lower key) = true.
Proof.
  unfold test_identifier, identifier_shaped, test_anchored_ci, test_suffix.
  intros H. apply orb_true_iff in H. apply orb_true_iff. destruct H as [H|H].
  - left. exact H.
  - right. apply existsb_exists in H. destruct H as [suf [Hin Hs]].
    apply existsb_exists. exists suf. split; [exact Hin|]. now apply ends_with_lower.
Qed.

Lemma identifier_excludes (p : Pattern) (key : string) :
  never_identifier p = true ->
  test_identifier key = true -> test_anchored_ci p key = false.
Proof.
  intros Hp Hid. apply test_identifier_shaped in Hid.
  destruct (test_anchored_ci p key) eqn:E; [|reflexivity].
  unfold test_anchored_ci in E. apply existsb_exists in E.
  destruct E as [w [Hin Hw]]. apply String.eqb_eq in Hw.
  unfold never_identifier in Hp. rewrite forallb_forall in Hp.
  specialize (Hp w Hin). rewrite <- Hw, Hid in Hp. discriminate.
Qed.

(** An identifier-like name matches no other heuristic, the secret one
    apart. *)
Lemma identifier_matching (key : string) :
  test_identifier key = true ->
  matching_heuristics key =
  HIdentifier :: (if test_anchored_ci SECRET_PATTERNS key then [HSecret] else []).
Proof.
  intros Hid. unfold matching_heuristics, HEURISTIC_ORDER. simpl.
  rewrite Hid.
  rewrite (identifier_excludes CREATED_PATTERNS key) by (reflexivity || assumption).
  rewrite (identifier_excludes UPDATED_PATTERNS key) by (reflexivity || assumption).
  rewrite (identifier_excludes DELETED_PATTERNS key) by (reflexivity || assumption).
  rewrite (identifier_excludes EMAIL_PATTERNS key) by (reflexivity || assumption).
  rewrite (identifier_excludes NAME_PATTERNS key) by (reflexivity || assumption).
  rewrite (identifier_excludes DESCRIPTION_PATTERNS key) by (reflexivity || assumption).
  rewrite (identifier_excludes IMAGE_PATTERNS key) by (reflexivity || assumption).
  rewrite (identifier_excludes STATUS_PATTERNS key) by (reflexivity || assumption).
  now destruct (test_anchored_ci SECRET_PATTERNS key).
Qed.

(** Every type default is visible, and the validation layer never
    touches visibility. *)
Lemma type_defaults_visible (tag : string) :
  get "visible" (getTypeDefaults tag) = VBool true.
Proof.
  unfold getTypeDefaults.
  repeat match goal with
         | |- context [if one_of ?l tag then _ else _] => destruct (one_of l tag)
         end; reflexivity.
Qed.

Lemma refine_check_visible (refined : Obj) (c : ZodCheck) :
  get "visible" (refine_check refined c) = get "visible" refined.
Proof.
  unfold refine_check.
  destruct (String.eqb (kind c) "email");
    destruct (String.eqb (kind c) "url" || String.eqb (kind c) "uri");
    destruct (String.eqb (kind c) "uuid" || String.eqb (kind c) "ulid"
              || String.eqb (kind c) "cuid");
    get_simpl; reflexivity.
Qed.

Lemma refine_checks_visible (cs : list ZodCheck) (refined : Obj) :
  get "visible" (fold_left refine_check cs refined) = get "visible" refined.
Proof.
  revert refined. induction cs as [|c cs IH]; intros refined; simpl; [reflexivity|].
  now rewrite IH, refine_check_visible.
Qed.

Lemma refine_def_visible (def : ZodDef) (defaults : Obj) :
  get "visible" (refine_def def defaults) = get "visible" defaults.
Proof.
  unfold refine_def.
  destruct (opt_is "boolean" (type def) && hasDefaultValue def);
    destruct (opt_is "string" (type def));
    destruct (opt_is "uuid" (format def));
    destruct (opt_is "uri" (format def) || opt_is "url" (format def));
    destruct (opt_is "email" (format def));
    destruct (checks def);
    get_simpl; try rewrite refine_checks_visible; reflexivity.
Qed.

Lemma refineByValidations_visible (schema : ZodSchema) (defaults refined : Obj) :
  refineByValidations schema defaults = Ok refined ->
  get "visible" refined = get "visible" defaults.
Proof.
  unfold refineByValidations.
  destruct (unwrapZodSchema schema) as [u|]; simpl; [|discriminate].
  destruct (zod_def u) as [def|]; intros H; inversion H; subst.
  - apply refine_def_visible.
  - reflexivity.
Qed.

(** C2, as amended.  A field whose name matches the identifier
    heuristic, resolved without metadata, is non-editable.  It is
    exact-match filterable and not searchable unless the name also
    matches the secret pattern, in which case it is not filterable at all
    and not visible.  It is hidden when the name is exactly [id]; any
    other identifier-like name that is not secret-like stays visible. *)
Theorem identifier_fields_resolution (key : string) (schema : ZodSchema) (r : Obj) :
  test_identifier key = true ->
  meta schema = None ->
  inferFieldAffordances key schema = Ok r ->
  get "editable" r = VBool false /\
  (key = "id" -> get "visible" r = VBool false) /\
  (test_anchored_ci SECRET_PATTERNS key = false ->
   get "filterable" r = VStr "exact" /\
   get "searchable" r = VBool false /\
   (key <> "id" -> get "visible" r = VBool true)) /\
  (test_anchored_ci SECRET_PATTERNS key = true ->
   get "filterable" r = VBool false /\ get "visible" r = VBool false).
Proof.
  intros Hid Hmeta Hr.
  destruct (inferFieldAffordances_layers _ _ Hr) as [tag [refined [_ [Hrefined ->]]]].
  pose proof (refineByValidations_visible _ _ Hrefined) as Hvis.
  rewrite type_defaults_visible in Hvis.
  rewrite !finish_inference_no_meta by (assumption || discriminate).
  rewrite refineByFieldName_table, (identifier_matching key Hid).
  unfold apply_patches.
  destruct (test_anchored_ci SECRET_PATTERNS key) eqn:Es; simpl;
    unfold secret_patch, identifier_patch.
  - split; [|split; [|split]].
    + get_simpl. reflexivity.
    + intros _. get_simpl. reflexivity.
    + discriminate.
    + intros _. split; get_simpl; reflexivity.
  - split; [|split; [|split]].
    + get_simpl. reflexivity.
    + intros ->. get_simpl. reflexivity.
    + intros _. split; [|split].
      * get_simpl. reflexivity.
      * get_simpl. reflexivity.
      * intros Hne. get_simpl.
        destruct (String.eqb_spec key "id"); [contradiction|].
        get_simpl. exact Hvis.
    + discriminate.
Qed.

Lemma identifier_fields_resolution_witness :
  get "editable" [("sortable", VStr "both"); ("filterable", VStr "exact");
                  ("searchable", VBool false); ("groupable", VBool false);
                  ("editable", VBool false); ("visible", VBool false);
                  ("title", VStr "Id")] = VBool false.
Proof.
  exact (proj1 (@identifier_fields_resolution "id" (plain_node "string") _
                  eq_refl eq_refl eq_refl)).
Defined.

(** C2 as stated fails: [userId] matches the identifier suffix, and the
    string field of that name resolves visible (and with no [hidden]
    flag). *)
Lemma userId_resolves_visible :
  test_identifier "userId" = true /\
  meta (plain_node "string") = None /\
  inferFieldAffordances "userId" (plain_node "string")
  = Ok [("sortable", VStr "both"); ("filterable", VStr "exact");
        ("searchable", VBool false); ("groupable", VBool false);
        ("editable", VBool false); ("visible", VBool true);
        ("title", VStr "User Id")].
Proof. repeat split. Qed.

(* ====================================================================== *)
(** ** Unrecognised nodes *)
(* ====================================================================== *)

Lemma for_each_total (A S : Type) (body : S -> A -> Result S) (xs : list A) :
  (forall x, In x xs -> forall s, exists s', body s x = Ok s') ->
  forall s, exists s', for_each body xs s = Ok s'.
Proof.
  induction xs as [|x xs IH]; intros H s; simpl.
  - now exists s.
  - destruct (H x (or_introl eq_refl) s) as [s1 ->]. simpl.
    apply IH. intros y Hy. apply H. now right.
Qed.

Lemma resolve_field_total (explicit : option (JsObject Obj)) (acc : JsObject Obj)
      (key : string) (schema : ZodSchema) (r : Obj) :
  inferFieldAffordances key schema = Ok r ->
  exists acc', resolve_field explicit acc (key, schema) = Ok acc'.
Proof.
  intros Hr. destruct (inferFieldAffordances_layers _ _ Hr) as [tag [_ [Htag _]]].
  unfold resolve_field. rewrite Hr. simpl. rewrite Htag. simpl. eauto.
Qed.










(* ====================================================================== *)
(** ** Collection affordances: shorthand normalization *)
(* ====================================================================== *)

Lemma get_normalize_same (prop : string) (default merged : Obj) :
  get prop (normalize_shorthand prop default merged)
  = normalized default (get prop merged).
Proof.
  unfold normalize_shorthand.
  destruct (get prop merged) as [| |[|]| n|s|l|p|] eqn:E; simpl;
    rewrite ?get_assign_same; try exact E; try reflexivity.
  - destruct (negb (Z.eqb n 0)); simpl; exact E.
  - destruct (negb (String.eqb s "")); simpl; exact E.
Qed.

Lemma get_normalize_other (prop prop' : string) (default merged : Obj) :
  prop' <> prop ->
  get prop' (normalize_shorthand prop default merged) = get prop' merged.
Proof.
  intros Hne. unfold normalize_shorthand.
  destruct (is_true (get prop merged)); [now apply get_assign_other|].
  destruct (truthy (get prop merged) && _); [now apply get_assign_other|reflexivity].
Qed.

Lemma normalized_not_true (default : Obj) (v : Value) :
  normalized default v <> VBool true.
Proof. destruct v as [| |[|]| | | | |]; simpl; discriminate. Qed.

Lemma resolved_pagination (explicit : Obj) :
  distinct_keys explicit ->
  get "pagination" (resolveCollectionAffordances (Some explicit))
  = normalized DEFAULT_PAGINATION
      match lookup "pagination" explicit with
      | Some v => v
      | None => VObj DEFAULT_PAGINATION
      end.
Proof.
  intros Hd. unfold resolveCollectionAffordances.
  rewrite get_normalize_other by discriminate.
  rewrite get_normalize_same, get_spread by assumption.
  now destruct (lookup "pagination" explicit).
Qed.

Lemma resolved_search (explicit : Obj) :
  distinct_keys explicit ->
  get "search" (resolveCollectionAffordances (Some explicit))
  = normalized DEFAULT_SEARCH
      match lookup "search" explicit with
      | Some v => v
      | None => VBool true
      end.
Proof.
  intros Hd. unfold resolveCollectionAffordances.
  rewrite get_normalize_same.
  rewrite get_normalize_other by discriminate.
  rewrite get_spread by assumption.
  now destruct (lookup "search" explicit).
Qed.

(** C4, as amended.  The resolved collection affordances never expose a
    bare [true] for [pagination] or [search]: an absent property and the
    shorthand [true] both resolve to the full default object, and a
    partial object is merged over the full default, property by property;
    an explicit [false] passes through unchanged.  The override
    [{defaultPageSize: 50}] resolves to the default pagination object with
    the page size replaced.  A config without collection affordances
    resolves as one with the empty object. *)
Theorem shorthand_normalization (explicit : Obj) :
  distinct_keys explicit ->
  let resolved := resolveCollectionAffordances (Some explicit) in
  (get "pagination" resolved <> VBool true /\ get "search" resolved <> VBool true) /\
  (lookup "pagination" explicit = None \/ lookup "pagination" explicit = Some (VBool true) ->
   get "pagination" resolved = VObj DEFAULT_PAGINATION) /\
  (lookup "search" explicit = None \/ lookup "search" explicit = Some (VBool true) ->
   get "search" resolved = VObj DEFAULT_SEARCH) /\
  (forall partial,
      lookup "pagination" explicit = Some (VObj partial) ->
      get "pagination" resolved = VObj (spread DEFAULT_PAGINATION partial)) /\
  (forall partial,
      lookup "search" explicit = Some (VObj partial) ->
      get "search" resolved = VObj (spread DEFAULT_SEARCH partial)) /\
  (forall default partial k,
      distinct_keys partial ->
      get k (spread default partial)
      = match lookup k partial with Some v => v | None => get k default end) /\
  (lookup "pagination" explicit = Some (VBool false) ->
   get "pagination" resolved = VBool false) /\
  (lookup "search" explicit = Some (VBool false) ->
   get "search" resolved = VBool false) /\
  get "pagination"
      (resolveCollectionAffordances
         (Some [("pagination", VObj [("defaultPageSize", VNum 50)])]))
  = VObj [ ("defaultPageSize", VNum 50);
           ("pageSizeOptions", VArr [VNum 10; VNum 25; VNum 50; VNum 100]);
           ("style", VStr "pages");
           ("serverSide", VBool false) ] /\
  resolveCollectionAffordances None = resolveCollectionAffordances (Some []).
Proof.
  intros Hd resolved. subst resolved.
  rewrite (resolved_pagination Hd), (resolved_search Hd).
  split; [split; apply normalized_not_true|].
  split; [intros [->| ->]; reflexivity|].
  split; [intros [->| ->]; reflexivity|].
  split; [intros partial ->; reflexivity|].
  split; [intros partial ->; reflexivity|].
  split; [intros default partial k Hp; now apply get_spread|].
  split; [intros ->; reflexivity|].
  split; [intros ->; reflexivity|].
  split; reflexivity.
Qed.

Lemma shorthand_normalization_witness :
  get "search"
      (resolveCollectionAffordances (Some [("search", VObj [("debounce", VNum 500)])]))
  = VObj [ ("debounce", VNum 500); ("minChars", VNum 1);
           ("highlight", VBool false); ("placeholder", VStr "Search...") ].
Proof.
  refine (proj1 (proj2 (proj2 (proj2 (proj2
            (@shorthand_normalization [("search", VObj [("debounce", VNum 500)])] _)))))
          [("debounce", VNum 500)] eq_refl).
  repeat constructor. simpl. tauto.
Defined.

(** C4 as stated fails: [pagination: false] resolves to the bare boolean
    [false], and so does [search: false]. *)
Lemma disabled_pagination_stays_false :
  get "pagination" (resolveCollectionAffordances (Some [("pagination", VBool false)]))
  = VBool false /\
  get "search" (resolveCollectionAffordances (Some [("search", VBool false)]))
  = VBool false.
Proof. split; reflexivity. Qed.

(* ====================================================================== *)
(** ** The resolved fields of a collection *)
(* ====================================================================== *)

Lemma assign_fresh (A : Type) (k : string) (v : A) (o : JsObject A) :
  ~ In k (keys o) -> assign k v o = o ++ [(k, v)].
Proof.
  induction o as [|[k' v'] rest IH]; simpl; [reflexivity|].
  intros Hnot. destruct (String.eqb_spec k k') as [->|Hne].
  - exfalso. apply Hnot. now left.
  - f_equal. apply IH. intros Hin. apply Hnot. now right.
Qed.

Lemma resolve_field_inv (explicit : option (JsObject Obj)) (acc acc' : JsObject Obj)
      (key : string) (schema : ZodSchema) :
  resolve_field explicit acc (key, schema) = Ok acc' ->
  exists inferred zodType,
    inferFieldAffordances key schema = Ok inferred /\
    getZodBaseType schema = Ok zodType /\
    acc' = assign key (resolved_record explicit key inferred zodType) acc.
Proof.
  unfold resolve_field.
  destruct (inferFieldAffordances key schema) as [inferred|] eqn:Ei; simpl; [|discriminate].
  destruct (getZodBaseType schema) as [zt|] eqn:Ez; simpl; [|discriminate].
  intros H. inversion H. now exists inferred, zt.
Qed.

Lemma resolve_all_inv (explicit : option (JsObject Obj)) (shape : JsObject ZodSchema) :
  forall acc res,
    distinct_keys shape ->
    (forall k, In k (keys shape) -> ~ In k (keys acc)) ->
    for_each (resolve_field explicit) shape acc = Ok res ->
    exists tail, res = acc ++ tail /\ Forall2 (resolves_to explicit) shape tail.
Proof.
  unfold distinct_keys.
  induction shape as [|[k s] rest IH]; intros acc res Hnd Hfresh; cbn [for_each].
  - intros H. inversion H. exists []. split; [now rewrite app_nil_r | constructor].
  - destruct (resolve_field explicit acc (k, s)) as [acc1|] eqn:E1; cbn [bind];
      [|discriminate].
    intros Hrest.
    destruct (resolve_field_inv _ _ _ _ E1) as [inferred [zt [Hi [Hz Hacc]]]].
    rewrite assign_fresh in Hacc by (apply Hfresh; now left).
    inversion Hnd as [|? ? Hnotin Hnd']; subst.
    destruct (IH (acc ++ [(k, resolved_record explicit k inferred zt)]) res Hnd')
      as [tail [Hres Hall]]; [|exact Hrest|].
    + intros k' Hin Hin'. unfold keys in Hin'. rewrite map_app in Hin'.
      apply in_app_or in Hin'. simpl in Hin'. destruct Hin' as [Hin'|[Heq|[]]].
      * apply (Hfresh k'); [now right | exact Hin'].
      * subst k'. contradiction.
    + exists ((k, resolved_record explicit k inferred zt) :: tail). split.
      * rewrite Hres, <- app_assoc. reflexivity.
      * constructor; [|exact Hall]. split; [reflexivity|]. now exists inferred, zt.
Qed.

Lemma resolve_all_entries (explicit : option (JsObject Obj))
      (shape : JsObject ZodSchema) (fas : JsObject Obj) :
  distinct_keys shape ->
  resolveAllFieldAffordances shape explicit = Ok fas ->
  Forall2 (resolves_to explicit) shape fas.
Proof.
  intros Hnd H. destruct (@resolve_all_inv explicit shape [] fas Hnd)
    as [tail [Heq Hall]]; [intros k _ [] | exact H |].
  simpl in Heq. now subst.
Qed.

Lemma resolved_keys (explicit : option (JsObject Obj))
      (shape : JsObject ZodSchema) (fas : JsObject Obj) :
  Forall2 (resolves_to explicit) shape fas -> keys fas = keys shape.
Proof.
  induction 1 as [|e r shape' fas' [Hk _] _ IH]; simpl; [reflexivity|].
  now rewrite Hk, IH.
Qed.

Lemma resolved_of_field (explicit : option (JsObject Obj))
      (shape : JsObject ZodSchema) (fas : JsObject Obj) (e : string * ZodSchema) :
  Forall2 (resolves_to explicit) shape fas ->
  In e shape -> exists r, In r fas /\ resolves_to explicit e r.
Proof.
  induction 1 as [|e' r' shape' fas' Hr _ IH]; intros Hin; [destruct Hin|].
  destruct Hin as [->|Hin].
  - exists r'. split; [now left | exact Hr].
  - destruct (IH Hin) as [r [Hr1 Hr2]]. exists r. split; [now right | exact Hr2].
Qed.

Lemma field_of_resolved (explicit : option (JsObject Obj))
      (shape : JsObject ZodSchema) (fas : JsObject Obj) (r : string * Obj) :
  Forall2 (resolves_to explicit) shape fas ->
  In r fas -> exists e, In e shape /\ resolves_to explicit e r.
Proof.
  induction 1 as [|e' r' shape' fas' Hr _ IH]; intros Hin; [destruct Hin|].
  destruct Hin as [->|Hin].
  - exists e'. split; [now left | exact Hr].
  - destruct (IH Hin) as [e [He1 He2]]. exists e. split; [now right | exact He2].
Qed.

Lemma defineCollection_inv (shape : JsObject ZodSchema) (config : option CollectionConfig)
      (c : CollectionDefinition) :
  defineCollection shape config = Ok c ->
  schema_shape c = shape /\
  resolveAllFieldAffordances shape
    (match config with Some cf => cfg_fields cf | None => None end)
  = Ok (fieldAffordances c).
Proof.
  unfold defineCollection.
  destruct (resolveAllFieldAffordances shape _) as [fas|]; simpl; [|discriminate].
  intros H. inversion H. simpl. split; reflexivity.
Qed.

(** A field resolved from [shape] has its node in the shape, and the
    node is the one its record was computed from. *)
Lemma resolved_field_node (explicit : option (JsObject Obj))
      (shape : JsObject ZodSchema) (fas : JsObject Obj) (key : string) (fa : Obj) :
  distinct_keys shape ->
  Forall2 (resolves_to explicit) shape fas ->
  In (key, fa) fas ->
  exists schema inferred zodType,
    lookup key shape = Some schema /\
    inferFieldAffordances key schema = Ok inferred /\
    getZodBaseType schema = Ok zodType /\
    fa = resolved_record explicit key inferred zodType.
Proof.
  intros Hnd Hall Hin.
  destruct (@field_of_resolved explicit shape fas (key, fa) Hall Hin) as [[k s] [He [Hk [inferred [zt [Hi [Hz Hr]]]]]]].
  simpl in *. subst k. exists s, inferred, zt.
  split; [now apply In_lookup|]. auto.
Qed.

(* ====================================================================== *)
(** ** Diff mode against a collection without overrides *)
(* ====================================================================== *)

(** [valueEqual] is reflexive on every value but NaN. *)
Lemma valueEqual_refl (JSON_stringify : Value -> string) (v : Value) :
  is_nan v = false -> valueEqual JSON_stringify v v = true.
Proof.
  destruct v as [| |b|n|s|l|o|]; simpl; auto.
  - now destruct b.
  - intros _. apply Z.eqb_refl.
  - intros _. apply String.eqb_refl.
  - intros _. apply String.eqb_refl.
  - intros _. apply String.eqb_refl.
Qed.

Lemma valueEqual_nan (JSON_stringify : Value -> string) (v : Value) :
  valueEqual JSON_stringify VNaN v = false.
Proof. reflexivity. Qed.

Lemma fold_left_stays (A B : Type) (f : B -> A -> B) (l : list A) (b : B) :
  (forall x, In x l -> f b x = b) -> fold_left f l b = b.
Proof.
  induction l as [|x l IH]; intros H; simpl; [reflexivity|].
  rewrite (H x) by now left. apply IH. intros y Hy. apply H. now right.
Qed.

Lemma for_each_stays (A S : Type) (body : S -> A -> Result S) (xs : list A) (s : S) :
  (forall x, In x xs -> body s x = Ok s) -> for_each body xs s = Ok s.
Proof.
  induction xs as [|x xs IH]; intros H; simpl; [reflexivity|].
  rewrite (H x) by now left. simpl. apply IH. intros y Hy. apply H. now right.
Qed.

Lemma zodType_not_serialized : ~ In "zodType" FIELD_PROP_ORDER.
Proof. unfold FIELD_PROP_ORDER. simpl. intuition discriminate. Qed.

(** A record that agrees with the freshly inferred one on every
    serialized property has an empty diff. *)
Lemma diff_props_empty (JSON_stringify : Value -> string) (key : string)
      (fa inferred : Obj) :
  get "title" fa = nullish_or (get "title" inferred) (VStr (humanizeFieldName key)) ->
  (forall prop, In prop FIELD_PROP_ORDER -> prop <> "title" ->
                get prop fa = get prop inferred) ->
  (forall prop, In prop FIELD_PROP_ORDER -> is_nan (get prop fa) = false) ->
  diff_props JSON_stringify key fa inferred = [].
Proof.
  intros Htitle Hprops Hnan. unfold diff_props. apply fold_left_stays.
  intros prop Hin. specialize (Hnan prop Hin).
  destruct (is_undefined (get prop fa)); [reflexivity|].
  destruct (String.eqb_spec prop "title") as [->|Hne].
  - rewrite <- Htitle. now rewrite valueEqual_refl.
  - rewrite <- (Hprops prop Hin Hne). now rewrite valueEqual_refl.
Qed.

Lemma resolved_record_no_overrides (explicit : option (JsObject Obj)) (key : string)
      (inferred : Obj) (zodType : string) :
  explicit_overrides explicit key = [] ->
  get "title" (resolved_record explicit key inferred zodType)
  = nullish_or (get "title" inferred) (VStr (humanizeFieldName key)) /\
  (forall prop, prop <> "zodType" -> prop <> "title" ->
                get prop (resolved_record explicit key inferred zodType)
                = get prop inferred).
Proof.
  intros Hov. unfold resolved_record. rewrite Hov, spread_nil. split.
  - now get_simpl.
  - intros prop Hz Ht. now rewrite !get_assign_other by assumption.
Qed.

(** The config object has a [fields] entry only for a non-empty fields
    object. *)
Lemma config_without_fields (JSON_stringify : Value -> string)
      (c : CollectionDefinition) :
  buildFieldsObject JSON_stringify c true = Ok [] ->
  exists config,
    buildConfigObject JSON_stringify c true = Ok config /\
    lookup "fields" config = None.
Proof.
  intros Hf. unfold buildConfigObject. rewrite Hf. simpl.
  eexists. split; [reflexivity|].
  destruct (filterUndefined (affordances c)); destruct (operations c); reflexivity.
Qed.

(** C3 fails on the code.  The schema [{ n: z.number().meta({order: NaN}) }]
    is defined without any config, so without explicit per-field
    overrides, and yet diff mode emits the field-level block
    [fields: { n: { order: NaN } }]: the resolved [order] and the freshly
    inferred one are both NaN, and [valueEqual] compares primitives by
    [===], under which NaN differs from itself. *)
Lemma nan_metadata_breaks_empty_diff (JSON_stringify : Value -> string) :
  let shape :=
    [("n", mkSchema (Some (mkDef (Some "number") None None None None None false))
                    None None (Some [("order", VNaN)]))] in
  exists c,
    defineCollection shape None = Ok c /\
    fieldAffordances c
    = [("n", [("sortable", VStr "both"); ("filterable", VStr "range");
              ("searchable", VBool false); ("groupable", VBool false);
              ("editable", VBool true); ("visible", VBool true);
              ("aggregatable", VArr [VStr "sum"; VStr "avg"; VStr "min"; VStr "max"]);
              ("order", VNaN); ("title", VStr "N"); ("zodType", VStr "number")])] /\
    inferFieldAffordances "n" (mkSchema (Some (mkDef (Some "number") None None None None
                                                      None false))
                                        None None (Some [("order", VNaN)]))
    = Ok [("sortable", VStr "both"); ("filterable", VStr "range");
          ("searchable", VBool false); ("groupable", VBool false);
          ("editable", VBool true); ("visible", VBool true);
          ("aggregatable", VArr [VStr "sum"; VStr "avg"; VStr "min"; VStr "max"]);
          ("order", VNaN); ("title", VStr "N")] /\
    buildFieldsObject JSON_stringify c true = Ok [("n", [("order", VNaN)])] /\
    exists generated,
      buildConfigObject JSON_stringify c true = Ok generated /\
      lookup "fields" generated = Some (VObj [("n", VObj [("order", VNaN)])]).
Proof.
  intros shape. eexists. split; [reflexivity|]. cbn [fieldAffordances].
  split; [reflexivity|]. split; [reflexivity|].
  assert (forall acc,
            buildFieldsObject JSON_stringify
              (mkCollection shape acc
                 [("n", [("sortable", VStr "both"); ("filterable", VStr "range");
                         ("searchable", VBool false); ("groupable", VBool false);
                         ("editable", VBool true); ("visible", VBool true);
                         ("aggregatable",
                          VArr [VStr "sum"; VStr "avg"; VStr "min"; VStr "max"]);
                         ("order", VNaN); ("title", VStr "N");
                         ("zodType", VStr "number")])]
                 [] "n" "n") true
            = Ok [("n", [("order", VNaN)])]) as Hfields.
  { intros acc. unfold buildFieldsObject, fields_step, diff_props. cbn.
    rewrite String.eqb_refl. reflexivity. }
  split; [apply Hfields|].
  unfold buildConfigObject.
  match goal with
  | |- context [buildFieldsObject ?S ?c true] =>
      replace (buildFieldsObject S c true) with (Ok [("n", [("order", VNaN)])])
        by (symmetry; apply Hfields)
  end.
  eexists. split; reflexivity.
Qed.

(* ====================================================================== *)
(** ** The filter configuration of an enum field *)
(* ====================================================================== *)

Lemma getEnumValues_total (s u : ZodSchema) :
  unwrapZodSchema s = Ok u -> exists ev, getEnumValues s = Ok ev.
Proof.
  intros Hu. unfold getEnumValues. rewrite Hu. simpl.
  destruct (zod_def u) as [def|]; [|eauto].
  destruct (opt_is "enum" (type def)); [|eauto].
  destruct (entries def); eauto.
Qed.

Lemma key_lookup (A : Type) (k : string) (o : JsObject A) :
  In k (keys o) -> exists v, lookup k o = Some v.
Proof.
  induction o as [|[k' v'] rest IH]; simpl; [tauto|].
  intros [Heq|Hin].
  - subst k'. rewrite String.eqb_refl. eauto.
  - destruct (String.eqb k k'); eauto.
Qed.

(** The loop body succeeds on every field whose node unwraps. *)
Lemma filter_field_total (c : CollectionDefinition) (key : string) (affordance : Obj)
      (s u : ZodSchema) :
  unwrapZodSchema s = Ok u ->
  In key (keys (fieldAffordances c)) ->
  exists f ev,
    filter_field c key affordance s = Ok f /\
    getEnumValues s = Ok ev /\
    filter_name f = key /\
    filterType f = filter_type_of affordance /\
    filter_options f = filter_options_of (filter_type_of affordance) ev.
Proof.
  intros Hu Hkey.
  destruct (getEnumValues_total s Hu) as [ev Hev].
  destruct (key_lookup _ _ Hkey) as [fa Hfa].
  unfold filter_field. fold (filter_type_of affordance).
  rewrite Hev, Hfa. cbn [bind].
  rewrite (getNumericBounds_unfold s Hu).
  destruct (String.eqb (filter_type_of affordance) "range"); cbn [bind];
    eexists; exists ev; repeat split; reflexivity.
Qed.




Unset Implicit Arguments.

(* ====================================================================== *)
(** ** Introspection through wrappers *)
(* ====================================================================== *)

(** X1. Every introspection helper looks at the unwrapped node only: on
    a node that unwraps to [u], the base type, the enum members, the
    numeric bounds, a check test and the validation refinements are those
    of [u] itself. *)
Theorem introspection_sees_through_wrappers (s u : ZodSchema) :
  unwrapZodSchema s = Ok u ->
  getZodBaseType s = getZodBaseType u /\
  getEnumValues s = getEnumValues u /\
  getNumericBounds s = getNumericBounds u /\
  (forall k, hasZodCheck s k = hasZodCheck u k) /\
  (forall defaults, refineByValidations s defaults = refineByValidations u defaults).
Proof.
  intros Hu.
  pose proof (unwrap_reaches_terminal s Hu) as Ht.
  pose proof (unwrap_terminal_id u Ht) as Hu'.
  split; [|split; [|split; [|split]]].
  - now rewrite (base_type_of_unwrapped s Hu), (base_type_of_unwrapped u Hu').
  - unfold getEnumValues. now rewrite Hu, Hu'.
  - unfold getNumericBounds. now rewrite Hu, Hu'.
  - intros k. unfold hasZodCheck. now rewrite Hu, Hu'.
  - intros defaults. unfold refineByValidations. now rewrite Hu, Hu'.
Qed.

Lemma introspection_sees_through_wrappers_witness :
  getEnumValues (wrapper_node "optional" (wrapper_node "nullable" (enum_node STATUS_MEMBERS)))
  = getEnumValues (enum_node STATUS_MEMBERS).
Proof.
  exact (proj1 (proj2 (@introspection_sees_through_wrappers
                         (wrapper_node "optional"
                            (wrapper_node "nullable" (enum_node STATUS_MEMBERS)))
                         (enum_node STATUS_MEMBERS) eq_refl))).
Defined.

(* ====================================================================== *)
(** ** The name heuristics are almost exclusive *)
(* ====================================================================== *)

Lemma anchored_exclusive (p q : Pattern) (key : string) :
  words_disjoint p q = true ->
  test_anchored_ci p key = true -> test_anchored_ci q key = false.
Proof.
  intros Hd Hp. destruct (test_anchored_ci q key) eqn:Hq; [|reflexivity].
  unfold test_anchored_ci in Hp, Hq.
  apply existsb_exists in Hp. destruct Hp as [w [Hw Hwk]].
  apply existsb_exists in Hq. destruct Hq as [v [Hv Hvk]].
  apply String.eqb_eq in Hwk. apply String.eqb_eq in Hvk.
  unfold words_disjoint in Hd. rewrite forallb_forall in Hd.
  specialize (Hd w Hw). apply negb_true_iff in Hd.
  assert (existsb (fun v0 => String.eqb (lower w) (lower v0)) (words q) = true) as Hex.
  { apply existsb_exists. exists v. split; [exact Hv|].
    apply String.eqb_eq. congruence. }
  congruence.
Qed.

Ltac exclude_others p key E :=
  repeat match goal with
         | |- context [test_anchored_ci ?q key] =>
             rewrite (@anchored_exclusive p q key eq_refl E)
         end.

(** X2. Whatever the field name, at most two name heuristics match it,
    and two only when they are the identifier and the secret heuristic;
    the nine anchored patterns exclude each other. *)
Theorem heuristics_almost_exclusive (key : string) :
  matching_heuristics key = [] \/
  (exists h, matching_heuristics key = [h]) \/
  matching_heuristics key = [HIdentifier; HSecret].
Proof.
  destruct (test_identifier key) eqn:Hid.
  - rewrite (identifier_matching key Hid).
    destruct (test_anchored_ci SECRET_PATTERNS key); eauto.
  - unfold matching_heuristics, HEURISTIC_ORDER. simpl. rewrite Hid.
    destruct (test_anchored_ci CREATED_PATTERNS key) eqn:E1;
      [exclude_others CREATED_PATTERNS key E1; eauto|].
    destruct (test_anchored_ci UPDATED_PATTERNS key) eqn:E2;
      [exclude_others UPDATED_PATTERNS key E2; eauto|].
    destruct (test_anchored_ci DELETED_PATTERNS key) eqn:E3;
      [exclude_others DELETED_PATTERNS key E3; eauto|].
    destruct (test_anchored_ci SECRET_PATTERNS key) eqn:E4;
      [exclude_others SECRET_PATTERNS key E4; eauto|].
    destruct (test_anchored_ci EMAIL_PATTERNS key) eqn:E5;
      [exclude_others EMAIL_PATTERNS key E5; eauto|].
    destruct (test_anchored_ci NAME_PATTERNS key) eqn:E6;
      [exclude_others NAME_PATTERNS key E6; eauto|].
    destruct (test_anchored_ci DESCRIPTION_PATTERNS key) eqn:E7;
      [exclude_others DESCRIPTION_PATTERNS key E7; eauto|].
    destruct (test_anchored_ci IMAGE_PATTERNS key) eqn:E8;
      [exclude_others IMAGE_PATTERNS key E8; eauto|].
    destruct (test_anchored_ci STATUS_PATTERNS key); eauto.
Qed.

(* ====================================================================== *)
(** ** The validation layer only specializes *)
(* ====================================================================== *)

Lemma refine_check_frame (k : string) (refined : Obj) (c : ZodCheck) :
  ~ In k VALIDATION_WRITES ->
  get k (refine_check refined c) = get k refined.
Proof.
  intros Hk. unfold VALIDATION_WRITES in Hk. simpl in Hk.
  assert (k <> "editWidget" /\ k <> "filterable" /\ k <> "searchable" /\ k <> "editable")
    as [H1 [H2 [H3 H4]]] by (repeat split; intros ->; tauto).
  unfold refine_check.
  destruct (String.eqb (kind c) "email");
    destruct (String.eqb (kind c) "url" || String.eqb (kind c) "uri");
    destruct (String.eqb (kind c) "uuid" || String.eqb (kind c) "ulid"
              || String.eqb (kind c) "cuid");
    rewrite ?get_assign_other by assumption; reflexivity.
Qed.

Lemma refine_checks_frame (k : string) (cs : list ZodCheck) (refined : Obj) :
  ~ In k VALIDATION_WRITES ->
  get k (fold_left refine_check cs refined) = get k refined.
Proof.
  intros Hk. revert refined.
  induction cs as [|c cs IH]; intros refined; simpl; [reflexivity|].
  now rewrite IH, refine_check_frame.
Qed.

Lemma refine_check_narrows (k : string) (d refined : Obj) (c : ZodCheck) :
  k = "editable" \/ k = "searchable" ->
  kept_or k (VBool false) d refined ->
  kept_or k (VBool false) d (refine_check refined c).
Proof.
  unfold kept_or, refine_check. intros [-> | ->] H;
    destruct (String.eqb (kind c) "email");
    destruct (String.eqb (kind c) "url" || String.eqb (kind c) "uri");
    destruct (String.eqb (kind c) "uuid" || String.eqb (kind c) "ulid"
              || String.eqb (kind c) "cuid");
    get_simpl; auto.
Qed.

Lemma refine_checks_narrow (k : string) (d : Obj) (cs : list ZodCheck) (refined : Obj) :
  k = "editable" \/ k = "searchable" ->
  kept_or k (VBool false) d refined ->
  kept_or k (VBool false) d (fold_left refine_check cs refined).
Proof.
  intros Hk. revert refined.
  induction cs as [|c cs IH]; intros refined H; simpl; [exact H|].
  apply IH. now apply refine_check_narrows.
Qed.

Lemma refine_def_frame (k : string) (def : ZodDef) (defaults : Obj) :
  ~ In k VALIDATION_WRITES ->
  get k (refine_def def defaults) = get k defaults.
Proof.
  intros Hk.
  assert (k <> "editWidget" /\ k <> "filterable" /\ k <> "searchable" /\ k <> "editable")
    as [H1 [H2 [H3 H4]]]
      by (unfold VALIDATION_WRITES in Hk; simpl in Hk; repeat split; intros ->; tauto).
  unfold refine_def.
  destruct (opt_is "boolean" (type def) && hasDefaultValue def);
    destruct (opt_is "string" (type def));
    destruct (opt_is "uuid" (format def));
    destruct (opt_is "uri" (format def) || opt_is "url" (format def));
    destruct (opt_is "email" (format def));
    destruct (checks def);
    rewrite ?get_assign_other by assumption;
    try rewrite refine_checks_frame by assumption; reflexivity.
Qed.

Lemma refine_def_narrows (k : string) (def : ZodDef) (defaults : Obj) :
  k = "editable" \/ k = "searchable" ->
  kept_or k (VBool false) defaults (refine_def def defaults).
Proof.
  intros Hk.
  assert (forall cs, kept_or k (VBool false) defaults (fold_left refine_check cs defaults))
    as Hfold.
  { intros cs. apply refine_checks_narrow; [exact Hk | now left]. }
  unfold refine_def.
  destruct (opt_is "boolean" (type def) && hasDefaultValue def);
    destruct (opt_is "string" (type def));
    destruct (opt_is "uuid" (format def));
    destruct (opt_is "uri" (format def) || opt_is "url" (format def));
    destruct (opt_is "email" (format def));
    destruct (checks def) as [cs|];
    try (specialize (Hfold cs));
    unfold kept_or in *; destruct Hk as [-> | ->]; get_simpl; auto.
Qed.

(** X3. The validation layer writes only [editWidget], [filterable],
    [searchable] and [editable]: every other property of the defaults is
    left as it is.  It never widens: [editable] and [searchable] are
    either left as they are or set to [false]. *)
Theorem validations_only_specialize (schema : ZodSchema) (defaults refined : Obj) :
  refineByValidations schema defaults = Ok refined ->
  (forall k, ~ In k VALIDATION_WRITES -> get k refined = get k defaults) /\
  (get "editable" refined = get "editable" defaults \/
   get "editable" refined = VBool false) /\
  (get "searchable" refined = get "searchable" defaults \/
   get "searchable" refined = VBool false).
Proof.
  unfold refineByValidations.
  destruct (unwrapZodSchema schema) as [u|]; simpl; [|discriminate].
  destruct (zod_def u) as [def|]; intros H; inversion H; subst.
  - split; [intros k Hk; now apply refine_def_frame|]. split.
    + apply (@refine_def_narrows "editable" def defaults). now left.
    + apply (@refine_def_narrows "searchable" def defaults). now right.
  - repeat split; auto.
Qed.

Lemma validations_only_specialize_witness :
  get "editable"
      (refine_def (mkDef (Some "string") None (Some [mkCheck "uuid" 0]) None None None false)
                  STRING_FIELD_DEFAULTS)
  = get "editable" STRING_FIELD_DEFAULTS \/
  get "editable"
      (refine_def (mkDef (Some "string") None (Some [mkCheck "uuid" 0]) None None None false)
                  STRING_FIELD_DEFAULTS)
  = VBool false.
Proof.
  exact (proj1 (proj2 (@validations_only_specialize
           (mkSchema (Some (mkDef (Some "string") None (Some [mkCheck "uuid" 0])
                                  None None None false)) None None None)
           STRING_FIELD_DEFAULTS _ eq_refl))).
Defined.

(* ====================================================================== *)
(** ** Objects built by assignment have distinct keys *)
(* ====================================================================== *)

Lemma has_key_In (A : Type) (k : string) (o : JsObject A) :
  has_key k o = true <-> In k (keys o).
Proof.
  unfold has_key. split.
  - destruct (lookup k o) eqn:E; [|discriminate]. intros _.
    apply lookup_In in E. change k with (fst (k, a)). now apply in_map.
  - intros H. destruct (key_lookup _ _ H) as [v ->]. reflexivity.
Qed.

Lemma keys_assign (A : Type) (k : string) (v : A) (o : JsObject A) :
  keys (assign k v o) = if has_key k o then keys o else keys o ++ [k].
Proof.
  unfold has_key. induction o as [|[k' v'] rest IH]; simpl; [reflexivity|].
  destruct (String.eqb_spec k k') as [->|Hne]; simpl; [reflexivity|].
  rewrite IH. now destruct (lookup k rest).
Qed.

Lemma assign_distinct (A : Type) (k : string) (v : A) (o : JsObject A) :
  distinct_keys o -> distinct_keys (assign k v o).
Proof.
  unfold distinct_keys. intros Hd. rewrite keys_assign.
  destruct (has_key k o) eqn:E; [exact Hd|].
  apply NoDup_app; [exact Hd | repeat constructor; simpl; tauto |].
  intros x Hx [Heq|[]]. subst x.
  apply has_key_In in Hx. congruence.
Qed.

Lemma spread_distinct (A : Type) (b a : JsObject A) :
  distinct_keys a -> distinct_keys (spread a b).
Proof.
  unfold spread. revert a. induction b as [|[k v] rest IH]; intros a Ha; simpl.
  - exact Ha.
  - apply IH. now apply assign_distinct.
Qed.

Lemma fold_assign_distinct (A B : Type) (f : JsObject A -> B -> JsObject A)
      (l : list B) (o : JsObject A) :
  (forall acc x, distinct_keys acc -> distinct_keys (f acc x)) ->
  distinct_keys o -> distinct_keys (fold_left f l o).
Proof.
  intros Hf. revert o. induction l as [|x l IH]; intros o Ho; simpl; auto.
Qed.

(* ====================================================================== *)
(** ** Layer 4: metadata and explicit overrides *)
(* ====================================================================== *)

Lemma direct_meta_lookup (m : Obj) (k : string) (l : list string) (acc : Obj) :
  lookup k
    (fold_left
       (fun result key => if has_key key m then assign key (get key m) result else result)
       l acc)
  = if existsb (String.eqb k) l && has_key k m then Some (get k m) else lookup k acc.
Proof.
  revert acc. induction l as [|x l IH]; intros acc; simpl; [reflexivity|].
  rewrite IH. clear IH.
  destruct (existsb (String.eqb k) l) eqn:E1; destruct (has_key k m) eqn:E2; simpl;
    rewrite ?orb_true_r, ?orb_false_r, ?andb_false_r; simpl; try reflexivity.
  - destruct (String.eqb_spec k x) as [->|Hne]; simpl.
    + rewrite E2. reflexivity.
    + destruct (has_key x m); [now apply lookup_assign_other|reflexivity].
  - destruct (String.eqb_spec k x) as [->|Hne]; simpl.
    + rewrite E2. apply lookup_assign_same.
    + destruct (has_key x m); [now apply lookup_assign_other|reflexivity].
  - destruct (String.eqb_spec k x) as [->|Hne]; simpl.
    + rewrite E2. reflexivity.
    + destruct (has_key x m); [now apply lookup_assign_other|reflexivity].
Qed.

Lemma direct_meta_distinct (m : Obj) (l : list string) :
  distinct_keys
    (fold_left
       (fun result key => if has_key key m then assign key (get key m) result else result)
       l ([] : Obj)).
Proof.
  apply fold_assign_distinct; [|constructor].
  intros acc x Hacc. destruct (has_key x m); [now apply assign_distinct|exact Hacc].
Qed.

Lemma extract_distinct (m : Obj) : distinct_keys (extractAffordancesFromMeta m).
Proof.
  unfold extractAffordancesFromMeta.
  repeat match goal with
         | |- distinct_keys (if ?c then _ else _) => destruct c
         | |- distinct_keys (assign _ _ _) => apply assign_distinct
         | |- distinct_keys (spread _ _) => apply spread_distinct
         end; apply direct_meta_distinct.
Qed.

Lemma has_key_get (k : string) (o : Obj) : has_key k o = false -> get k o = VUndef.
Proof. unfold has_key, get. now destruct (lookup k o). Qed.

(** Without a nested [affordances] object the extraction copies the
    affordance keys present in the metadata, and nothing else. *)
Lemma extract_direct (m : Obj) (k : string) :
  has_nested_affordances m = false ->
  lookup k (extractAffordancesFromMeta m)
  = if existsb (String.eqb k) affordanceKeys && has_key k m then Some (get k m) else None.
Proof.
  unfold has_nested_affordances. intros Hn. unfold extractAffordancesFromMeta. rewrite Hn.
  match goal with
  | |- context [fold_left ?f affordanceKeys ?n] =>
      set (direct := fold_left f affordanceKeys n)
  end.
  assert (forall k', lookup k' direct
                     = if existsb (String.eqb k') affordanceKeys && has_key k' m
                       then Some (get k' m) else None) as Hd.
  { intros k'. unfold direct. now rewrite direct_meta_lookup. }
  assert (forall k', existsb (String.eqb k') affordanceKeys = true ->
                     get k' direct = get k' m) as Hg.
  { intros k' Hk'. unfold get at 1. rewrite Hd, Hk'. simpl.
    destruct (has_key k' m) eqn:E; [reflexivity|]. now rewrite has_key_get. }
  assert (truthy (get "title" m) && negb (truthy (get "title" direct)) = false) as ->.
  { rewrite (Hg "title" eq_refl). now destruct (truthy (get "title" m)). }
  assert (truthy (get "description" m) && negb (truthy (get "description" direct)) = false)
    as ->.
  { rewrite (Hg "description" eq_refl). now destruct (truthy (get "description" m)). }
  apply Hd.
Qed.

Lemma without_meta_base_type (schema : ZodSchema) :
  getZodBaseType (without_meta schema) = getZodBaseType schema.
Proof. destruct schema as [|[def|] mn mx mt]; reflexivity. Qed.

Lemma without_meta_refine (schema : ZodSchema) (defaults : Obj) :
  refineByValidations (without_meta schema) defaults = refineByValidations schema defaults.
Proof.
  unfold refineByValidations.
  destruct schema as [|[def|] mn mx mt]; [reflexivity| |reflexivity].
  unfold without_meta. simpl.
  destruct (is_wrapper_type (type def)); reflexivity.
Qed.

Lemma existsb_eqb_In (k : string) (l : list string) :
  existsb (String.eqb k) l = true <-> In k l.
Proof.
  rewrite existsb_exists. split.
  - intros [x [Hx Hk]]. apply String.eqb_eq in Hk. now subst.
  - intros H. exists k. split; [exact H | apply String.eqb_refl].
Qed.

(** X4. Inline metadata is layer 4 of the inference.  Without a nested
    [affordances] object, every affordance key present in the metadata
    resolves to the metadata's value (a falsy [title] apart, which is
    replaced by the humanized key), and a metadata key that is not an
    affordance key changes nothing: every property other than the title
    that the metadata does not carry resolves as it does for the same
    node without metadata.  With a nested [affordances] object, the
    properties of that object win over everything else. *)
Theorem metadata_wins (key : string) (schema : ZodSchema) (m r r0 : Obj) :
  inferFieldAffordances key schema = Ok r ->
  inferFieldAffordances key (without_meta schema) = Ok r0 ->
  meta schema = Some m ->
  (has_nested_affordances m = false ->
   (forall k, In k affordanceKeys -> has_key k m = true ->
              (k = "title" -> truthy (get k m) = true) ->
              get k r = get k m) /\
   (forall k, k <> "title" -> ~ (In k affordanceKeys /\ has_key k m = true) ->
              get k r = get k r0)) /\
  (forall nested k v,
      get "affordances" m = VObj nested -> distinct_keys nested ->
      lookup k nested = Some v -> k <> "title" -> k <> "description" ->
      get k r = v).
Proof.
  intros Hr Hr0 Hmeta.
  destruct schema as [|d mn mx mt0]; [discriminate Hmeta|].
  destruct (inferFieldAffordances_layers _ _ Hr) as [tag [refined [Ht [Hv ->]]]].
  destruct (inferFieldAffordances_layers _ _ Hr0) as [tag0 [refined0 [Ht0 [Hv0 ->]]]].
  rewrite without_meta_base_type, Ht in Ht0. inversion Ht0; subst tag0.
  rewrite without_meta_refine, Hv in Hv0. inversion Hv0; subst refined0.
  set (a := refineByFieldName key refined).
  unfold finish_inference, getZodMeta. rewrite Hmeta. simpl.
  split.
  - intros Hn. split.
    + intros k Hk Hhas Htitle.
      assert (get k (spread a (extractAffordancesFromMeta m)) = get k m) as Hget.
      { rewrite get_spread by apply extract_distinct.
        rewrite (extract_direct m k Hn).
        rewrite (proj2 (existsb_eqb_In k affordanceKeys) Hk), Hhas. reflexivity. }
      destruct (String.eqb_spec k "title") as [->|Hne].
      * rewrite Hget, (Htitle eq_refl). simpl. exact Hget.
      * destruct (negb _); [rewrite get_assign_other by assumption|]; exact Hget.
    + intros k Hk Hnot.
      assert (get k (spread a (extractAffordancesFromMeta m)) = get k a) as Hget.
      { rewrite get_spread by apply extract_distinct.
        rewrite (extract_direct m k Hn).
        destruct (existsb (String.eqb k) affordanceKeys) eqn:E1; [|reflexivity].
        destruct (has_key k m) eqn:E2; [|reflexivity].
        exfalso. apply Hnot.
        split; [exact (proj1 (existsb_eqb_In k affordanceKeys) E1) | reflexivity]. }
      destruct (negb (truthy (get "title" (spread a _))));
        destruct (negb (truthy (get "title" a)));
        rewrite ?get_assign_other by assumption; exact Hget.
  - intros nested k v Hnested Hd Hk Htitle Hdesc.
    assert (get k (extractAffordancesFromMeta m) = v) as Hex.
    { unfold extractAffordancesFromMeta. rewrite Hnested.
      replace (truthy (VObj nested) && String.eqb (typeof (VObj nested)) "object")
        with true by reflexivity.
      cbn [own_props].
      match goal with
      | |- context [fold_left ?f affordanceKeys ?n] =>
          set (direct := fold_left f affordanceKeys n)
      end.
      assert (get k (spread direct nested) = v) as Hs.
      { rewrite get_spread by assumption. now rewrite Hk. }
      destruct (truthy (get "title" m) && _);
        destruct (truthy (get "description" m) && _);
        rewrite ?get_assign_other by assumption; exact Hs. }
    assert (lookup k (extractAffordancesFromMeta m) = Some v) as Hl.
    { unfold get in Hex. destruct (lookup k (extractAffordancesFromMeta m)) eqn:E.
      - now subst.
      - exfalso. unfold extractAffordancesFromMeta in E. rewrite Hnested in E.
        replace (truthy (VObj nested) && String.eqb (typeof (VObj nested)) "object")
          with true in E by reflexivity.
        cbn [own_props] in E.
        match type of E with
        | context [fold_left ?f affordanceKeys ?n] =>
            set (direct := fold_left f affordanceKeys n) in E
        end.
        assert (lookup k (spread direct nested) = Some v) as Hs.
        { rewrite lookup_spread by assumption. now rewrite Hk. }
        destruct (truthy (get "title" m) && _) in E;
          destruct (truthy (get "description" m) && _) in E;
          rewrite ?lookup_assign_other in E by assumption; congruence. }
    assert (get k (spread a (extractAffordancesFromMeta m)) = v) as Hget.
    { rewrite get_spread by apply extract_distinct. now rewrite Hl. }
    destruct (negb _); [rewrite get_assign_other by assumption|]; exact Hget.
Qed.

Lemma metadata_wins_witness :
  get "sortable"
      [("sortable", VBool false); ("filterable", VStr "exact"); ("searchable", VBool true);
       ("groupable", VBool false); ("editable", VBool true); ("visible", VBool true);
       ("title", VStr "Custom Title")]
  = VBool false.
Proof.
  refine (proj1 (proj1 (@metadata_wins "anyField"
            (mkSchema (Some (mkDef (Some "string") None None None None None false))
               None None
               (Some [("sortable", VBool false); ("filterable", VStr "exact");
                      ("title", VStr "Custom Title")]))
            [("sortable", VBool false); ("filterable", VStr "exact");
             ("title", VStr "Custom Title")] _ _ eq_refl eq_refl eq_refl) eq_refl)
          "sortable" _ eq_refl _).
  - simpl. tauto.
  - discriminate.
Defined.

(* ====================================================================== *)
(** ** The resolved fields: overrides, title and type tag *)
(* ====================================================================== *)

(** X5. Explicit per-field overrides always win: in a collection built
    with a config, every property an override object carries for a field
    is the resolved value of that property.  The two exceptions are the
    ones the code makes: a nullish [title] override is replaced by the
    inferred or humanized title, and a [zodType] override is overwritten
    by the base type of the node. *)
Theorem explicit_overrides_win (shape : JsObject ZodSchema)
        (config : option CollectionConfig) (c : CollectionDefinition)
        (key : string) (fa : Obj) (p : string) (v : Value) :
  distinct_keys shape ->
  defineCollection shape config = Ok c ->
  In (key, fa) (fieldAffordances c) ->
  distinct_keys (explicit_overrides (config_fields config) key) ->
  lookup p (explicit_overrides (config_fields config) key) = Some v ->
  p <> "zodType" ->
  (p = "title" -> nullish v = false) ->
  get p fa = v.
Proof.
  intros Hnd Hc Hin Hdo Hp Hz Ht.
  destruct (@defineCollection_inv shape config c Hc) as [_ Hfas].
  pose proof (@resolve_all_entries _ shape (fieldAffordances c) Hnd Hfas) as Hall.
  destruct (@resolved_field_node _ shape (fieldAffordances c) key fa Hnd Hall Hin)
    as [s [inferred [zt [_ [_ [_ ->]]]]]].
  unfold resolved_record. fold (config_fields config).
  rewrite get_assign_other by assumption.
  assert (get p (spread inferred (explicit_overrides (config_fields config) key)) = v)
    as Hm by (rewrite get_spread by assumption; now rewrite Hp).
  destruct (String.eqb_spec p "title") as [->|Hne].
  - rewrite get_assign_same, Hm. unfold nullish_or. now rewrite (Ht eq_refl).
  - now rewrite get_assign_other by assumption.
Qed.

Lemma explicit_overrides_win_witness :
  match defineCollection [("name", plain_node "string")]
          (Some (mkConfig None
                   (Some [("name", [("sortable", VBool false); ("columnWidth", VNum 300)])])
                   None None None)) with
  | Ok c => forall fa, In ("name", fa) (fieldAffordances c) -> get "sortable" fa = VBool false
  | Throw => False
  end.
Proof.
  simpl. intros fa Hin.
  refine (@explicit_overrides_win [("name", plain_node "string")]
            (Some (mkConfig None
                     (Some [("name", [("sortable", VBool false); ("columnWidth", VNum 300)])])
                     None None None)) _ "name" fa "sortable" (VBool false)
            _ eq_refl Hin _ eq_refl _ _).
  - repeat constructor; simpl; tauto.
  - repeat constructor; simpl; intuition discriminate.
  - discriminate.
  - discriminate.
Defined.

(** X6. A collection resolves exactly one record per field of the
    schema, in declaration order; every record carries a title that is
    neither [undefined] nor [null] and, as [zodType], the base type of the
    field's node. *)
Theorem resolved_fields_invariant (shape : JsObject ZodSchema)
        (config : option CollectionConfig) (c : CollectionDefinition) :
  distinct_keys shape ->
  defineCollection shape config = Ok c ->
  keys (fieldAffordances c) = keys shape /\
  (forall key fa,
      In (key, fa) (fieldAffordances c) ->
      nullish (get "title" fa) = false /\
      exists schema tag,
        lookup key shape = Some schema /\
        getZodBaseType schema = Ok tag /\
        get "zodType" fa = VStr tag).
Proof.
  intros Hnd Hc.
  destruct (@defineCollection_inv shape config c Hc) as [_ Hfas].
  pose proof (@resolve_all_entries _ shape (fieldAffordances c) Hnd Hfas) as Hall.
  split; [exact (resolved_keys Hall)|].
  intros key fa Hin.
  destruct (@resolved_field_node _ shape (fieldAffordances c) key fa Hnd Hall Hin)
    as [s [inferred [zt [Hl [_ [Hz ->]]]]]].
  unfold resolved_record. split.
  - rewrite get_assign_other by discriminate. rewrite get_assign_same.
    unfold nullish_or. destruct (nullish (get "title" _)) eqn:E; [reflexivity|exact E].
  - exists s, zt. rewrite get_assign_same. auto.
Qed.

Lemma resolved_fields_invariant_witness :
  match defineCollection
          [("id", plain_node "string"); ("_", plain_node "number")] None with
  | Ok c => keys (fieldAffordances c) = ["id"; "_"]
  | Throw => False
  end.
Proof.
  refine (proj1 (@resolved_fields_invariant
                   [("id", plain_node "string"); ("_", plain_node "number")] None _ _ eq_refl)).
  repeat constructor; simpl; intuition discriminate.
Defined.

(* ====================================================================== *)
(** ** Humanized field names *)
(* ====================================================================== *)

Lemma to_upper_separator (c : ascii) :
  (Ascii.eqb (to_upper c) "_"%char || Ascii.eqb (to_upper c) "-"%char)
  = (Ascii.eqb c "_"%char || Ascii.eqb c "-"%char).
Proof. destruct c as [[] [] [] [] [] [] [] []]; reflexivity. Qed.

Lemma collapse_no_separator (in_run : bool) (s : string) :
  no_separator (collapse_separators in_run s) = true.
Proof.
  revert in_run. induction s as [|c rest IH]; intros in_run; [reflexivity|].
  cbn [collapse_separators].
  destruct (Ascii.eqb c "_"%char || Ascii.eqb c "-"%char) eqn:E.
  - destruct in_run; [apply IH|]. cbn [no_separator]. now rewrite IH.
  - cbn [no_separator]. now rewrite E, IH.
Qed.

Lemma capitalize_no_separator (prev : bool) (s : string) :
  no_separator s = true -> no_separator (capitalize_words prev s) = true.
Proof.
  revert prev. induction s as [|c rest IH]; intros prev; [reflexivity|].
  cbn [no_separator capitalize_words]. intros H.
  apply andb_true_iff in H. destruct H as [Hc Hr].
  rewrite (IH _ Hr), andb_true_r.
  destruct (is_word c && negb prev); [|exact Hc].
  now rewrite to_upper_separator.
Qed.

Lemma trim_start_no_separator (s : string) :
  no_separator s = true -> no_separator (trim_start s) = true.
Proof.
  induction s as [|c rest IH]; [reflexivity|].
  intros H. cbn [trim_start]. destruct (is_space c); [|exact H].
  cbn [no_separator] in H. apply andb_true_iff in H. now apply IH.
Qed.

Lemma string_rev_no_separator (s acc : string) :
  no_separator s = true -> no_separator acc = true ->
  no_separator (string_rev acc s) = true.
Proof.
  revert acc. induction s as [|c rest IH]; intros acc Hs Ha; [exact Ha|].
  cbn [no_separator] in Hs. apply andb_true_iff in Hs. destruct Hs as [Hc Hr].
  cbn [string_rev]. apply IH; [exact Hr|]. cbn [no_separator]. now rewrite Hc, Ha.
Qed.

(** X7. A humanized field name never holds an underscore or a hyphen,
    whatever the key. *)
Theorem humanized_without_separators (key : string) :
  no_separator (humanizeFieldName key) = true.
Proof.
  unfold humanizeFieldName, trim.
  apply string_rev_no_separator; [|reflexivity].
  apply trim_start_no_separator.
  apply string_rev_no_separator; [|reflexivity].
  apply trim_start_no_separator.
  apply capitalize_no_separator.
  apply collapse_no_separator.
Qed.

(* ====================================================================== *)
(** ** Identity detection *)
(* ====================================================================== *)

(** X8. The detected identifier field is [id] whenever the schema has a
    field of that name, it is a field of the schema whenever the schema
    has any field, and it is the literal [id] for an empty schema. *)
Theorem detected_id_is_a_field (shape : JsObject ZodSchema) :
  (has_key "id" shape = true -> detectIdField shape = "id") /\
  (shape <> [] -> In (detectIdField shape) (keys shape)) /\
  (shape = [] -> detectIdField shape = "id").
Proof.
  split; [|split].
  - intros H. unfold detectIdField. now rewrite H.
  - intros Hne. unfold detectIdField.
    destruct (has_key "id" shape) eqn:E1; [now apply has_key_In|].
    destruct (has_key "_id" shape) eqn:E2; [now apply has_key_In|].
    destruct (has_key "uuid" shape) eqn:E3; [now apply has_key_In|].
    destruct (has_key "key" shape) eqn:E4; [now apply has_key_In|].
    destruct (find _ (keys shape)) as [k|] eqn:Ef.
    + apply find_some in Ef. tauto.
    + destruct shape as [|[k s] rest]; [contradiction|]. simpl. now left.
  - intros ->. reflexivity.
Qed.

(** X9. The detected label field is the first field flagged
    [summaryField] when there is one; it is a field of the collection
    whenever the collection has any field, and the empty string otherwise. *)
Theorem detected_label_is_a_field (fas : JsObject Obj) :
  (forall before key fa after,
      fas = before ++ (key, fa) :: after ->
      truthy (get "summaryField" fa) = true ->
      (forall e, In e before -> truthy (get "summaryField" (snd e)) = false) ->
      detectLabelField fas = key) /\
  (fas <> [] -> In (detectLabelField fas) (keys fas)) /\
  (fas = [] -> detectLabelField fas = "").
Proof.
  split; [|split].
  - intros before key fa after -> Hfa Hbefore. unfold detectLabelField.
    rewrite (@find_first _ (fun e => truthy (get "summaryField" (snd e)))
                         before after (key, fa) Hfa Hbefore).
    reflexivity.
  - intros Hne. unfold detectLabelField.
    match goal with
    | |- context [find ?f fas] => destruct (find f fas) as [e|] eqn:E1
    end.
    { apply find_some in E1. destruct E1 as [E1 _]. now apply in_map. }
    destruct (find (fun name => has_key name fas) _) as [name|] eqn:E2.
    { apply find_some in E2. destruct E2 as [_ E2]. now apply has_key_In. }
    match goal with
    | |- context [find ?f fas] => destruct (find f fas) as [e|] eqn:E3
    end.
    { apply find_some in E3. destruct E3 as [E3 _]. now apply in_map. }
    destruct fas as [|[k fa] rest]; [contradiction|]. simpl. now left.
  - intros ->. reflexivity.
Qed.

(* ====================================================================== *)
(** ** Stable sorting by [order] *)
(* ====================================================================== *)

Lemma insert_by_perm (A : Type) (key : A -> Z) (x : A) (l : list A) :
  Permutation (insert_by key x l) (x :: l).
Proof.
  induction l as [|y l IH]; simpl; [reflexivity|].
  destruct (Z.ltb (key x) (key y)); [reflexivity|].
  rewrite IH. apply perm_swap.
Qed.

Lemma fold_insert_perm (A : Type) (key : A -> Z) (l acc : list A) :
  Permutation (fold_left (fun acc x => insert_by key x acc) l acc) (acc ++ l).
Proof.
  revert acc. induction l as [|x l IH]; intros acc; simpl.
  - now rewrite app_nil_r.
  - rewrite IH, insert_by_perm. apply Permutation_middle.
Qed.

Lemma sort_by_perm (A : Type) (key : A -> Z) (l : list A) :
  Permutation (sort_by key l) l.
Proof. unfold sort_by. now rewrite fold_insert_perm. Qed.

Lemma insert_by_ordered (A : Type) (key : A -> Z) (x : A) (l : list A) :
  ordered_by key l -> ordered_by key (insert_by key x l).
Proof.
  unfold ordered_by. induction 1 as [|y l Hs IH Hall]; simpl.
  - repeat constructor.
  - destruct (Z.ltb_spec (key x) (key y)) as [Hlt|Hge].
    + constructor; [now constructor|]. constructor; [lia|].
      eapply Forall_impl; [|exact Hall]. simpl. intros a Ha. lia.
    + constructor; [exact IH|].
      apply Forall_forall. intros z Hz.
      apply (Permutation_in _ (insert_by_perm A key x l)) in Hz.
      destruct Hz as [<-|Hz]; [lia|].
      rewrite Forall_forall in Hall. now apply Hall.
Qed.

Lemma sort_by_ordered (A : Type) (key : A -> Z) (l : list A) :
  ordered_by key (sort_by key l).
Proof.
  unfold sort_by.
  assert (forall acc, ordered_by key acc ->
                      ordered_by key (fold_left (fun acc x => insert_by key x acc) l acc))
    as H.
  { induction l as [|x l IH]; intros acc Hacc; simpl; [exact Hacc|].
    apply IH. now apply insert_by_ordered. }
  apply H. constructor.
Qed.

Lemma insert_by_last (A : Type) (key : A -> Z) (x : A) (l : list A) :
  Forall (fun y => (key y <= key x)%Z) l -> insert_by key x l = l ++ [x].
Proof.
  induction 1 as [|y l Hy _ IH]; simpl; [reflexivity|].
  destruct (Z.ltb_spec (key x) (key y)); [lia|]. now rewrite IH.
Qed.

Lemma ordered_prefix_le (A : Type) (key : A -> Z) (acc : list A) (x : A) (l : list A) :
  ordered_by key (acc ++ x :: l) -> Forall (fun y => (key y <= key x)%Z) acc.
Proof.
  unfold ordered_by. induction acc as [|a acc IH]; simpl; intros H; [constructor|].
  inversion H as [|? ? Hs Hall]; subst. constructor.
  - rewrite Forall_forall in Hall. apply Hall. apply in_or_app. right. now left.
  - now apply IH.
Qed.

Lemma fold_insert_ordered_id (A : Type) (key : A -> Z) (l acc : list A) :
  ordered_by key (acc ++ l) ->
  fold_left (fun acc x => insert_by key x acc) l acc = acc ++ l.
Proof.
  revert acc. induction l as [|x l IH]; intros acc H; simpl.
  - now rewrite app_nil_r.
  - rewrite (insert_by_last A key x acc (ordered_prefix_le A key acc x l H)).
    rewrite IH; rewrite <- app_assoc; [reflexivity | exact H].
Qed.

Lemma sort_by_ordered_id (A : Type) (key : A -> Z) (l : list A) :
  ordered_by key l -> sort_by key l = l.
Proof. intros H. unfold sort_by. now rewrite fold_insert_ordered_id. Qed.

Lemma constant_key_ordered (A : Type) (key : A -> Z) (n : Z) (l : list A) :
  (forall x, In x l -> key x = n) -> ordered_by key l.
Proof.
  unfold ordered_by. induction l as [|x l IH]; intros H; constructor.
  - apply IH. intros y Hy. apply H. now right.
  - apply Forall_forall. intros y Hy.
    rewrite (H x (or_introl eq_refl)), (H y (or_intror Hy)). lia.
Qed.

(** X10. The initial column order lists every field of the collection
    exactly once, and a collection without any explicit [order] keeps its
    declaration order.  When the [order] of every field is a number or
    absent, the fields are listed in non-decreasing [order] (999 for a
    field without one), and the sort is stable: fields that are already
    in order keep their declaration order. *)
Theorem initial_order_sorted_permutation (c : CollectionDefinition) :
  Permutation (buildInitialOrder c) (keys (fieldAffordances c)) /\
  ((forall e, In e (fieldAffordances c) -> nullish (get "order" (snd e)) = true) ->
   buildInitialOrder c = keys (fieldAffordances c)) /\
  (numeric_orders (fieldAffordances c) = true ->
   (exists entries,
       buildInitialOrder c = map fst entries /\
       Permutation entries (fieldAffordances c) /\
       ordered_by (fun e => order_of (snd e)) entries) /\
   (ordered_by (fun e => order_of (snd e)) (fieldAffordances c) ->
    buildInitialOrder c = keys (fieldAffordances c))).
Proof.
  unfold buildInitialOrder. split; [|split; [|intros _; split]].
  - unfold keys. apply Permutation_map. apply sort_by_perm.
  - intros H. rewrite sort_by_ordered_id; [reflexivity|].
    apply constant_key_ordered with (n := 999%Z). intros e He.
    specialize (H e He). unfold order_of, number_or.
    destruct (get "order" (snd e)); simpl in H; (discriminate || reflexivity).
  - eexists. split; [reflexivity|]. split; [apply sort_by_perm | apply sort_by_ordered].
  - intros H. now rewrite sort_by_ordered_id.
Qed.

Lemma visibility_of_distinct (c : CollectionDefinition) (k : string) (fa : Obj) :
  distinct_keys (fieldAffordances c) ->
  In (k, fa) (fieldAffordances c) ->
  lookup k (buildInitialVisibility c)
  = if hidden_or_not_visible fa then Some false else None.
Proof.
  intros Hd Hin. rewrite initial_visibility_lookup.
  destruct (existsb _ (fieldAffordances c)) eqn:E.
  - apply existsb_exists in E. destruct E as [[k' fa'] [Hin' Hk]]. simpl in Hk.
    apply andb_true_iff in Hk. destruct Hk as [Hk Hh].
    apply String.eqb_eq in Hk. subst k'.
    pose proof (In_lookup _ _ Hd Hin) as H1.
    pose proof (In_lookup _ _ Hd Hin') as H2.
    rewrite H1 in H2. inversion H2; subst. now rewrite Hh.
  - destruct (hidden_or_not_visible fa) eqn:Hh; [|reflexivity].
    assert (existsb (fun e => String.eqb k (fst e) && hidden_or_not_visible (snd e))
                    (fieldAffordances c) = true) as Hex.
    { apply existsb_exists. exists (k, fa). split; [exact Hin|]. simpl.
      now rewrite String.eqb_refl, Hh. }
    congruence.
Qed.

Lemma visible_fields_iff (c : CollectionDefinition) (k : string) :
  In k (getVisibleFields c) <->
  exists fa, In (k, fa) (fieldAffordances c) /\ shown_in_list fa = true.
Proof.
  unfold getVisibleFields. rewrite in_map_iff. split.
  - intros [[k' fa] [Hk Hin]]. simpl in Hk. subst k'.
    apply (Permutation_in _ (sort_by_perm _ _ _)) in Hin.
    apply filter_In in Hin. destruct Hin as [Hin Hs]. exists fa. split; assumption.
  - intros [fa [Hin Hs]]. exists (k, fa). split; [reflexivity|].
    apply (Permutation_in _ (Permutation_sym (sort_by_perm _ _ _))).
    apply filter_In. split; assumption.
Qed.

(** X11. The visible fields of a collection are exactly its fields that
    are not [visible: false], not hidden and not detail-only, and
    (the field keys being distinct) none of them has an entry in the
    initial column-visibility map of the store: the table columns and the
    hidden-column map never disagree. *)
Theorem visible_fields_are_not_hidden (c : CollectionDefinition) (k : string) :
  (In k (getVisibleFields c) <->
   exists fa, In (k, fa) (fieldAffordances c) /\ shown_in_list fa = true) /\
  (distinct_keys (fieldAffordances c) ->
   In k (getVisibleFields c) ->
   lookup k (buildInitialVisibility c) = None).
Proof.
  split; [apply visible_fields_iff|].
  intros Hd Hk. apply visible_fields_iff in Hk. destruct Hk as [fa [Hin Hs]].
  rewrite (visibility_of_distinct c k fa Hd Hin).
  unfold shown_in_list in Hs. unfold hidden_or_not_visible.
  apply andb_true_iff in Hs. destruct Hs as [Hs _].
  apply andb_true_iff in Hs. destruct Hs as [H1 H2].
  apply negb_true_iff in H1. apply negb_true_iff in H2. now rewrite H1, H2.
Qed.

(* ====================================================================== *)
(** ** The store: frames, reset, selection and pages *)
(* ====================================================================== *)

Lemma index_string_inj (i j : nat) : index_string i = index_string j -> i = j.
Proof.
  unfold index_string. intros H.
  apply (f_equal NilEmpty.uint_of_string) in H.
  rewrite !NilEmpty.usu in H. inversion H as [H'].
  now apply DecimalNat.Unsigned.to_uint_inj.
Qed.

Lemma select_all_fold (n a : nat) (acc : JsObject bool) :
  (forall k, In k (keys acc) -> exists i, i < a /\ k = index_string i) ->
  fold_left (fun selection i => assign (index_string i) true selection) (seq a n) acc
  = acc ++ map (fun i => (index_string i, true)) (seq a n).
Proof.
  revert a acc. induction n as [|n IH]; intros a acc Hacc; simpl.
  - now rewrite app_nil_r.
  - rewrite assign_fresh.
    + rewrite IH.
      * now rewrite <- app_assoc.
      * intros k Hk. unfold keys in Hk. rewrite map_app in Hk.
        apply in_app_or in Hk. simpl in Hk. destruct Hk as [Hk|[Hk|[]]].
        -- destruct (Hacc k Hk) as [i [Hi ->]]. exists i. split; [lia|reflexivity].
        -- exists a. split; [lia|now symmetry].
    + intros Hin. destruct (Hacc _ Hin) as [i [Hi Heq]].
      apply index_string_inj in Heq. lia.
Qed.

Lemma select_all_values (T : Type) (state : CollectionState T) :
  object_values (rowSelection (selectAll state))
  = map (fun _ => true) (seq 0 (List.length (items state))).
Proof.
  unfold selectAll. simpl. rewrite select_all_fold by (intros k []).
  simpl. unfold object_values. rewrite map_map. reflexivity.
Qed.

Lemma filter_all_true (A : Type) (l : list A) :
  filter (fun selected : bool => selected) (map (fun _ => true) l)
  = map (fun _ => true) l.
Proof. induction l as [|x l IH]; simpl; [reflexivity|now rewrite IH]. Qed.

(** X12. After [selectAll] every item is selected: the selected count is
    the number of items, [isAllSelected] holds exactly when there is at
    least one item, and [hasSelection] likewise.  After [clearSelection]
    nothing is selected.  Neither action touches the items. *)
Theorem select_all_selects_all (T : Type) (state : CollectionState T) :
  getSelectedCount (selectAll state) = List.length (items state) /\
  isAllSelected (selectAll state) = negb (Nat.eqb (List.length (items state)) 0) /\
  hasSelection (selectAll state) = negb (Nat.eqb (List.length (items state)) 0) /\
  getSelectedCount (clearSelection state) = 0 /\
  hasSelection (clearSelection state) = false /\
  isAllSelected (clearSelection state) = false /\
  items (selectAll state) = items state /\
  items (clearSelection state) = items state.
Proof.
  assert (getSelectedCount (selectAll state) = List.length (items state)) as Hcount.
  { unfold getSelectedCount. rewrite select_all_values, filter_all_true.
    now rewrite length_map, length_seq. }
  split; [exact Hcount|]. split; [|split].
  - unfold isAllSelected. rewrite Hcount. change (items (selectAll state)) with (items state).
    destruct (List.length (items state)); simpl; [reflexivity|]. now rewrite Nat.eqb_refl.
  - unfold hasSelection. rewrite select_all_values.
    destruct (List.length (items state)); reflexivity.
  - repeat split. unfold isAllSelected. simpl.
    destruct (List.length (items state)); reflexivity.
Qed.

Lemma page_count_bounds (T : Type) (state : CollectionState T) :
  (0 < pageSize (pagination state))%Z -> (0 <= totalCount state)%Z ->
  (0 <= getPageCount state)%Z /\
  (totalCount state <= getPageCount state * pageSize (pagination state))%Z /\
  ((getPageCount state - 1) * pageSize (pagination state) < totalCount state)%Z.
Proof.
  unfold getPageCount, ceil_div. intros Hps Ht.
  destruct (Z.eqb_spec (pageSize (pagination state)) 0) as [E|_]; [lia|].
  pose proof (Z.div_mod (- totalCount state) (pageSize (pagination state))) as Hdm.
  pose proof (Z.mod_pos_bound (- totalCount state) (pageSize (pagination state)) Hps)
    as Hb.
  assert (pageSize (pagination state) <> 0%Z) as Hne by lia.
  specialize (Hdm Hne).
  set (q := (- totalCount state / pageSize (pagination state))%Z) in *.
  set (r := (- totalCount state mod pageSize (pagination state))%Z) in *.
  nia.
Qed.

(** X13. With a positive page size and a non-negative total, the page
    count is the least number of pages that hold all the items: that many
    pages hold at least [totalCount] items and one page less holds fewer.
    A page size of zero gives zero pages. *)
Theorem page_count_covers_total (T : Type) (state : CollectionState T) :
  (pageSize (pagination state) = 0%Z -> getPageCount state = 0%Z) /\
  ((0 < pageSize (pagination state))%Z -> (0 <= totalCount state)%Z ->
   (0 <= getPageCount state)%Z /\
   (totalCount state <= getPageCount state * pageSize (pagination state))%Z /\
   ((getPageCount state - 1) * pageSize (pagination state) < totalCount state)%Z).
Proof.
  split.
  - unfold getPageCount. intros ->. reflexivity.
  - apply page_count_bounds.
Qed.

Lemma firstn_plus (A : Type) (a b : nat) (l : list A) :
  firstn (a + b) l = firstn a l ++ firstn b (skipn a l).
Proof.
  revert l. induction a as [|a IH]; intros l; simpl; [reflexivity|].
  destruct l as [|x l]; simpl.
  - now destruct b.
  - now rewrite IH.
Qed.

Lemma js_slice_page (A : Type) (l : list A) (a n : Z) :
  (0 <= a)%Z -> (0 <= n)%Z ->
  js_slice l a (a + n) = firstn (Z.to_nat n) (skipn (Z.to_nat a) l).
Proof.
  intros Ha Hn. unfold js_slice, relative_index.
  destruct (Z.ltb_spec a 0) as [|_]; [lia|].
  destruct (Z.ltb_spec (a + n) 0) as [|_]; [lia|].
  set (len := Z.of_nat (List.length l)).
  destruct (Z.le_gt_cases len a) as [Hle|Hgt].
  - rewrite (Z.min_r a len Hle).
    rewrite !skipn_all2 by (subst len; lia). now rewrite !firstn_nil.
  - rewrite (Z.min_l a len) by lia.
    destruct (Z.le_gt_cases (a + n) len) as [Hle2|Hgt2].
    + rewrite (Z.min_l (a + n) len Hle2). f_equal. lia.
    + rewrite (Z.min_r (a + n) len) by lia.
      rewrite !firstn_all2; [reflexivity| |]; rewrite length_skipn; subst len; lia.
Qed.

Lemma pages_concat (A : Type) (p n : nat) (l : list A) :
  List.concat (map (fun i => firstn p (skipn (i * p) l)) (seq 0 n)) = firstn (n * p) l.
Proof.
  induction n as [|n IH]; [reflexivity|].
  rewrite seq_S, map_app, concat_app, IH. simpl. rewrite app_nil_r.
  replace (p + n * p) with (n * p + p) by lia. now rewrite firstn_plus.
Qed.

(** X14. On a page with non-negative index and size, the visible items
    are the [pageSize] items that follow the first [pageIndex * pageSize]
    ones, so there are at most [pageSize] of them; and with a positive
    page size and a total equal to the number of items, the pages
    0 .. pageCount - 1, put one after the other, are the items: no item is
    lost or shown twice. *)
Theorem pages_partition_items (T : Type) (state : CollectionState T) :
  (0 <= pageIndex (pagination state))%Z ->
  (0 <= pageSize (pagination state))%Z ->
  getVisibleItems state
  = firstn (Z.to_nat (pageSize (pagination state)))
           (skipn (Z.to_nat (pageIndex (pagination state) * pageSize (pagination state)))
                  (items state)) /\
  List.length (getVisibleItems state) <= Z.to_nat (pageSize (pagination state)) /\
  ((0 < pageSize (pagination state))%Z ->
   totalCount state = Z.of_nat (List.length (items state)) ->
   List.concat (map (fun i =>
                  getVisibleItems
                    (setPagination state
                       (mkPagination (Z.of_nat i) (pageSize (pagination state)))))
               (seq 0 (Z.to_nat (getPageCount state))))
   = items state).
Proof.
  intros Hpi Hps.
  assert (forall i : Z, (0 <= i)%Z ->
            getVisibleItems
              (setPagination state (mkPagination i (pageSize (pagination state))))
            = firstn (Z.to_nat (pageSize (pagination state)))
                     (skipn (Z.to_nat (i * pageSize (pagination state))) (items state)))
    as Hpage.
  { intros i Hi. unfold getVisibleItems. simpl.
    replace ((i + 1) * pageSize (pagination state))%Z
      with (i * pageSize (pagination state) + pageSize (pagination state))%Z by lia.
    apply js_slice_page; nia. }
  assert (getVisibleItems state
          = firstn (Z.to_nat (pageSize (pagination state)))
                   (skipn (Z.to_nat (pageIndex (pagination state)
                                     * pageSize (pagination state))) (items state)))
    as Hthis.
  { rewrite <- (Hpage _ Hpi). unfold setPagination, with_pagination.
    destruct state as [? ? ? ? ? ? ? [pi ps] ? ? ? ?]. reflexivity. }
  split; [exact Hthis|]. split.
  - rewrite Hthis. apply firstn_le_length.
  - intros Hpos Htotal.
    destruct (page_count_bounds T state Hpos ltac:(lia)) as [Hn [Hcov _]].
    set (n := getPageCount state) in *.
    set (ps := pageSize (pagination state)) in *.
    rewrite (map_ext_in _ (fun i => firstn (Z.to_nat ps)
                                      (skipn (i * Z.to_nat ps) (items state)))).
    + rewrite pages_concat. apply firstn_all2. nia.
    + intros i _. rewrite Hpage by lia. f_equal. f_equal. nia.
Qed.

Lemma pages_partition_items_witness :
  getVisibleItems (mkState [1; 2; 3; 4; 5] 5 false None [] [] "" (mkPagination 1 2) [] [] [] [])
  = [3; 4].
Proof.
  exact (proj1 (pages_partition_items nat
           (mkState [1; 2; 3; 4; 5] 5 false None [] [] "" (mkPagination 1 2) [] [] [] [])
           ltac:(simpl; lia) ltac:(simpl; lia))).
Defined.

(** X15. The initial page of a store is page 0, and its page size comes
    from the resolved pagination: 25 when the config says nothing about
    pagination or [true], the [defaultPageSize] of a pagination object
    that carries a number, 25 for an object in which it is absent,
    [undefined] or [null], and 25 again when pagination is disabled.
    Nothing is said of a [defaultPageSize] of another type, which the
    store keeps as it is. *)
Theorem initial_page_size (T : Type) (shape : JsObject ZodSchema) (explicit : Obj)
        (operations_ : option (list Obj)) (idf lbf : option string)
        (fields : option (JsObject Obj)) (c : CollectionDefinition) :
  distinct_keys explicit ->
  defineCollection shape (Some (mkConfig (Some explicit) fields operations_ idf lbf)) = Ok c ->
  pageIndex (pagination (initialState T c)) = 0%Z /\
  (lookup "pagination" explicit = None \/
   lookup "pagination" explicit = Some (VBool true) \/
   lookup "pagination" explicit = Some (VBool false) ->
   pageSize (pagination (initialState T c)) = 25%Z) /\
  (forall partial,
      lookup "pagination" explicit = Some (VObj partial) -> distinct_keys partial ->
      (forall n, lookup "defaultPageSize" partial = Some (VNum n) ->
                 pageSize (pagination (initialState T c)) = n) /\
      (lookup "defaultPageSize" partial = None \/
       lookup "defaultPageSize" partial = Some VUndef \/
       lookup "defaultPageSize" partial = Some VNull ->
       pageSize (pagination (initialState T c)) = 25%Z)).
Proof.
  intros Hd Hc. unfold defineCollection in Hc.
  destruct (resolveAllFieldAffordances shape _) as [fas|]; simpl in Hc; [|discriminate].
  inversion Hc; subst c. clear Hc.
  unfold initialState. cbn [affordances pagination pageIndex pageSize].
  rewrite (resolved_pagination Hd).
  split; [reflexivity|]. split.
  - intros [->|[->| ->]]; reflexivity.
  - intros partial -> Hp. cbn [normalized truthy typeof own_props andb].
    rewrite String.eqb_refl. rewrite get_spread by assumption. split.
    + intros n ->. reflexivity.
    + intros [->|[->| ->]]; reflexivity.
Qed.

Lemma initial_page_size_witness :
  match defineCollection [("id", plain_node "string")]
          (Some (mkConfig (Some [("pagination", VObj [("defaultPageSize", VNum 50)])])
                          None None None None)) with
  | Ok c => pageSize (pagination (initialState unit c)) = 50%Z
  | Throw => False
  end.
Proof.
  refine (proj1 (proj2 (proj2 (initial_page_size unit [("id", plain_node "string")]
            [("pagination", VObj [("defaultPageSize", VNum 50)])] None None None None
            _ _ eq_refl)) [("defaultPageSize", VNum 50)] eq_refl _) 50%Z eq_refl).
  - repeat constructor. simpl. tauto.
  - repeat constructor. simpl. tauto.
Defined.

(* ====================================================================== *)
(** ** The generators on a resolved collection *)
(* ====================================================================== *)

Lemma for_each_collect_all (A B : Type) (step : list B -> A -> Result (list B))
      (P : A -> B -> Prop) (xs : list A) :
  (forall x, In x xs -> exists y, P x y /\ forall acc, step acc x = Ok (acc ++ [y])) ->
  forall acc, exists out, for_each step xs acc = Ok (acc ++ out) /\ Forall2 P xs out.
Proof.
  induction xs as [|x xs IH]; intros H acc; simpl.
  - exists []. split; [now rewrite app_nil_r | constructor].
  - destruct (H x (or_introl eq_refl)) as [y [Hy Hstep]].
    rewrite Hstep. cbn [bind].
    destruct (IH (fun z Hz => H z (or_intror Hz)) (acc ++ [y])) as [out [Hout Hall]].
    exists (y :: out). split.
    + rewrite Hout, <- app_assoc. reflexivity.
    + now constructor.
Qed.

Lemma Forall2_map_eq (A B C : Type) (f : A -> C) (g : B -> C) (P : A -> B -> Prop)
      (xs : list A) (ys : list B) :
  (forall x y, P x y -> g y = f x) -> Forall2 P xs ys -> map g ys = map f xs.
Proof.
  intros H. induction 1 as [|x y xs ys Hxy _ IH]; simpl; [reflexivity|].
  now rewrite (H x y Hxy), IH.
Qed.

Lemma Forall2_right (A B : Type) (P : A -> B -> Prop) (xs : list A) (ys : list B) (y : B) :
  Forall2 P xs ys -> In y ys -> exists x, In x xs /\ P x y.
Proof.
  induction 1 as [|x' y' xs ys Hxy _ IH]; intros Hin; [destruct Hin|].
  destruct Hin as [->|Hin].
  - exists x'. split; [now left|exact Hxy].
  - destruct (IH Hin) as [x [Hx Hp]]. exists x. split; [now right|exact Hp].
Qed.

(** What building a collection gives the generators: every resolved
    field has its node in the shape, the node unwraps, and the field keys
    are distinct. *)
Lemma built_collection (shape : JsObject ZodSchema) (config : option CollectionConfig)
      (c : CollectionDefinition) :
  distinct_keys shape ->
  defineCollection shape config = Ok c ->
  schema_shape c = shape /\
  keys (fieldAffordances c) = keys shape /\
  distinct_keys (fieldAffordances c) /\
  (forall key fa, In (key, fa) (fieldAffordances c) ->
                  exists s u, lookup key shape = Some s /\ unwrapZodSchema s = Ok u) /\
  (forall key s, In (key, s) shape ->
                 exists fa u, lookup key (fieldAffordances c) = Some fa /\
                              unwrapZodSchema s = Ok u).
Proof.
  intros Hnd Hc.
  destruct (@defineCollection_inv shape config c Hc) as [Hshape Hfas].
  pose proof (@resolve_all_entries _ shape (fieldAffordances c) Hnd Hfas) as Hall.
  pose proof (resolved_keys Hall) as Hkeys.
  assert (distinct_keys (fieldAffordances c)) as Hnd'
      by (unfold distinct_keys; now rewrite Hkeys).
  split; [exact Hshape|]. split; [exact Hkeys|]. split; [exact Hnd'|]. split.
  - intros key fa Hin.
    destruct (@resolved_field_node _ shape (fieldAffordances c) key fa Hnd Hall Hin)
      as [s [inf [zt [Hl [_ [Hb _]]]]]].
    destruct (base_type_unwraps s Hb) as [u Hu]. now exists s, u.
  - intros key s Hin.
    destruct (@resolved_of_field _ shape (fieldAffordances c) (key, s) Hall Hin)
      as [[k fa] [Hin' [Hk [inf [zt [_ [Hb _]]]]]]].
    simpl in Hk, Hb. subst k.
    destruct (base_type_unwraps s Hb) as [u Hu].
    exists fa, u. split; [now apply In_lookup | exact Hu].
Qed.

(** The filter configuration of a built collection, its enum members
    being strings. *)
Lemma filter_config_built (shape : JsObject ZodSchema)
      (config : option CollectionConfig) (c : CollectionDefinition) :
  distinct_keys shape ->
  defineCollection shape config = Ok c ->
  exists filters,
    toFilterConfig c = Ok filters /\
    Forall2 filter_entry_of (getFilterableFields c) filters /\
    map filter_name filters = map fst (getFilterableFields c) /\
    (forall f, In f filters ->
               exists fa, In (filter_name f, fa) (fieldAffordances c) /\
                          is_false (get "filterable" fa) = false).
Proof.
  intros Hnd Hc.
  destruct (built_collection shape config c Hnd Hc) as [Hshape [Hkeys [Hnd' [Hnode _]]]].
  destruct (for_each_collect_all _ _ (filter_step c) filter_entry_of (getFilterableFields c))
    with (acc := @nil FilterFieldConfig) as [out [Hout Hall]].
  { intros [key fa] Hfil. unfold getFilterableFields in Hfil.
    apply filter_In in Hfil. destruct Hfil as [Hin Hf]. simpl in Hf.
    destruct (Hnode key fa Hin) as [s [u [Hl Hu]]].
    assert (In key (keys (fieldAffordances c))) as Hkey
        by (change key with (fst (key, fa)); now apply in_map).
    destruct (@filter_field_total c key fa s u Hu Hkey) as [f [ev [Hf1 [_ [Hn [Ht _]]]]]].
    exists f. split.
    - split; [exact Hn|]. split; [exact Ht|]. simpl. now apply negb_true_iff.
    - intros acc. unfold filter_step. rewrite Hshape, Hl.
      destruct s as [|d mn mx mt]; [discriminate Hu|]. rewrite Hf1. reflexivity. }
  exists out. split; [exact Hout|]. split; [exact Hall|]. split.
  - apply (Forall2_map_eq _ _ _ fst filter_name filter_entry_of); [|exact Hall].
    intros x y [H _]. exact H.
  - intros f Hf. destruct (Forall2_right _ _ _ _ _ f Hall Hf) as [[key fa] [Hin [Hn [_ Hfalse]]]].
    simpl in Hn, Hfalse. exists fa. rewrite Hn. split; [|exact Hfalse].
    unfold getFilterableFields in Hin. apply filter_In in Hin. tauto.
Qed.

(** X16. On a collection built from a schema, whenever [toFilterConfig]
    returns, it returns one entry per filterable field, in declaration
    order, each under the name and with the filter type of its field; a
    field with [filterable: false] has no entry.  It does return when no
    field of the schema is an enum.  (For a select filter over an enum
    the source evaluates [v.charAt] on each member, which raises on a
    member that is not a string.) *)
Theorem filter_config_one_per_filterable_field (shape : JsObject ZodSchema)
        (config : option CollectionConfig) (c : CollectionDefinition) :
  distinct_keys shape ->
  defineCollection shape config = Ok c ->
  (forall filters,
      toFilterConfig c = Ok filters ->
      Forall2 filter_entry_of (getFilterableFields c) filters /\
      map filter_name filters = map fst (getFilterableFields c) /\
      (forall f, In f filters ->
                 exists fa, In (filter_name f, fa) (fieldAffordances c) /\
                            is_false (get "filterable" fa) = false)) /\
  ((forall key s, In (key, s) shape -> getEnumValues s = Ok None) ->
   exists filters, toFilterConfig c = Ok filters).
Proof.
  intros Hnd Hc.
  destruct (filter_config_built shape config c Hnd Hc) as [out [Hout Hrest]].
  split.
  - intros filters Hf. rewrite Hout in Hf. inversion Hf; subst filters. exact Hrest.
  - intros _. now exists out.
Qed.

Lemma filter_config_one_per_filterable_field_witness :
  match defineCollection
          [("id", plain_node "string"); ("meta", plain_node "object");
           ("status", enum_node STATUS_MEMBERS)] None with
  | Ok c =>
      match toFilterConfig c with
      | Ok filters => map filter_name filters = ["id"; "status"]
      | Throw => False
      end
  | Throw => False
  end.
Proof.
  exact (proj1 (proj2 (proj1 (filter_config_one_per_filterable_field
              [("id", plain_node "string"); ("meta", plain_node "object");
               ("status", enum_node STATUS_MEMBERS)] None _
              ltac:(repeat constructor; simpl; intuition discriminate) eq_refl)
            _ eq_refl))).
Defined.

Lemma data_column_total (c : CollectionDefinition) (key : string) (fa : Obj)
      (s u : ZodSchema) :
  unwrapZodSchema s = Ok u ->
  lookup key (fieldAffordances c) = Some fa ->
  exists col, data_column key fa s = Ok col /\ column_of c key col.
Proof.
  intros Hu Hfa. destruct (getEnumValues_total s Hu) as [ev Hev].
  unfold data_column. rewrite Hev, (getNumericBounds_unfold s Hu). cbn [bind].
  eexists. split; [reflexivity|].
  split; [reflexivity|]. split; [reflexivity|].
  exists fa. repeat split. exact Hfa.
Qed.

(** X17. On a collection built from a schema, [toColumnDefs] returns the
    selection column when the collection is selectable, then one data
    column per visible field, in the order of [getVisibleFields], then the
    actions column when there is an item-scoped operation, sized
    60 + 32 per operation after the first.  Every data column may be
    hidden by the user, since an explicitly hidden field is not a visible
    field. *)
Theorem column_defs_follow_visible_fields (shape : JsObject ZodSchema)
        (config : option CollectionConfig) (c : CollectionDefinition) :
  distinct_keys shape ->
  defineCollection shape config = Ok c ->
  exists data,
    toColumnDefs c
    = Ok ((if truthy (get "selectable" (affordances c))
           then [display_column "select" 40] else [])
          ++ data
          ++ match getOperations c "item" with
             | [] => []
             | ops => [display_column "actions"
                         (60 + (Z.of_nat (List.length ops) - 1) * 32)]
             end) /\
    Forall2 (column_of c) (getVisibleFields c) data /\
    map column_id data = getVisibleFields c /\
    (forall col, In col data -> enableHiding col = true).
Proof.
  intros Hnd Hc.
  destruct (built_collection shape config c Hnd Hc) as [Hshape [Hkeys [Hnd' [Hnode _]]]].
  assert (forall key, In key (getVisibleFields c) ->
            exists fa, lookup key (fieldAffordances c) = Some fa /\
                       shown_in_list fa = true /\
                       exists s u, lookup key shape = Some s /\ unwrapZodSchema s = Ok u)
    as Hvis.
  { intros key Hk. apply (visible_fields_iff c key) in Hk.
    destruct Hk as [fa [Hin Hs]]. exists fa.
    split; [now apply In_lookup|]. split; [exact Hs|]. now apply (Hnode key fa). }
  destruct (for_each_collect_all _ _ (column_step c) (column_of c) (getVisibleFields c))
    with (acc := if truthy (get "selectable" (affordances c))
                 then [display_column "select" 40] else [])
    as [data [Hdata Hall]].
  { intros key Hk. destruct (Hvis key Hk) as [fa [Hfa [_ [s [u [Hl Hu]]]]]].
    destruct (data_column_total c key fa s u Hu Hfa) as [col [Hcol Hof]].
    exists col. split; [exact Hof|].
    intros acc. unfold column_step. rewrite Hshape, Hl.
    destruct s as [|d mn mx mt]; [discriminate Hu|]. rewrite Hfa, Hcol. reflexivity. }
  exists data. split; [|split; [exact Hall|split]].
  - unfold toColumnDefs. rewrite Hdata. cbn [bind].
    destruct (getOperations c "item"); [now rewrite app_nil_r|].
    now rewrite <- app_assoc.
  - transitivity (map (fun k : string => k) (getVisibleFields c)); [|apply map_id].
    apply (Forall2_map_eq _ _ _ (fun k => k) column_id (column_of c)); [|exact Hall].
    intros x y [H _]. exact H.
  - intros col Hin.
    destruct (Forall2_right _ _ _ _ _ col Hall Hin) as [key [Hk [_ [_ [fa [Hfa [_ [Hh _]]]]]]]].
    destruct (Hvis key Hk) as [fa' [Hfa' [Hs _]]].
    rewrite Hfa in Hfa'. inversion Hfa'; subst fa'.
    rewrite Hh. unfold shown_in_list in Hs.
    apply andb_true_iff in Hs. destruct Hs as [Hs _].
    apply andb_true_iff in Hs. tauto.
Qed.

Lemma column_defs_follow_visible_fields_witness :
  match defineCollection
          [("id", plain_node "string"); ("name", plain_node "string");
           ("price", plain_node "number")]
          (Some (mkConfig None None
                   (Some [[("name", VStr "archive"); ("label", VStr "Archive");
                           ("scope", VStr "item")];
                          [("name", VStr "open"); ("label", VStr "Open");
                           ("scope", VStr "item")]])
                   None None)) with
  | Ok c => exists data,
      toColumnDefs c
      = Ok ([display_column "select" 40] ++ data ++ [display_column "actions" 92]) /\
      map column_id data = ["name"; "price"]
  | Throw => False
  end.
Proof.
  destruct (column_defs_follow_visible_fields
              [("id", plain_node "string"); ("name", plain_node "string");
               ("price", plain_node "number")]
              (Some (mkConfig None None
                       (Some [[("name", VStr "archive"); ("label", VStr "Archive");
                               ("scope", VStr "item")];
                              [("name", VStr "open"); ("label", VStr "Open");
                               ("scope", VStr "item")]])
                       None None)) _
              ltac:(repeat constructor; simpl; intuition discriminate) eq_refl)
    as [data [H1 [_ [H2 _]]]].
  exists data. split; [exact H1 | exact H2].
Defined.

Lemma form_fold (c : CollectionDefinition) (mode : FormMode)
      (entries : JsObject ZodSchema) :
  (forall key s, In (key, s) entries ->
                 exists fa u, lookup key (fieldAffordances c) = Some fa /\
                              unwrapZodSchema s = Ok u) ->
  forall fields n,
  exists out n',
    for_each (form_step c mode) entries (fields, n) = Ok (fields ++ out, n') /\
    map form_name out = filter (in_form c mode) (map fst entries) /\
    Forall (form_field_of c mode) out.
Proof.
  induction entries as [|[key s] rest IH]; intros H fields n; cbn [for_each].
  - exists [], n. rewrite app_nil_r. repeat split. constructor.
  - destruct (H key s (or_introl eq_refl)) as [fa [u [Hfa Hu]]].
    destruct (getEnumValues_total s Hu) as [ev Hev].
    assert (forall k s', In (k, s') rest ->
              exists fa' u', lookup k (fieldAffordances c) = Some fa' /\
                             unwrapZodSchema s' = Ok u') as Hrest
        by (intros k s' Hin; apply H; now right).
    cbn [map fst filter]. unfold in_form at 1. rewrite Hfa.
    unfold form_step at 1. rewrite Hfa.
    destruct (form_skips mode fa) eqn:Hskip; cbn [bind negb].
    + destruct (IH Hrest fields n) as [out [n' [Hout [Hnames Hall]]]].
      exists out, n'. auto.
    + rewrite Hev. cbn [bind].
      match goal with
      | |- context [for_each _ rest (fields ++ [?f], ?m)] =>
          destruct (IH Hrest (fields ++ [f]) m) as [out [n' [Hout [Hnames Hall]]]];
          exists (f :: out), n'
      end.
      split; [rewrite Hout, <- app_assoc; reflexivity|]. split.
      * simpl. now rewrite Hnames.
      * constructor; [|exact Hall]. exists fa. simpl. auto.
Qed.

(** The form configuration of a built collection, its enum members
    being strings and the [order] of its fields numbers. *)
Lemma form_config_built (shape : JsObject ZodSchema)
      (config : option CollectionConfig) (c : CollectionDefinition) (mode : FormMode) :
  distinct_keys shape ->
  defineCollection shape config = Ok c ->
  exists fields,
    toFormConfig c mode = Ok fields /\
    ordered_by form_order fields /\
    Permutation (map form_name fields) (filter (in_form c mode) (keys shape)) /\
    (forall f, In f fields ->
       exists fa,
         lookup (form_name f) (fieldAffordances c) = Some fa /\
         truthy (get "hidden" fa) = false /\
         disabled f = is_false (get "editable" fa) /\
         match mode with
         | EditMode =>
             disabled f = false /\
             is_false (get "readable" fa) = false /\
             truthy (get "immutableAfterCreate" fa) = false
         | CreateMode =>
             disabled f = true -> truthy (get "requiredOnCreate" fa) = true
         end).
Proof.
  intros Hnd Hc.
  destruct (built_collection shape config c Hnd Hc) as [Hshape [_ [_ [_ Hfield]]]].
  destruct (form_fold c mode shape Hfield [] 0%Z) as [out [n' [Hout [Hnames Hall]]]].
  exists (sort_by form_order out). split; [|split; [|split]].
  - unfold toFormConfig. rewrite Hshape, Hout. reflexivity.
  - apply sort_by_ordered.
  - unfold keys. rewrite <- Hnames. apply Permutation_map. apply sort_by_perm.
  - intros f Hf. apply (Permutation_in _ (sort_by_perm _ form_order out)) in Hf.
    rewrite Forall_forall in Hall. destruct (Hall f Hf) as [fa [Hfa [Hskip [Hdis _]]]].
    exists fa. split; [exact Hfa|].
    destruct mode; simpl in Hskip.
    + apply orb_false_iff in Hskip. destruct Hskip as [Hreq Hh].
      split; [exact Hh|]. split; [exact Hdis|].
      intros Hd. rewrite Hdis in Hd. rewrite Hd in Hreq. simpl in Hreq.
      now apply negb_false_iff in Hreq.
    + apply orb_false_iff in Hskip. destruct Hskip as [Hskip Himm].
      apply orb_false_iff in Hskip. destruct Hskip as [Hskip Hh].
      apply orb_false_iff in Hskip. destruct Hskip as [Hread Hed].
      split; [exact Hh|]. split; [exact Hdis|].
      split; [now rewrite Hdis|]. split; assumption.
Qed.

(** X18. On a collection built from a schema, whenever [toFormConfig]
    returns, it returns one form field for each field the mode does not
    skip, in non-decreasing [order] when the [order] of every field is a
    number or absent.  A form never holds a hidden field.  No field of an
    edit form is disabled, non-readable or immutable after creation; a
    disabled field of a create form is one that is required on create.
    It does return when no field of the schema is an enum.  (For an enum
    field the source evaluates [v.charAt] on each member, which raises on
    a member that is not a string.) *)
Theorem form_config_fields (shape : JsObject ZodSchema)
        (config : option CollectionConfig) (c : CollectionDefinition) (mode : FormMode) :
  distinct_keys shape ->
  defineCollection shape config = Ok c ->
  (forall fields,
      toFormConfig c mode = Ok fields ->
      (numeric_orders (fieldAffordances c) = true -> ordered_by form_order fields) /\
      Permutation (map form_name fields) (filter (in_form c mode) (keys shape)) /\
      (forall f, In f fields ->
         exists fa,
           lookup (form_name f) (fieldAffordances c) = Some fa /\
           truthy (get "hidden" fa) = false /\
           disabled f = is_false (get "editable" fa) /\
           match mode with
           | EditMode =>
               disabled f = false /\
               is_false (get "readable" fa) = false /\
               truthy (get "immutableAfterCreate" fa) = false
           | CreateMode =>
               disabled f = true -> truthy (get "requiredOnCreate" fa) = true
           end)) /\
  ((forall key s, In (key, s) shape -> getEnumValues s = Ok None) ->
   exists fields, toFormConfig c mode = Ok fields).
Proof.
  intros Hnd Hc.
  destruct (form_config_built shape config c mode Hnd Hc) as [out [Hout [Hord Hrest]]].
  split.
  - intros fields Hf. rewrite Hout in Hf. inversion Hf; subst fields.
    split; [intros _; exact Hord | exact Hrest].
  - intros _. now exists out.
Qed.

Lemma form_config_fields_witness :
  match defineCollection
          [("id", plain_node "string"); ("name", plain_node "string");
           ("createdAt", plain_node "date")] None with
  | Ok c =>
      match toFormConfig c EditMode with
      | Ok fields => Permutation (map form_name fields) ["name"]
      | Throw => False
      end
  | Throw => False
  end.
Proof.
  exact (proj1 (proj2 (proj1 (form_config_fields
              [("id", plain_node "string"); ("name", plain_node "string");
               ("createdAt", plain_node "date")] None _ EditMode
              ltac:(repeat constructor; simpl; intuition discriminate) eq_refl)
            _ eq_refl))).
Defined.

(* ====================================================================== *)
(** ** Code generation: what each mode emits *)
(* ====================================================================== *)

Lemma fold_left_ext_eq (A B : Type) (f g : B -> A -> B) (l : list A) (b : B) :
  (forall acc x, f acc x = g acc x) -> fold_left f l b = fold_left g l b.
Proof.
  intros H. revert b. induction l as [|x l IH]; intros b; simpl; [reflexivity|].
  now rewrite H, IH.
Qed.

(** A loop that assigns [val p] under [p] for the names [p] of a list
    that satisfy [cond]. *)
Lemma cond_assign_lookup (A : Type) (cond : string -> bool) (val : string -> A)
      (l : list string) (acc : JsObject A) (p : string) :
  lookup p (fold_left (fun props q => if cond q then assign q (val q) props else props)
                      l acc)
  = if one_of l p && cond p then Some (val p) else lookup p acc.
Proof.
  unfold one_of. revert acc. induction l as [|x l IH]; intros acc; simpl; [reflexivity|].
  rewrite IH. clear IH.
  destruct (existsb (String.eqb p) l) eqn:E1; destruct (cond p) eqn:E2; simpl;
    rewrite ?orb_true_r, ?orb_false_r, ?andb_false_r; simpl; try reflexivity.
  - destruct (String.eqb_spec p x) as [->|Hne]; simpl.
    + rewrite E2. reflexivity.
    + destruct (cond x); [now apply lookup_assign_other|reflexivity].
  - destruct (String.eqb_spec p x) as [->|Hne]; simpl.
    + rewrite E2. apply lookup_assign_same.
    + destruct (cond x); [now apply lookup_assign_other|reflexivity].
  - destruct (String.eqb_spec p x) as [->|Hne]; simpl.
    + rewrite E2. reflexivity.
    + destruct (cond x); [now apply lookup_assign_other|reflexivity].
Qed.

Lemma valueEqual_primitive (JSON_stringify : Value -> string) (a b : Value) :
  is_primitive a = true -> valueEqual JSON_stringify a b = true -> a = b.
Proof.
  destruct a as [| |x|x|x|x|x|]; destruct b as [| |y|y|y|y|y|]; simpl;
    try discriminate; try reflexivity; intros _ H.
  - apply Bool.eqb_prop in H. now subst.
  - apply Z.eqb_eq in H. now subst.
  - apply String.eqb_eq in H. now subst.
Qed.

Lemma diff_props_lookup (JSON_stringify : Value -> string)
      (key : string) (fa inferred : Obj) (p : string) :
  lookup p (diff_props JSON_stringify key fa inferred)
  = (if one_of FIELD_PROP_ORDER p
        && (negb (is_undefined (get p fa))
            && negb (valueEqual JSON_stringify (get p fa) (diff_baseline key inferred p)))
     then Some (get p fa) else None).
Proof.
  unfold diff_props.
  rewrite (fold_left_ext_eq _ _ _
             (fun props q =>
                if negb (is_undefined (get q fa))
                   && negb (valueEqual JSON_stringify (get q fa)
                                       (diff_baseline key inferred q))
                then assign q (get q fa) props else props)).
  - now rewrite cond_assign_lookup.
  - intros acc q. unfold diff_baseline.
    destruct (is_undefined (get q fa)); [reflexivity|]. simpl.
    now destruct (valueEqual _ _ _).
Qed.

Lemma diff_props_distinct (JSON_stringify : Value -> string)
      (key : string) (fa inferred : Obj) :
  distinct_keys (diff_props JSON_stringify key fa inferred).
Proof.
  unfold diff_props. cbv zeta. apply fold_assign_distinct; [|constructor].
  intros acc x Hacc. destruct (is_undefined _); [exact Hacc|].
  destruct (valueEqual _ _ _); [exact Hacc|now apply assign_distinct].
Qed.

(** X19. Diff mode emits, for a field, exactly the properties of the
    canonical list whose resolved value is defined and differs from the
    freshly inferred baseline, each with its resolved value; computed
    properties such as [zodType] are never emitted. A primitive value
    is left out only when the baseline is that very value. *)
Theorem diff_emits_exactly_the_differences (JSON_stringify : Value -> string)
        (key : string) (fa inferred : Obj) (p : string) :
  lookup p (diff_props JSON_stringify key fa inferred)
  = (if one_of FIELD_PROP_ORDER p
        && (negb (is_undefined (get p fa))
            && negb (valueEqual JSON_stringify (get p fa) (diff_baseline key inferred p)))
     then Some (get p fa) else None) /\
  (one_of COMPUTED_PROPS p = true ->
   lookup p (diff_props JSON_stringify key fa inferred) = None) /\
  (one_of FIELD_PROP_ORDER p = true ->
   is_undefined (get p fa) = false -> is_primitive (get p fa) = true ->
   lookup p (diff_props JSON_stringify key fa inferred) = None ->
   get p fa = diff_baseline key inferred p).
Proof.
  pose proof (diff_props_lookup JSON_stringify key fa inferred p) as Hclosed.
  split; [exact Hclosed|]. split.
  - intros Hc. rewrite Hclosed.
    unfold one_of, COMPUTED_PROPS in Hc. simpl in Hc.
    destruct (String.eqb_spec p "zodType") as [->|_]; [reflexivity|].
    destruct (String.eqb_spec p "zodDef") as [->|_]; [reflexivity|discriminate].
  - intros Hin Hdef Hprim. rewrite Hclosed, Hin, Hdef. simpl.
    destruct (valueEqual _ _ _) eqn:E; [|discriminate]. intros _.
    now apply (valueEqual_primitive JSON_stringify).
Qed.

(** A loop over the entries of an object with distinct keys that
    re-assigns the entries satisfying [cond]. *)
Lemma entries_assign_lookup (cond : string * Value -> bool) (o : Obj) (acc : Obj)
      (p : string) :
  distinct_keys o ->
  lookup p (fold_left (fun props kv => if cond kv then assign (fst kv) (snd kv) props
                                       else props) o acc)
  = match lookup p o with
    | Some v => if cond (p, v) then Some v else lookup p acc
    | None => lookup p acc
    end.
Proof.
  unfold distinct_keys. revert acc.
  induction o as [|[k v] rest IH]; intros acc Hd; simpl; [reflexivity|].
  inversion Hd as [|? ? Hnotin Hd']; subst.
  rewrite (IH _ Hd'). clear IH.
  destruct (String.eqb_spec p k) as [->|Hne].
  - destruct (lookup k rest) eqn:E.
    + exfalso. apply Hnotin. apply lookup_In in E.
      change k with (fst (k, v0)). now apply in_map.
    + destruct (cond (k, v)); [apply lookup_assign_same|reflexivity].
  - destruct (lookup p rest) as [w|].
    + destruct (cond (p, w)); [reflexivity|].
      destruct (cond (k, v)); [now apply lookup_assign_other|reflexivity].
    + destruct (cond (k, v)); [now apply lookup_assign_other|reflexivity].
Qed.

Lemma full_props_lookup (fa : Obj) (p : string) :
  distinct_keys fa ->
  lookup p (full_props fa)
  = if one_of COMPUTED_PROPS p || is_undefined (get p fa) then None
    else Some (get p fa).
Proof.
  intros Hd. unfold full_props.
  rewrite (entries_assign_lookup _ fa _ p Hd).
  rewrite (fold_left_ext_eq _ _ _
             (fun props q => if negb (is_undefined (get q fa))
                             then assign q (get q fa) props else props)
             FIELD_PROP_ORDER [])
    by (intros acc q; now destruct (is_undefined (get q fa))).
  rewrite (cond_assign_lookup _ (fun q => negb (is_undefined (get q fa)))
                              (fun q => get q fa)).
  assert (one_of COMPUTED_PROPS p = true -> one_of FIELD_PROP_ORDER p = false) as Hcomp.
  { intros Ec. unfold one_of, COMPUTED_PROPS in Ec. simpl in Ec.
    destruct (String.eqb_spec p "zodType") as [->|_]; [reflexivity|].
    destruct (String.eqb_spec p "zodDef") as [->|_]; [reflexivity|discriminate]. }
  unfold get. destruct (lookup p fa) as [v|] eqn:E; cbn [fst snd lookup].
  - destruct (is_undefined v) eqn:Eu; cbn [negb andb].
    + rewrite andb_false_r, orb_true_r. reflexivity.
    + rewrite andb_true_r, orb_false_r.
      destruct (one_of COMPUTED_PROPS p) eqn:Ec; cbn [negb andb].
      * now rewrite (Hcomp eq_refl).
      * now destruct (one_of FIELD_PROP_ORDER p).
  - cbn [is_undefined negb]. rewrite andb_false_r, orb_true_r. reflexivity.
Qed.

Lemma full_props_distinct (fa : Obj) : distinct_keys (full_props fa).
Proof.
  unfold full_props. apply fold_assign_distinct.
  - intros acc x Hacc. destruct (_ && _); [now apply assign_distinct|exact Hacc].
  - apply fold_assign_distinct; [|constructor].
    intros acc x Hacc. destruct (is_undefined _); [exact Hacc|now apply assign_distinct].
Qed.

(** X20. Full mode emits, for a field whose record has distinct keys,
    every property of the record that is defined and not computed, with
    its value: reading any property off the emitted object gives what the
    record holds, except [zodType] and [zodDef], which are never emitted. *)
Theorem full_mode_keeps_every_property (fa : Obj) (p : string) :
  distinct_keys fa ->
  get p (full_props fa) = (if one_of COMPUTED_PROPS p then VUndef else get p fa) /\
  (has_key p (full_props fa) = true <->
   one_of COMPUTED_PROPS p = false /\ is_undefined (get p fa) = false).
Proof.
  intros Hd. pose proof (full_props_lookup fa p Hd) as Hl. split.
  - unfold get at 1. rewrite Hl.
    destruct (one_of COMPUTED_PROPS p); [reflexivity|]. simpl.
    destruct (is_undefined (get p fa)) eqn:E; [|reflexivity].
    now destruct (get p fa).
  - unfold has_key. rewrite Hl.
    destruct (one_of COMPUTED_PROPS p); simpl; [split; [discriminate|intros [H _]; discriminate]|].
    destruct (is_undefined (get p fa)); split; auto; try discriminate.
    intros [_ H]. discriminate.
Qed.

Lemma full_mode_keeps_every_property_witness :
  get "filterable" (full_props STATUS_RESOLVED) = VStr "select" /\
  get "zodType" (full_props STATUS_RESOLVED) = VUndef.
Proof.
  split.
  - exact (proj1 (full_mode_keeps_every_property STATUS_RESOLVED "filterable"
                    ltac:(repeat constructor; simpl; intuition discriminate))).
  - exact (proj1 (full_mode_keeps_every_property STATUS_RESOLVED "zodType"
                    ltac:(repeat constructor; simpl; intuition discriminate))).
Defined.

(* ====================================================================== *)
(** ** Code generation: feeding the output back in *)
(* ====================================================================== *)

Ltac distinct_step :=
  match goal with
  | |- distinct_keys (if ?c then _ else _) => destruct c
  | |- distinct_keys (match ?c with Some _ => _ | None => _ end) => destruct c
  | |- distinct_keys (assign _ _ _) => apply assign_distinct
  | |- distinct_keys (spread _ _) => apply spread_distinct
  | |- distinct_keys (fold_left _ _ _) => apply fold_assign_distinct
  end.

Lemma type_defaults_distinct (zodType : string) : distinct_keys (getTypeDefaults zodType).
Proof.
  unfold getTypeDefaults.
  repeat match goal with |- distinct_keys (if ?c then _ else _) => destruct c end;
    unfold distinct_keys; cbv [keys map fst STRING_FIELD_DEFAULTS NUMBER_FIELD_DEFAULTS
      BOOLEAN_FIELD_DEFAULTS ENUM_FIELD_DEFAULTS DATE_FIELD_DEFAULTS ARRAY_FIELD_DEFAULTS
      OBJECT_FIELD_DEFAULTS UNKNOWN_FIELD_DEFAULTS];
    repeat (constructor; [simpl; intuition discriminate|]); constructor.
Qed.

Lemma refine_check_distinct (refined : Obj) (check : ZodCheck) :
  distinct_keys refined -> distinct_keys (refine_check refined check).
Proof.
  intros H. unfold refine_check. cbv zeta. repeat distinct_step; exact H.
Qed.

Lemma refine_def_distinct (def : ZodDef) (defaults : Obj) :
  distinct_keys defaults -> distinct_keys (refine_def def defaults).
Proof.
  intros H. unfold refine_def. cbv zeta.
  repeat first [distinct_step | exact H | exact refine_check_distinct].
Qed.

Lemma refineByFieldName_distinct (key : string) (defaults : Obj) :
  distinct_keys defaults -> distinct_keys (refineByFieldName key defaults).
Proof.
  intros H. unfold refineByFieldName, identifier_patch, created_patch, updated_patch,
    deleted_patch, secret_patch, email_patch, name_patch, description_patch, image_patch,
    status_patch. cbv zeta.
  repeat first [distinct_step | exact H].
Qed.

Lemma inferred_distinct (key : string) (schema : ZodSchema) (r : Obj) :
  inferFieldAffordances key schema = Ok r -> distinct_keys r.
Proof.
  intros Hr. destruct (@inferFieldAffordances_layers key schema r Hr)
    as [tag [refined [_ [Href ->]]]].
  assert (distinct_keys refined) as Hd.
  { unfold refineByValidations in Href.
    destruct (unwrapZodSchema schema) as [u|]; simpl in Href; [|discriminate].
    destruct (zod_def u) as [def|]; inversion Href; subst.
    - apply refine_def_distinct, type_defaults_distinct.
    - apply type_defaults_distinct. }
  unfold finish_inference, getZodMeta.
  repeat first [distinct_step | now apply refineByFieldName_distinct].
Qed.

Lemma resolved_record_distinct (explicit : option (JsObject Obj)) (key : string)
      (inferred : Obj) (zodType : string) :
  distinct_keys inferred -> distinct_keys (resolved_record explicit key inferred zodType).
Proof.
  intros H. unfold resolved_record. cbv zeta. repeat distinct_step. exact H.
Qed.

(** A loop that stores a non-empty object [g k fa] under each key [k] of
    its entries, read by key the way [resolveAllFieldAffordances] reads
    explicit overrides. *)
Lemma keyed_loop_lookup (step : JsObject Obj -> string * Obj -> Result (JsObject Obj))
      (g : string -> Obj -> Obj) (entries : JsObject Obj) :
  (forall acc k fa, In (k, fa) entries ->
     step acc (k, fa) = Ok (match g k fa with [] => acc | props => assign k props acc end)) ->
  distinct_keys entries ->
  forall acc,
    (forall k, In k (keys entries) -> lookup k acc = None) ->
    exists fields,
      for_each step entries acc = Ok fields /\
      forall key,
        explicit_overrides (Some fields) key
        = match lookup key entries with
          | Some fa => g key fa
          | None => explicit_overrides (Some acc) key
          end.
Proof.
  unfold distinct_keys.
  induction entries as [|[k fa] rest IH]; intros Hstep Hd acc Hfresh; cbn [for_each].
  - exists acc. split; [reflexivity|]. intros key. reflexivity.
  - inversion Hd as [|? ? Hnotin Hd']; subst.
    rewrite (Hstep acc k fa (or_introl eq_refl)). cbn [bind].
    set (acc1 := match g k fa with [] => acc | props => assign k props acc end).
    assert (forall key, explicit_overrides (Some acc1) key
                        = if String.eqb key k then g k fa
                          else explicit_overrides (Some acc) key) as Hacc1.
    { intros key. subst acc1. unfold explicit_overrides.
      destruct (g k fa) as [|e props] eqn:Eg.
      - destruct (String.eqb_spec key k) as [Heq|Hne]; [subst key|reflexivity].
        now rewrite (Hfresh k (or_introl eq_refl)).
      - destruct (String.eqb_spec key k) as [Heq|Hne]; [subst key|].
        + now rewrite lookup_assign_same.
        + now rewrite lookup_assign_other. }
    destruct (IH (fun a k' fa' H => Hstep a k' fa' (or_intror H)) Hd' acc1)
      as [fields [Hf Hl]].
    { intros k' Hk'.
      assert (k' <> k) as Hne by (intros Heq; subst k'; contradiction).
      subst acc1. destruct (g k fa).
      - apply Hfresh. now right.
      - rewrite lookup_assign_other by exact Hne. apply Hfresh. now right. }
    exists fields. split; [exact Hf|]. intros key. rewrite Hl. cbn [lookup].
    destruct (lookup key rest) as [fa'|] eqn:Er.
    + destruct (String.eqb_spec key k) as [Heq|Hne]; [subst key|reflexivity].
      exfalso. apply Hnotin. apply lookup_In in Er.
      change k with (fst (k, fa')). now apply in_map.
    + rewrite Hacc1. destruct (String.eqb_spec key k) as [Heq|Hne]; [now subst key|reflexivity].
Qed.

Lemma full_fields_lookup (JSON_stringify : Value -> string) (c : CollectionDefinition) :
  distinct_keys (fieldAffordances c) ->
  exists fields,
    buildFieldsObject JSON_stringify c false = Ok fields /\
    forall key fa, In (key, fa) (fieldAffordances c) ->
                   explicit_overrides (Some fields) key = full_props fa.
Proof.
  intros Hd.
  destruct (keyed_loop_lookup (fields_step JSON_stringify c false)
              (fun _ fa => full_props fa) (fieldAffordances c)) with (acc := @nil (string * Obj))
    as [fields [Hf Hl]].
  - intros acc k fa _. unfold fields_step. cbn [bind]. now destruct (full_props fa).
  - exact Hd.
  - reflexivity.
  - exists fields. split; [exact Hf|]. intros key fa Hin.
    now rewrite Hl, (@In_lookup _ key fa (fieldAffordances c) Hd Hin).
Qed.

Lemma diff_fields_lookup (JSON_stringify : Value -> string) (c : CollectionDefinition) :
  distinct_keys (fieldAffordances c) ->
  (forall key fa, In (key, fa) (fieldAffordances c) ->
     exists s inferred, lookup key (schema_shape c) = Some s /\
                        inferFieldAffordances key s = Ok inferred) ->
  exists fields,
    buildFieldsObject JSON_stringify c true = Ok fields /\
    forall key fa, In (key, fa) (fieldAffordances c) ->
                   explicit_overrides (Some fields) key = field_diff JSON_stringify c key fa.
Proof.
  intros Hd Hinf.
  destruct (keyed_loop_lookup (fields_step JSON_stringify c true)
              (field_diff JSON_stringify c) (fieldAffordances c)) with (acc := @nil (string * Obj))
    as [fields [Hf Hl]].
  - intros acc k fa Hin. destruct (Hinf k fa Hin) as [s [inferred [Hs Hi]]].
    unfold fields_step, field_diff. rewrite Hs.
    destruct s as [|d mn mx mt]; [discriminate Hi|]. rewrite Hi. cbn [bind].
    now destruct (diff_props JSON_stringify k fa inferred).
  - exact Hd.
  - reflexivity.
  - exists fields. split; [exact Hf|]. intros key fa Hin.
    now rewrite Hl, (@In_lookup _ key fa (fieldAffordances c) Hd Hin).
Qed.

Lemma nullish_or_defined (v d : Value) :
  nullish d = false -> nullish (nullish_or v d) = false.
Proof. unfold nullish_or. now destruct (nullish v) eqn:E. Qed.

Lemma not_nullish_defined (v : Value) : nullish v = false -> is_undefined v = false.
Proof. now destruct v. Qed.

(** X21. Feeding the per-field objects of full mode back as the explicit
    overrides of the same shape rebuilds the collection's fields: the
    generation succeeds, the definition succeeds, the fields are the same
    in the same order, and every property a resolved record defines,
    [zodDef] apart, has the same value in the rebuilt record. *)
Theorem full_output_rebuilds_the_fields (JSON_stringify : Value -> string)
        (shape : JsObject ZodSchema) (config : option CollectionConfig)
        (c : CollectionDefinition) :
  distinct_keys shape ->
  defineCollection shape config = Ok c ->
  exists fields c',
    buildFieldsObject JSON_stringify c false = Ok fields /\
    defineCollection shape (config_with_fields fields) = Ok c' /\
    keys (fieldAffordances c') = keys (fieldAffordances c) /\
    forall key fa fa' p,
      In (key, fa) (fieldAffordances c) ->
      In (key, fa') (fieldAffordances c') ->
      p <> "zodDef" ->
      is_undefined (get p fa) = false ->
      get p fa' = get p fa.
Proof.
  intros Hnd Hc.
  destruct (@defineCollection_inv shape config c Hc) as [Hshape Hfas].
  pose proof (@resolve_all_entries _ shape (fieldAffordances c) Hnd Hfas) as Hall.
  destruct (built_collection shape config c Hnd Hc) as [_ [Hkeys [Hdf _]]].
  destruct (full_fields_lookup JSON_stringify c Hdf) as [fields [Hfields Hov]].
  assert (exists fas', resolveAllFieldAffordances shape (Some fields) = Ok fas')
    as [fas' Hfas'].
  { unfold resolveAllFieldAffordances. apply for_each_total.
    intros [k s] Hin acc.
    destruct (@resolved_of_field _ shape (fieldAffordances c) (k, s) Hall Hin)
      as [r [_ [_ [inferred [zt [Hi _]]]]]].
    exact (@resolve_field_total (Some fields) acc k s inferred Hi). }
  pose proof (@resolve_all_entries _ shape fas' Hnd Hfas') as Hall'.
  exists fields.
  exists (mkCollection shape (resolveCollectionAffordances None) fas' []
                       (detectIdField shape) (detectLabelField fas')).
  split; [exact Hfields|]. split.
  { unfold defineCollection, config_with_fields. cbn [cfg_fields cfg_affordances].
    rewrite Hfas'. reflexivity. }
  cbn [fieldAffordances]. split.
  { rewrite Hkeys. exact (@resolved_keys _ shape fas' Hall'). }
  intros key fa fa' p Hin Hin' Hzd Hdef.
  destruct (@resolved_field_node _ shape (fieldAffordances c) key fa Hnd Hall Hin)
    as [s [inferred [zt [Hs [Hi [Hz Hfa]]]]]].
  destruct (@resolved_field_node _ shape fas' key fa' Hnd Hall' Hin')
    as [s' [inferred' [zt' [Hs' [Hi' [Hz' Hfa']]]]]].
  rewrite Hs in Hs'. inversion Hs'; subst s'. clear Hs'.
  rewrite Hi in Hi'. inversion Hi'; subst inferred'. clear Hi'.
  rewrite Hz in Hz'. inversion Hz'; subst zt'. clear Hz'.
  pose proof (inferred_distinct key s inferred Hi) as Hdi.
  assert (distinct_keys fa) as Hdfa
      by (rewrite Hfa; now apply resolved_record_distinct).
  assert (explicit_overrides (Some fields) key = full_props fa) as Hback.
  { exact (Hov key fa Hin). }
  assert (forall q, one_of COMPUTED_PROPS q = false -> is_undefined (get q fa) = false ->
                    get q (spread inferred (full_props fa)) = get q fa) as Hmerged.
  { intros q Hq Hdq. rewrite get_spread by apply full_props_distinct.
    rewrite (full_props_lookup fa q Hdfa), Hq, Hdq. reflexivity. }
  rewrite Hfa'. unfold resolved_record. rewrite Hback.
  destruct (String.eqb_spec p "zodType") as [->|Hzt].
  { rewrite get_assign_same. rewrite Hfa. unfold resolved_record.
    now rewrite get_assign_same. }
  rewrite get_assign_other by exact Hzt.
  assert (one_of COMPUTED_PROPS p = false) as Hcomp.
  { unfold one_of, COMPUTED_PROPS. simpl.
    apply String.eqb_neq in Hzt. apply String.eqb_neq in Hzd. now rewrite Hzt, Hzd. }
  destruct (String.eqb_spec p "title") as [->|Htitle].
  - rewrite get_assign_same. rewrite (Hmerged "title" eq_refl Hdef).
    unfold nullish_or at 1.
    assert (nullish (get "title" fa) = false) as ->; [|reflexivity].
    rewrite Hfa. unfold resolved_record.
    rewrite get_assign_other by discriminate. rewrite get_assign_same.
    now apply nullish_or_defined.
  - rewrite get_assign_other by exact Htitle. now apply Hmerged.
Qed.

Lemma full_output_rebuilds_the_fields_witness :
  match defineCollection [("name", plain_node "string")]
          (Some (mkConfig None (Some [("name", [("sortable", VBool false)])])
                          None None None)) with
  | Ok c => exists fields c',
      buildFieldsObject (fun _ => EmptyString) c false = Ok fields /\
      defineCollection [("name", plain_node "string")] (config_with_fields fields) = Ok c' /\
      forall fa', In ("name", fa') (fieldAffordances c') -> get "sortable" fa' = VBool false
  | Throw => False
  end.
Proof.
  destruct (full_output_rebuilds_the_fields (fun _ => EmptyString)
              [("name", plain_node "string")]
              (Some (mkConfig None (Some [("name", [("sortable", VBool false)])])
                              None None None)) _
              ltac:(repeat constructor; simpl; tauto) eq_refl)
    as [fields [c' [H1 [H2 [_ H4]]]]].
  exists fields, c'. split; [exact H1|]. split; [exact H2|].
  intros fa' Hin'.
  exact (H4 "name" _ fa' "sortable" (or_introl eq_refl) Hin'
            ltac:(discriminate) eq_refl).
Defined.

(** X22. Feeding the per-field objects of diff mode back as the explicit
    overrides of the same shape rebuilds the canonical properties: the
    generation succeeds, the definition succeeds, the fields are the same
    in the same order, and every property of the canonical list that a
    resolved record defines with a primitive value has the same value in
    the rebuilt record. *)
Theorem diff_output_rebuilds_canonical_properties (JSON_stringify : Value -> string)
        (shape : JsObject ZodSchema) (config : option CollectionConfig)
        (c : CollectionDefinition) :
  distinct_keys shape ->
  defineCollection shape config = Ok c ->
  exists fields c',
    buildFieldsObject JSON_stringify c true = Ok fields /\
    defineCollection shape (config_with_fields fields) = Ok c' /\
    keys (fieldAffordances c') = keys (fieldAffordances c) /\
    forall key fa fa' p,
      In (key, fa) (fieldAffordances c) ->
      In (key, fa') (fieldAffordances c') ->
      one_of FIELD_PROP_ORDER p = true ->
      is_undefined (get p fa) = false ->
      is_primitive (get p fa) = true ->
      get p fa' = get p fa.
Proof.
  intros Hnd Hc.
  destruct (@defineCollection_inv shape config c Hc) as [Hshape Hfas].
  pose proof (@resolve_all_entries _ shape (fieldAffordances c) Hnd Hfas) as Hall.
  destruct (built_collection shape config c Hnd Hc) as [_ [Hkeys [Hdf _]]].
  destruct (diff_fields_lookup JSON_stringify c Hdf) as [fields [Hfields Hov]].
  { intros key fa Hin.
    destruct (@resolved_field_node _ shape (fieldAffordances c) key fa Hnd Hall Hin)
      as [s [inferred [zt [Hs [Hi _]]]]].
    exists s, inferred. rewrite Hshape. split; assumption. }
  assert (exists fas', resolveAllFieldAffordances shape (Some fields) = Ok fas')
    as [fas' Hfas'].
  { unfold resolveAllFieldAffordances. apply for_each_total.
    intros [k s] Hin acc.
    destruct (@resolved_of_field _ shape (fieldAffordances c) (k, s) Hall Hin)
      as [r [_ [_ [inferred [zt [Hi _]]]]]].
    exact (@resolve_field_total (Some fields) acc k s inferred Hi). }
  pose proof (@resolve_all_entries _ shape fas' Hnd Hfas') as Hall'.
  exists fields.
  exists (mkCollection shape (resolveCollectionAffordances None) fas' []
                       (detectIdField shape) (detectLabelField fas')).
  split; [exact Hfields|]. split.
  { unfold defineCollection, config_with_fields. cbn [cfg_fields cfg_affordances].
    rewrite Hfas'. reflexivity. }
  cbn [fieldAffordances]. split.
  { rewrite Hkeys. exact (@resolved_keys _ shape fas' Hall'). }
  intros key fa fa' p Hin Hin' Hcanon Hdef Hprim.
  destruct (@resolved_field_node _ shape (fieldAffordances c) key fa Hnd Hall Hin)
    as [s [inferred [zt [Hs [Hi [Hz Hfa]]]]]].
  destruct (@resolved_field_node _ shape fas' key fa' Hnd Hall' Hin')
    as [s' [inferred' [zt' [Hs' [Hi' [Hz' Hfa']]]]]].
  rewrite Hs in Hs'. inversion Hs'; subst s'. clear Hs'.
  rewrite Hi in Hi'. inversion Hi'; subst inferred'. clear Hi'.
  rewrite Hz in Hz'. inversion Hz'; subst zt'. clear Hz'.
  assert (explicit_overrides (Some fields) key = diff_props JSON_stringify key fa inferred)
    as Hback.
  { rewrite (Hov key fa Hin). unfold field_diff. now rewrite Hshape, Hs, Hi. }
  assert (get p (spread inferred (diff_props JSON_stringify key fa inferred))
          = if valueEqual JSON_stringify (get p fa) (diff_baseline key inferred p)
            then get p inferred else get p fa) as Hmerged.
  { rewrite get_spread by apply diff_props_distinct.
    rewrite diff_props_lookup, Hcanon, Hdef. simpl.
    now destruct (valueEqual _ _ _). }
  assert (valueEqual JSON_stringify (get p fa) (diff_baseline key inferred p) = true ->
          get p fa = diff_baseline key inferred p) as Hsame
      by (now apply valueEqual_primitive).
  assert (p <> "zodType") as Hzt by (intros ->; discriminate).
  rewrite Hfa'. unfold resolved_record. rewrite Hback.
  rewrite get_assign_other by exact Hzt.
  destruct (String.eqb_spec p "title") as [->|Htitle].
  - rewrite get_assign_same, Hmerged.
    destruct (valueEqual _ _ _) eqn:E.
    + rewrite (Hsame eq_refl). reflexivity.
    + unfold nullish_or at 1.
      assert (nullish (get "title" fa) = false) as ->; [|reflexivity].
      rewrite Hfa. unfold resolved_record.
      rewrite get_assign_other by discriminate. rewrite get_assign_same.
      now apply nullish_or_defined.
  - rewrite get_assign_other by exact Htitle. rewrite Hmerged.
    destruct (valueEqual _ _ _) eqn:E; [|reflexivity].
    rewrite (Hsame eq_refl). unfold diff_baseline.
    apply String.eqb_neq in Htitle. now rewrite Htitle.
Qed.

Lemma diff_output_rebuilds_canonical_properties_witness :
  match defineCollection [("name", plain_node "string")]
          (Some (mkConfig None (Some [("name", [("sortable", VBool false)])])
                          None None None)) with
  | Ok c => exists fields c',
      buildFieldsObject (fun _ => EmptyString) c true = Ok fields /\
      defineCollection [("name", plain_node "string")] (config_with_fields fields) = Ok c' /\
      forall fa', In ("name", fa') (fieldAffordances c') -> get "sortable" fa' = VBool false
  | Throw => False
  end.
Proof.
  destruct (diff_output_rebuilds_canonical_properties (fun _ => EmptyString)
              [("name", plain_node "string")]
              (Some (mkConfig None (Some [("name", [("sortable", VBool false)])])
                              None None None)) _
              ltac:(repeat constructor; simpl; tauto) eq_refl)
    as [fields [c' [H1 [H2 [_ H4]]]]].
  exists fields, c'. split; [exact H1|]. split; [exact H2|].
  intros fa' Hin'.
  exact (H4 "name" _ fa' "sortable" (or_introl eq_refl) Hin' eq_refl eq_refl eq_refl).
Defined.

(** X28. Diff mode against a collection without explicit per-field
    overrides: the fields object is empty exactly when no resolved
    property of the canonical list is NaN, and then the generated config
    object has no [fields] entry.  (A NaN, which only the metadata of the
    schema can bring in, differs from itself under [valueEqual] and is
    always emitted.) *)
Theorem zero_override_diff_empty_unless_nan (JSON_stringify : Value -> string)
        (shape : JsObject ZodSchema) (config : option CollectionConfig)
        (c : CollectionDefinition) :
  distinct_keys shape ->
  (forall key, explicit_overrides (config_fields config) key = []) ->
  defineCollection shape config = Ok c ->
  (buildFieldsObject JSON_stringify c true = Ok [] <->
   forall key fa p, In (key, fa) (fieldAffordances c) -> In p FIELD_PROP_ORDER ->
                    is_nan (get p fa) = false) /\
  ((forall key fa p, In (key, fa) (fieldAffordances c) -> In p FIELD_PROP_ORDER ->
                     is_nan (get p fa) = false) ->
   exists generated,
     buildConfigObject JSON_stringify c true = Ok generated /\
     lookup "fields" generated = None /\
     has_key "fields" generated = false).
Proof.
  intros Hnd Hov Hc.
  destruct (@defineCollection_inv shape config c Hc) as [Hshape Hfas].
  pose proof (@resolve_all_entries _ shape (fieldAffordances c) Hnd Hfas) as Hall.
  destruct (built_collection shape config c Hnd Hc) as [_ [_ [Hdf _]]].
  assert ((forall key fa p, In (key, fa) (fieldAffordances c) -> In p FIELD_PROP_ORDER ->
                            is_nan (get p fa) = false) ->
          buildFieldsObject JSON_stringify c true = Ok []) as Hempty.
  { intros Hnan. unfold buildFieldsObject. apply for_each_stays.
    intros [key fa] Hin.
    destruct (@resolved_field_node _ shape (fieldAffordances c) key fa Hnd Hall Hin)
      as [schema [inferred [zt [Hlook [Hinf [_ Hfa]]]]]].
    unfold fields_step. rewrite Hshape, Hlook.
    destruct schema as [|d mn mx mt]; [discriminate Hinf|].
    cbn [bind]. rewrite Hinf. cbn [bind].
    destruct (@resolved_record_no_overrides _ key inferred zt (Hov key)) as [Ht Hp].
    rewrite diff_props_empty; [reflexivity| | |].
    - now rewrite Hfa.
    - intros prop Hprop Hne. rewrite Hfa. apply Hp; [|exact Hne].
      intros ->. now apply zodType_not_serialized.
    - intros prop Hprop. exact (Hnan key fa prop Hin Hprop). }
  split; [split; [|exact Hempty]|].
  - intros Hnone key fa p Hin Hp.
    destruct (is_nan (get p fa)) eqn:En; [exfalso|reflexivity].
    destruct (@resolved_field_node _ shape (fieldAffordances c) key fa Hnd Hall Hin)
      as [schema [inferred [zt [Hlook [Hinf _]]]]].
    destruct (diff_fields_lookup JSON_stringify c Hdf) as [fields [Hfields Hback]].
    { intros key' fa' Hin'.
      destruct (@resolved_field_node _ shape (fieldAffordances c) key' fa' Hnd Hall Hin')
        as [s' [inferred' [_ [Hs' [Hi' _]]]]].
      exists s', inferred'. rewrite Hshape. split; assumption. }
    rewrite Hnone in Hfields. inversion Hfields; subst fields.
    specialize (Hback key fa Hin). unfold field_diff in Hback.
    rewrite Hshape, Hlook, Hinf in Hback. simpl in Hback.
    pose proof (diff_props_lookup JSON_stringify key fa inferred p) as Hl.
    rewrite <- Hback in Hl. unfold one_of in Hl.
    rewrite (proj2 (existsb_eqb_In p FIELD_PROP_ORDER) Hp) in Hl.
    destruct (get p fa); try discriminate En. discriminate Hl.
  - intros Hnan.
    destruct (@config_without_fields JSON_stringify c (Hempty Hnan)) as [generated [Hg Hl]].
    exists generated. split; [exact Hg|]. split; [exact Hl|].
    unfold has_key. now rewrite Hl.
Qed.

(** The schema [{ id: string, price: number, status: enum }] with no
    config at all. *)
Lemma zero_override_diff_empty_unless_nan_witness :
  match defineCollection
          [("id", plain_node "string"); ("price", plain_node "number");
           ("status", enum_node STATUS_MEMBERS)] None with
  | Ok c => buildFieldsObject (fun _ => EmptyString) c true = Ok []
  | Throw => False
  end.
Proof.
  refine (proj2 (proj1 (zero_override_diff_empty_unless_nan (fun _ => EmptyString)
                   [("id", plain_node "string"); ("price", plain_node "number");
                    ("status", enum_node STATUS_MEMBERS)] None _ _ _ eq_refl)) _).
  - repeat constructor; simpl; intuition discriminate.
  - reflexivity.
  - intros key fa p Hin Hp. simpl in Hin.
    destruct Hin as [H|[H|[H|[]]]]; inversion H; subst key fa; clear H;
      simpl in Hp;
      repeat (destruct Hp as [Hp|Hp]; [subst p; reflexivity|]); destruct Hp.
Defined.

(* ====================================================================== *)
(** ** The in-memory provider *)
(* ====================================================================== *)

Lemma findIndex_none (A : Type) (f : A -> bool) (l : list A) :
  findIndex f l = None <-> forall x, In x l -> f x = false.
Proof.
  induction l as [|y l IH]; simpl.
  - split; [intros _ x []|reflexivity].
  - destruct (f y) eqn:E.
    + split; [discriminate|]. intros H. rewrite (H y (or_introl eq_refl)) in E.
      discriminate.
    + destruct (findIndex f l) as [i|]; simpl.
      * split; [discriminate|]. intros H.
        assert (@None nat = None) as _ by reflexivity.
        exfalso. assert (Some i = None) as Hc; [|discriminate].
        apply IH. intros x Hx. apply H. now right.
      * split; [|reflexivity]. intros _ x [<-|Hx]; [exact E|].
        now apply (proj1 IH eq_refl).
Qed.

(** What [findIndex] finds: the first element satisfying the test. *)
Lemma findIndex_some (A : Type) (f : A -> bool) (d : A) (l : list A) (i : nat) :
  findIndex f l = Some i ->
  i < List.length l /\ f (nth i l d) = true /\ find f l = Some (nth i l d) /\
  forall j, j < i -> f (nth j l d) = false.
Proof.
  revert i. induction l as [|y l IH]; intros i; simpl; [discriminate|].
  destruct (f y) eqn:E.
  - intros H. inversion H; subst i. repeat split; [lia|exact E|]. intros j Hj. lia.
  - destruct (findIndex f l) as [k|]; simpl; [|discriminate].
    intros H. inversion H; subst i.
    destruct (IH k eq_refl) as [H1 [H2 [H3 H4]]].
    repeat split; [lia|exact H2|exact H3|].
    intros [|j] Hj; [exact E|]. apply H4. lia.
Qed.

Lemma find_ext_in (A : Type) (f g : A -> bool) (l : list A) :
  (forall x, In x l -> f x = g x) -> find f l = find g l.
Proof.
  induction l as [|y l IH]; intros H; simpl; [reflexivity|].
  rewrite (H y (or_introl eq_refl)). destruct (g y); [reflexivity|].
  apply IH. intros x Hx. apply H. now right.
Qed.

Lemma find_app_last (A : Type) (f : A -> bool) (l : list A) (x : A) :
  find f (l ++ [x])
  = match find f l with Some y => Some y | None => if f x then Some x else None end.
Proof.
  induction l as [|y l IH]; simpl; [reflexivity|]. now destruct (f y).
Qed.

(** Replacing the first element that satisfies [f]: a test [g] that
    agrees on the old and the new element finds what it found. *)
Lemma find_replace_other (A : Type) (g : A -> bool) (d x : A) (l : list A) (i : nat) :
  g (nth i l d) = false -> g x = false ->
  find g (replace_at i x l) = find g l.
Proof.
  revert i. induction l as [|y l IH]; intros i Hold Hnew; [now destruct i|].
  destruct i as [|i]; simpl in *.
  - now rewrite Hold, Hnew.
  - destruct (g y); [reflexivity|]. now apply IH.
Qed.

Lemma find_replace_same (A : Type) (f : A -> bool) (d x : A) (l : list A) (i : nat) :
  i < List.length l -> (forall j, j < i -> f (nth j l d) = false) -> f x = true ->
  find f (replace_at i x l) = Some x.
Proof.
  revert i. induction l as [|y l IH]; intros i Hi Hbefore Hx; simpl in Hi; [lia|].
  destruct i as [|i]; simpl.
  - now rewrite Hx.
  - pose proof (Hbefore 0 ltac:(lia)) as H0. simpl in H0. rewrite H0.
    apply IH; [lia| |exact Hx].
    intros j Hj. apply (Hbefore (S j)). lia.
Qed.

Lemma replace_at_length (A : Type) (i : nat) (x : A) (l : list A) :
  List.length (replace_at i x l) = List.length l.
Proof.
  revert i. induction l as [|y l IH]; intros [|i]; simpl; try reflexivity.
  now rewrite IH.
Qed.

Lemma find_splice_other (A : Type) (g : A -> bool) (d : A) (l : list A) (i : nat) :
  g (nth i l d) = false -> find g (splice_one i l) = find g l.
Proof.
  revert i. induction l as [|y l IH]; intros i Hold; [now destruct i|].
  destruct i as [|i]; simpl in *.
  - now rewrite Hold.
  - destruct (g y); [reflexivity|]. now apply IH.
Qed.

Lemma splice_one_length (A : Type) (i : nat) (l : list A) :
  i < List.length l -> List.length (splice_one i l) + 1 = List.length l.
Proof.
  revert i. induction l as [|y l IH]; intros [|i] Hi; simpl in *; try lia.
  rewrite <- (IH i); lia.
Qed.

Lemma splice_one_In (A : Type) (d : A) (i : nat) (l : list A) (x : A) :
  In x (splice_one i l) -> exists j, j <> i /\ j < List.length l /\ nth j l d = x.
Proof.
  revert i. induction l as [|y l IH]; intros i Hin; [now destruct i|].
  destruct i as [|i]; simpl in Hin.
  - destruct (In_nth l x d Hin) as [j [Hj Hn]]. exists (S j). simpl.
    repeat split; [lia|lia|exact Hn].
  - destruct Hin as [<-|Hin].
    + exists 0. simpl. repeat split; lia.
    + destruct (IH i Hin) as [j [Hj [Hl Hn]]]. exists (S j). simpl.
      repeat split; [lia|lia|exact Hn].
Qed.

Section ProviderFacts.

Variable host_String : Value -> string.

(** Reading a property of a shallow copy of an object with distinct keys. *)
Lemma get_copy (k : string) (o : Obj) : distinct_keys o -> get k (spread [] o) = get k o.
Proof.
  intros Hd. rewrite get_spread by exact Hd. unfold get.
  now destruct (lookup k o).
Qed.

Lemma unknown_id_spec (p : InMemoryProvider.Provider) (id : string) :
  unknown_id host_String p id <->
  forall item, In item (InMemoryProvider.items p) ->
               InMemoryProvider.has_id host_String p id item = false.
Proof.
  unfold unknown_id, InMemoryProvider.has_id. split; intros H item Hin.
  - apply String.eqb_neq. now apply H.
  - apply String.eqb_neq. now apply H.
Qed.

(** X23. An identifier that no item has: [getOne], [update] and [delete]
    reject, whereas [updateMany] and [deleteMany] skip it silently and
    leave the store as it is. Conversely [getOne] rejects only such an
    identifier. *)
Theorem strict_and_lenient_on_unknown_id (p : InMemoryProvider.Provider)
        (id : string) (data : Obj) :
  (unknown_id host_String p id <-> InMemoryProvider.getOne host_String p id = Throw) /\
  (unknown_id host_String p id ->
   InMemoryProvider.update host_String p id data = Throw /\
   InMemoryProvider.delete host_String p id = Throw /\
   InMemoryProvider.updateMany host_String p [id] data = (p, []) /\
   InMemoryProvider.items (InMemoryProvider.deleteMany host_String p [id])
   = InMemoryProvider.items p).
Proof.
  split.
  - rewrite unknown_id_spec. unfold InMemoryProvider.getOne. split.
    + intros H.
      destruct (find _ (InMemoryProvider.items p)) as [item|] eqn:E; [|reflexivity].
      apply find_some in E. destruct E as [Hin Hid].
      rewrite (H item Hin) in Hid. discriminate.
    + destruct (find _ (InMemoryProvider.items p)) as [item|] eqn:E; [discriminate|].
      intros _ item Hin. exact (List.find_none _ _ E item Hin).
  - intros H0. pose proof (proj1 (unknown_id_spec p id) H0) as H. clear H0.
    pose proof (proj2 (findIndex_none _ _ _) H) as Hnone.
    unfold InMemoryProvider.update, InMemoryProvider.delete,
      InMemoryProvider.updateMany, InMemoryProvider.deleteMany. simpl.
    rewrite Hnone. repeat split.
    rewrite <- (filter_ext_in (fun _ => true)).
    + clear. induction (InMemoryProvider.items p) as [|y l IH]; simpl; [reflexivity|].
      now rewrite IH.
    + intros item Hin. specialize (H item Hin).
      unfold InMemoryProvider.has_id in H.
      now rewrite H.
Qed.

Lemma has_id_other (p : InMemoryProvider.Provider) (id id' : string) (item : Obj) :
  id' <> id -> InMemoryProvider.has_id host_String p id item = true ->
  InMemoryProvider.has_id host_String p id' item = false.
Proof.
  unfold InMemoryProvider.has_id. intros Hne H. apply String.eqb_eq in H.
  apply String.eqb_neq. congruence.
Qed.

(** X24. A successful [update] that leaves the identifier as it was is
    read back by [getOne]: the returned record is the stored one, it
    holds the value of [data] for every property of [data] and the old
    value for the others, the records under other identifiers are
    untouched, and neither the number of items nor the identifier
    counter changes. *)
Theorem update_is_read_back (p p' : InMemoryProvider.Provider) (id : string)
        (data r : Obj) :
  InMemoryProvider.update host_String p id data = Ok (p', r) ->
  InMemoryProvider.getItemId host_String p r = id ->
  InMemoryProvider.getOne host_String p' id = Ok r /\
  (forall id', id' <> id ->
     InMemoryProvider.getOne host_String p' id' = InMemoryProvider.getOne host_String p id') /\
  (forall old k, InMemoryProvider.getOne host_String p id = Ok old ->
                 distinct_keys data ->
                 get k r = match lookup k data with Some v => v | None => get k old end) /\
  List.length (InMemoryProvider.items p') = List.length (InMemoryProvider.items p) /\
  InMemoryProvider.nextId p' = InMemoryProvider.nextId p.
Proof.
  unfold InMemoryProvider.update.
  destruct (findIndex (InMemoryProvider.has_id host_String p id) (InMemoryProvider.items p))
    as [i|] eqn:Ei; [|discriminate].
  destruct (findIndex_some Obj _ (@nil (string * Value)) _ _ Ei) as [Hi [Hat [Hfind Hbefore]]].
  set (old := nth i (InMemoryProvider.items p) []) in *.
  set (item := spread (spread [] old) data).
  intros H Hid. inversion H; subst p' r. clear H.
  assert (distinct_keys item) as Hditem
      by (apply spread_distinct, spread_distinct; constructor).
  assert (InMemoryProvider.has_id host_String p id item = true) as Hnew.
  { unfold InMemoryProvider.has_id, InMemoryProvider.getItemId in *.
    rewrite (get_copy _ item Hditem) in Hid. now apply String.eqb_eq. }
  split; [|split; [|split; [|split]]].
  - unfold InMemoryProvider.getOne. cbn [InMemoryProvider.items InMemoryProvider.with_items].
    change (InMemoryProvider.has_id host_String
              (InMemoryProvider.with_items p
                 (replace_at i item (InMemoryProvider.items p))) id)
      with (InMemoryProvider.has_id host_String p id).
    match goal with
    | |- context [find ?f ?l] =>
        replace (find f l) with (Some item);
          [reflexivity
          |symmetry; exact (find_replace_same Obj _ (@nil (string * Value)) item _ i
                              Hi Hbefore Hnew)]
    end.
  - intros id' Hne. unfold InMemoryProvider.getOne.
    cbn [InMemoryProvider.items InMemoryProvider.with_items].
    change (InMemoryProvider.has_id host_String
              (InMemoryProvider.with_items p
                 (replace_at i item (InMemoryProvider.items p))) id')
      with (InMemoryProvider.has_id host_String p id').
    match goal with
    | |- context [find ?f (replace_at i item ?l)] =>
        replace (find f (replace_at i item l)) with (find f l); [reflexivity|]
    end.
    symmetry. apply (find_replace_other Obj _ (@nil (string * Value)) item _ i).
    + exact (has_id_other p id id' _ Hne Hat).
    + exact (has_id_other p id id' _ Hne Hnew).
  - intros old' k Hold Hdd. unfold InMemoryProvider.getOne in Hold.
    rewrite Hfind in Hold. inversion Hold; subst old'. fold old.
    rewrite (get_copy k item Hditem). unfold item.
    now rewrite get_spread by exact Hdd.
  - cbn [InMemoryProvider.items InMemoryProvider.with_items]. apply replace_at_length.
  - reflexivity.
Qed.

(** X25. A successful [delete] removes one item and leaves the records
    under other identifiers as they were; when the identifiers are
    pairwise different, the deleted identifier is then unknown. *)
Theorem delete_removes_one_item (p p' : InMemoryProvider.Provider) (id : string) :
  InMemoryProvider.delete host_String p id = Ok p' ->
  List.length (InMemoryProvider.items p') + 1 = List.length (InMemoryProvider.items p) /\
  (forall id', id' <> id ->
     InMemoryProvider.getOne host_String p' id' = InMemoryProvider.getOne host_String p id') /\
  (unique_ids host_String p -> InMemoryProvider.getOne host_String p' id = Throw).
Proof.
  unfold InMemoryProvider.delete.
  destruct (findIndex (InMemoryProvider.has_id host_String p id) (InMemoryProvider.items p))
    as [i|] eqn:Ei; [|discriminate].
  destruct (findIndex_some Obj _ (@nil (string * Value)) _ _ Ei) as [Hi [Hat [Hfind Hbefore]]].
  intros H. inversion H; subst p'. clear H.
  cbn [InMemoryProvider.items InMemoryProvider.with_items].
  split; [now apply splice_one_length|]. split.
  - intros id' Hne. unfold InMemoryProvider.getOne.
    cbn [InMemoryProvider.items InMemoryProvider.with_items].
    change (InMemoryProvider.has_id host_String
              (InMemoryProvider.with_items p (splice_one i (InMemoryProvider.items p))) id')
      with (InMemoryProvider.has_id host_String p id').
    match goal with
    | |- context [find ?f (splice_one i ?l)] =>
        replace (find f (splice_one i l)) with (find f l); [reflexivity|]
    end.
    symmetry. apply (find_splice_other Obj _ (@nil (string * Value)) _ i).
    exact (has_id_other p id id' _ Hne Hat).
  - intros Huniq. unfold InMemoryProvider.getOne.
    cbn [InMemoryProvider.items InMemoryProvider.with_items].
    change (InMemoryProvider.has_id host_String
              (InMemoryProvider.with_items p (splice_one i (InMemoryProvider.items p))) id)
      with (InMemoryProvider.has_id host_String p id).
    destruct (find _ (splice_one i (InMemoryProvider.items p))) as [x|] eqn:E;
      [|reflexivity].
    exfalso. apply find_some in E. destruct E as [Hin Hx].
    destruct (splice_one_In Obj (@nil (string * Value)) i _ x Hin) as [j [Hji [Hj Hn]]].
    apply Hji. unfold unique_ids in Huniq.
    apply (proj1 (NoDup_nth _ (InMemoryProvider.getItemId host_String p []))) with (i := j) (j := i)
      in Huniq; [exact Huniq| | |].
    + now rewrite length_map.
    + now rewrite length_map.
    + rewrite !map_nth. rewrite Hn.
      unfold InMemoryProvider.has_id in Hx, Hat.
      apply String.eqb_eq in Hx. apply String.eqb_eq in Hat. congruence.
Qed.

(** X26. [deleteMany] never rejects; afterwards every listed identifier
    is unknown and every other identifier reads the record it read
    before. *)
Theorem delete_many_removes_listed_ids (p : InMemoryProvider.Provider)
        (ids : list string) (id : string) :
  InMemoryProvider.getOne host_String (InMemoryProvider.deleteMany host_String p ids) id
  = (if existsb (String.eqb id) ids then Throw
     else InMemoryProvider.getOne host_String p id) /\
  InMemoryProvider.nextId (InMemoryProvider.deleteMany host_String p ids)
  = InMemoryProvider.nextId p.
Proof.
  split; [|reflexivity].
  unfold InMemoryProvider.getOne, InMemoryProvider.deleteMany.
  cbn [InMemoryProvider.items InMemoryProvider.with_items].
  match goal with
  | |- context [find ?f (filter ?k _)] =>
      change f with (InMemoryProvider.has_id host_String p id);
      set (keep := k)
  end.
  assert (find (InMemoryProvider.has_id host_String p id)
               (filter keep (InMemoryProvider.items p))
          = if existsb (String.eqb id) ids then None
            else find (InMemoryProvider.has_id host_String p id) (InMemoryProvider.items p))
    as ->.
  { induction (InMemoryProvider.items p) as [|y l IH]; simpl.
    - now destruct (existsb (String.eqb id) ids).
    - destruct (InMemoryProvider.has_id host_String p id y) eqn:Ey.
      + assert (keep y = negb (existsb (String.eqb id) ids)) as Hk.
        { unfold keep. unfold InMemoryProvider.has_id in Ey.
          apply String.eqb_eq in Ey. now rewrite Ey. }
        rewrite Hk. destruct (existsb (String.eqb id) ids); simpl.
        * exact IH.
        * now rewrite Ey.
      + destruct (keep y); simpl; [now rewrite Ey|exact IH]. }
  now destruct (existsb (String.eqb id) ids).
Qed.

(** X27. [create] appends one item and never rejects. An identifier given
    in [data] is kept and the counter stays; otherwise the item gets the
    counter as its identifier and the counter moves on by one. Every
    other property of [data] is stored as given. Records that were
    readable stay readable under their identifiers, and the new record is
    read back under its identifier when no earlier item has it. *)
Theorem create_appends_one_item (p : InMemoryProvider.Provider) (data : Obj) :
  let p' := fst (InMemoryProvider.create host_String p data) in
  let r := snd (InMemoryProvider.create host_String p data) in
  List.length (InMemoryProvider.items p') = List.length (InMemoryProvider.items p) + 1 /\
  (nullish (get (InMemoryProvider.idField p) data) = false ->
   get (InMemoryProvider.idField p) r = get (InMemoryProvider.idField p) data /\
   InMemoryProvider.nextId p' = InMemoryProvider.nextId p) /\
  (nullish (get (InMemoryProvider.idField p) data) = true ->
   get (InMemoryProvider.idField p) r
   = VStr (InMemoryProvider.String_of host_String (VNum (InMemoryProvider.nextId p))) /\
   InMemoryProvider.nextId p' = (InMemoryProvider.nextId p + 1)%Z) /\
  (forall k, k <> InMemoryProvider.idField p -> distinct_keys data ->
             get k r = get k data) /\
  (forall id x, InMemoryProvider.getOne host_String p id = Ok x ->
                InMemoryProvider.getOne host_String p' id = Ok x) /\
  (unknown_id host_String p (InMemoryProvider.getItemId host_String p r) ->
   InMemoryProvider.getOne host_String p' (InMemoryProvider.getItemId host_String p r)
   = Ok r).
Proof.
  unfold InMemoryProvider.create. cbv zeta. cbn [fst snd].
  set (idValue := if nullish (get (InMemoryProvider.idField p) data)
                  then VStr (InMemoryProvider.String_of host_String
                               (VNum (InMemoryProvider.nextId p)))
                  else get (InMemoryProvider.idField p) data).
  set (newItem := assign (InMemoryProvider.idField p) idValue (spread [] data)).
  assert (distinct_keys newItem) as Hdn
      by (apply assign_distinct, spread_distinct; constructor).
  assert (get (InMemoryProvider.idField p) (spread [] newItem) = idValue) as Hidv.
  { rewrite (get_copy _ newItem Hdn). unfold newItem. apply get_assign_same. }
  cbn [InMemoryProvider.items InMemoryProvider.nextId].
  split; [now rewrite length_app|]. split; [|split; [|split; [|split]]].
  - intros Hn. rewrite Hidv. unfold idValue. now rewrite Hn.
  - intros Hn. rewrite Hidv. unfold idValue. now rewrite Hn.
  - intros k Hk Hdd. rewrite (get_copy k newItem Hdn). unfold newItem.
    rewrite get_assign_other by exact Hk. now apply get_copy.
  - intros id x. unfold InMemoryProvider.getOne. cbn [InMemoryProvider.items].
    match goal with
    | |- context [find ?f (_ ++ _)] =>
        change f with (InMemoryProvider.has_id host_String p id)
    end.
    rewrite find_app_last. unfold Obj, JsObject.
    match goal with
    | |- context [@find ?A ?f (InMemoryProvider.items p)] =>
        destruct (@find A f (InMemoryProvider.items p));
          [intros H; exact H | intros H; discriminate H]
    end.
  - intros Hunk. unfold InMemoryProvider.getOne. cbn [InMemoryProvider.items].
    match goal with
    | |- context [find ?f (_ ++ _)] =>
        change f with (InMemoryProvider.has_id host_String p
                         (InMemoryProvider.getItemId host_String p (spread [] newItem)))
    end.
    rewrite find_app_last.
    pose proof (proj1 (unknown_id_spec p _) Hunk) as Hnone.
    unfold Obj, JsObject.
    match goal with
    | |- context [@find ?A ?f (InMemoryProvider.items p)] =>
        destruct (@find A f (InMemoryProvider.items p)) as [y|] eqn:E
    end.
    + apply find_some in E. destruct E as [Hin Hy].
      pose proof (Hnone y Hin) as Hy'. unfold Obj, JsObject in Hy'.
      rewrite Hy' in Hy. discriminate.
    + assert (InMemoryProvider.has_id host_String p
                (InMemoryProvider.getItemId host_String p (spread [] newItem)) newItem
              = true) as ->; [|reflexivity].
      unfold InMemoryProvider.has_id, InMemoryProvider.getItemId.
      rewrite (get_copy _ newItem Hdn). apply String.eqb_refl.
Qed.

End ProviderFacts.

Lemma update_is_read_back_witness :
  let p := InMemoryProvider.createInMemoryProvider
             [[("id", VStr "1"); ("name", VStr "Alpha")];
              [("id", VStr "2"); ("name", VStr "Beta")]] None in
  match InMemoryProvider.update (fun _ => EmptyString) p "2" [("name", VStr "Gamma")] with
  | Ok (p', r) => InMemoryProvider.getOne (fun _ => EmptyString) p' "2" = Ok r
  | Throw => False
  end.
Proof.
  exact (proj1 (update_is_read_back (fun _ => EmptyString)
                  (InMemoryProvider.createInMemoryProvider
                     [[("id", VStr "1"); ("name", VStr "Alpha")];
                      [("id", VStr "2"); ("name", VStr "Beta")]] None)
                  _ "2" [("name", VStr "Gamma")] _ eq_refl eq_refl)).
Defined.

Lemma delete_removes_one_item_witness :
  let p := InMemoryProvider.createInMemoryProvider
             [[("id", VStr "1"); ("name", VStr "Alpha")];
              [("id", VStr "2"); ("name", VStr "Beta")]] None in
  match InMemoryProvider.delete (fun _ => EmptyString) p "1" with
  | Ok p' => List.length (InMemoryProvider.items p') + 1 = 2
  | Throw => False
  end.
Proof.
  exact (proj1 (delete_removes_one_item (fun _ => EmptyString)
                  (InMemoryProvider.createInMemoryProvider
                     [[("id", VStr "1"); ("name", VStr "Alpha")];
                      [("id", VStr "2"); ("name", VStr "Beta")]] None)
                  _ "1" eq_refl)).
Defined.
